(** * typedoc-monorepo-link-types: the missing-export collector and the
      resolution driver of [src/index.ts]

    The plugin walks the reflection tree that TypeDoc has converted, collects
    the compiler symbols that type references point at without a documented
    reflection ([discoverMissingExports]), and repairs each top-level module
    ([onResolveBegin]): a symbol whose name is documented somewhere is bound to
    that reflection, any other symbol is converted into a namespace that the
    driver creates inside the module.

    The reflection tree is embedded as a value; a JavaScript object reference
    is its reflection id, and reading a live object is a lookup by id in the
    current tree, which finds that object as long as ids are unique, as
    TypeDoc's are.  The calls the driver makes on TypeDoc's [Context] are
    recorded in a log next to the state they change.  The two loops of the
    source take fuel; the collector is given enough of it, and the driver's
    loop returns [None] when it is given too little. *)

From Stdlib Require Import List String NArith Arith Lia Bool.
Import ListNotations.

Set Implicit Arguments.
#[local] Set Warnings "-register-all".

(** ** Symbols and sets of symbols *)

(** A [ts.Symbol].  JavaScript compares symbols by object identity:
    [symbol_id] is that identity, so two symbols may share a name. *)
Record Symbol : Type := mkSymbol { symbol_id : nat; symbol_name : string }.

Definition Symbol_eq_dec (a b : Symbol) : {a = b} + {a <> b}.
Proof. decide equality; [apply string_dec | apply Nat.eq_dec]. Defined.

(** [Set<ts.Symbol>]: a JavaScript [Set] iterates in insertion order and
    holds no element twice. *)
Module SymbolSet.

Definition t : Type := list Symbol.

Definition empty : t := [].

(** [set.add(s)] *)
Definition add (s : Symbol) (l : t) : t :=
  if in_dec Symbol_eq_dec s l then l else l ++ [s].

(** [set.delete(s)] *)
Definition delete (s : Symbol) (l : t) : t := remove Symbol_eq_dec s l.

(** [set.size] *)
Definition size (l : t) : nat := List.length l.

End SymbolSet.

(** ** Reflections and types *)

(** Modelled from the spec: TypeDoc's [ReflectionKind], the kind tag of a
    reflection, which the plugin imports.  It is a bit mask. *)
Module ReflectionKind.
Definition Project : N := 1.
Definition Module : N := 2.
Definition Namespace : N := 4.
Definition Function : N := 64.
Definition Interface : N := 256.
Definition Property : N := 1024.
Definition TypeAlias : N := 4194304.
End ReflectionKind.

(** The classes the collector tests with [instanceof].
    [ProjectReflection] and [DeclarationReflection] extend
    [ContainerReflection]. *)
Inductive ReflectionClass : Type :=
| ProjectClass
| DeclarationClass
| SignatureClass
| ParameterClass
| TypeParameterClass.

(** Modelled from the spec: the target of TypeDoc's [ReferenceType], the
    symbol reference of the data model.  It points at the id of a
    reflection, at a compiler symbol that was not bound to a reflection when
    the type was made, or at nothing (a broken reference). *)
Inductive ReferenceTarget : Type :=
| TargetReflection (id : nat)
| TargetSymbol (symbol : Symbol)
| TargetBroken.

(** Modelled from the spec: TypeDoc's reflections and types, which the
    plugin imports.  A reflection carries every field the collector reads; an
    absent array and an empty one are the same to [add] and to [?.length], so
    both are the empty list.  [ReferenceType] is the symbol reference and
    [ReflectionType] the inline reflection of the data model;
    [CompositeType] stands for the type shapes that are only traversed
    (array, union, intersection, tuple, conditional, ...), [AtomicType] for
    those without parts. *)
Inductive Reflection : Type :=
| mkReflection
    (cls : ReflectionClass) (id : nat) (name : string) (kind : N)
    (children : list Reflection)
    (type : option SomeType) (default : option SomeType)
    (typeParameters signatures parameters : list Reflection)
    (indexSignature getSignature setSignature : option Reflection)
    (overwrites inheritedFrom implementationOf : option SomeType)
    (extendedTypes extendedBy implementedTypes implementedBy : list SomeType)
with SomeType : Type :=
| ReferenceType (target : ReferenceTarget) (typeArguments : list SomeType)
| ReflectionType (declaration : Reflection)
| CompositeType (types : list SomeType)
| AtomicType (name : string).

Definition cls (r : Reflection) : ReflectionClass :=
  let '(mkReflection x _ _ _ _ _ _ _ _ _ _ _ _ _ _ _ _ _ _ _) := r in x.
Definition id (r : Reflection) : nat :=
  let '(mkReflection _ x _ _ _ _ _ _ _ _ _ _ _ _ _ _ _ _ _ _) := r in x.
Definition name (r : Reflection) : string :=
  let '(mkReflection _ _ x _ _ _ _ _ _ _ _ _ _ _ _ _ _ _ _ _) := r in x.
Definition kind (r : Reflection) : N :=
  let '(mkReflection _ _ _ x _ _ _ _ _ _ _ _ _ _ _ _ _ _ _ _) := r in x.
Definition children (r : Reflection) : list Reflection :=
  let '(mkReflection _ _ _ _ x _ _ _ _ _ _ _ _ _ _ _ _ _ _ _) := r in x.
Definition type (r : Reflection) : option SomeType :=
  let '(mkReflection _ _ _ _ _ x _ _ _ _ _ _ _ _ _ _ _ _ _ _) := r in x.
Definition default (r : Reflection) : option SomeType :=
  let '(mkReflection _ _ _ _ _ _ x _ _ _ _ _ _ _ _ _ _ _ _ _) := r in x.
Definition typeParameters (r : Reflection) : list Reflection :=
  let '(mkReflection _ _ _ _ _ _ _ x _ _ _ _ _ _ _ _ _ _ _ _) := r in x.
Definition signatures (r : Reflection) : list Reflection :=
  let '(mkReflection _ _ _ _ _ _ _ _ x _ _ _ _ _ _ _ _ _ _ _) := r in x.
Definition parameters (r : Reflection) : list Reflection :=
  let '(mkReflection _ _ _ _ _ _ _ _ _ x _ _ _ _ _ _ _ _ _ _) := r in x.
Definition indexSignature (r : Reflection) : option Reflection :=
  let '(mkReflection _ _ _ _ _ _ _ _ _ _ x _ _ _ _ _ _ _ _ _) := r in x.
Definition getSignature (r : Reflection) : option Reflection :=
  let '(mkReflection _ _ _ _ _ _ _ _ _ _ _ x _ _ _ _ _ _ _ _) := r in x.
Definition setSignature (r : Reflection) : option Reflection :=
  let '(mkReflection _ _ _ _ _ _ _ _ _ _ _ _ x _ _ _ _ _ _ _) := r in x.
Definition overwrites (r : Reflection) : option SomeType :=
  let '(mkReflection _ _ _ _ _ _ _ _ _ _ _ _ _ x _ _ _ _ _ _) := r in x.
Definition inheritedFrom (r : Reflection) : option SomeType :=
  let '(mkReflection _ _ _ _ _ _ _ _ _ _ _ _ _ _ x _ _ _ _ _) := r in x.
Definition implementationOf (r : Reflection) : option SomeType :=
  let '(mkReflection _ _ _ _ _ _ _ _ _ _ _ _ _ _ _ x _ _ _ _) := r in x.
Definition extendedTypes (r : Reflection) : list SomeType :=
  let '(mkReflection _ _ _ _ _ _ _ _ _ _ _ _ _ _ _ _ x _ _ _) := r in x.
Definition extendedBy (r : Reflection) : list SomeType :=
  let '(mkReflection _ _ _ _ _ _ _ _ _ _ _ _ _ _ _ _ _ x _ _) := r in x.
Definition implementedTypes (r : Reflection) : list SomeType :=
  let '(mkReflection _ _ _ _ _ _ _ _ _ _ _ _ _ _ _ _ _ _ x _) := r in x.
Definition implementedBy (r : Reflection) : list SomeType :=
  let '(mkReflection _ _ _ _ _ _ _ _ _ _ _ _ _ _ _ _ _ _ _ x) := r in x.

(** [current instanceof ContainerReflection] and the like. *)
Definition isContainerReflection (r : Reflection) : bool :=
  match cls r with ProjectClass | DeclarationClass => true | _ => false end.
Definition isDeclarationReflection (r : Reflection) : bool :=
  match cls r with DeclarationClass => true | _ => false end.
Definition isSignatureReflection (r : Reflection) : bool :=
  match cls r with SignatureClass => true | _ => false end.
Definition isParameterReflection (r : Reflection) : bool :=
  match cls r with ParameterClass => true | _ => false end.
Definition isTypeParameterReflection (r : Reflection) : bool :=
  match cls r with TypeParameterClass => true | _ => false end.

(** Modelled from the spec: TypeDoc's [reflection.kindOf(k)]: some bit of
    [k] is set in the kind. *)
Definition kindOf (r : Reflection) (k : N) : bool := negb (N.land (kind r) k =? 0)%N.

(** Modelled from the spec: TypeDoc's [container.getChildrenByKind(k)],
    the child-by-kind lookup. *)
Definition getChildrenByKind (r : Reflection) (k : N) : list Reflection :=
  filter (fun c => kindOf c k) (children r).

(** The same reflection with another [children] array. *)
Definition withChildren (r : Reflection) (cs : list Reflection) : Reflection :=
  let '(mkReflection c i n k _ t d tp sg pa ix gs ss ow ih im et eb it ib) := r in
  mkReflection c i n k cs t d tp sg pa ix gs ss ow ih im et eb it ib.

Definition sumOption {A : Type} (f : A -> nat) (o : option A) : nat :=
  match o with Some a => f a | None => 0 end.

(** Number of reflections nested in a reflection, itself included, and in a
    type: the measure of the collector's work list. *)
Fixpoint reflection_size (r : Reflection) : nat :=
  S (list_sum (map reflection_size (children r))
     + sumOption type_size (type r)
     + sumOption type_size (default r)
     + list_sum (map reflection_size (typeParameters r))
     + list_sum (map reflection_size (signatures r))
     + list_sum (map reflection_size (parameters r))
     + sumOption reflection_size (indexSignature r)
     + sumOption reflection_size (getSignature r)
     + sumOption reflection_size (setSignature r)
     + sumOption type_size (overwrites r)
     + sumOption type_size (inheritedFrom r)
     + sumOption type_size (implementationOf r)
     + list_sum (map type_size (extendedTypes r))
     + list_sum (map type_size (implementedTypes r)))
with type_size (t : SomeType) : nat :=
  match t with
  | ReferenceType _ typeArguments => list_sum (map type_size typeArguments)
  | ReflectionType declaration => reflection_size declaration
  | CompositeType types => list_sum (map type_size types)
  | AtomicType _ => 0
  end.

(** ** The project state the plugin works on *)

(** A [ts.Program]; the plugin only stores and passes programs on. *)
Definition Program : Type := nat.

(** The calls [onResolveBegin] makes on TypeDoc's [Context] and project.
    [scope] is the id of the reflection given to [withScope]. *)
Inductive Call : Type :=
| SetActiveProgram (program : option Program)
| CreateDeclarationReflection (scope : nat) (kind : N) (name : string) (created : nat)
| FinalizeDeclarationReflection (reflection : nat)
| RegisterReflection (scope : nat) (reflection : nat) (symbol : Symbol)
| ConvertSymbol (scope : nat) (symbol : Symbol)
| RemoveReflection (reflection : nat).

(** The mutable state of a resolution phase: the reflection tree under
    [context.project], the project's table from symbols to reflection ids,
    TypeDoc's reflection id counter, the active program of the context, the
    plugin's [knownPrograms] map, and the log of calls made so far. *)
Record State : Type := mkState {
  project : Reflection;
  symbolToReflectionIdMap : list (Symbol * nat);
  nextId : nat;
  program : option Program;
  knownPrograms : list (nat * Program);
  calls : list Call
}.

(** Modelled from the spec: [project.getReflectionFromSymbol(symbol)], the
    lookup in the project's table of bindings, as an id. *)
Fixpoint getReflectionFromSymbol (m : list (Symbol * nat)) (s : Symbol)
  : option nat :=
  match m with
  | [] => None
  | (s', i) :: m' =>
      if Symbol_eq_dec s s' then Some i else getReflectionFromSymbol m' s
  end.

(** Modelled from the spec: [type.reflection] of a [ReferenceType], the
    resolved reflection a symbol reference may carry.  A numeric target names
    its reflection, a symbol target is looked up in the project's table when
    the getter runs, a broken reference has none. *)
Definition reflection (m : list (Symbol * nat)) (target : ReferenceTarget)
  : option nat :=
  match target with
  | TargetReflection i => Some i
  | TargetSymbol s => getReflectionFromSymbol m s
  | TargetBroken => None
  end.

(** Modelled from the spec: [type.getSymbol()] of a [ReferenceType], the
    symbol a symbol reference names. *)
Definition getSymbol (target : ReferenceTarget) : option Symbol :=
  match target with
  | TargetSymbol s => Some s
  | _ => None
  end.

(** ** The reference collector, [discoverMissingExports] *)

(** The two locals the collector's closures write to. *)
Record Collector : Type := mkCollector {
  queue : list Reflection;
  missing : SymbolSet.t
}.

Section Collect.

(** The table [type.reflection] reads. *)
Variable bindings : list (Symbol * nat).

(** The [reference] callback of the visitor. *)
Definition visitor_reference (target : ReferenceTarget) (c : Collector)
  : Collector :=
  match reflection bindings target with
  | Some _ => c
  | None =>
      match getSymbol target with
      | Some symbol => mkCollector (queue c) (SymbolSet.add symbol (missing c))
      | None => c
      end
  end.

(** The [reflection] callback of the visitor:
    [queue.push(type.declaration)]. *)
Definition visitor_reflection (declaration : Reflection) (c : Collector)
  : Collector :=
  mkCollector (queue c ++ [declaration]) (missing c).

(** Modelled from the spec: TypeDoc's [type.visit(visitor)] with
    [visitor = makeRecursiveVisitor({reference, reflection})], the
    kind-dispatching visitor of the collector.  The callback of the type's
    own shape runs first, then the recursive visitor is applied to the
    parts of the type from left to right.  The recursive visitor does not
    enter the declaration of a [ReflectionType]; the callback queues
    it. *)
Fixpoint visit (t : SomeType) (c : Collector) : Collector :=
  match t with
  | ReferenceType target typeArguments =>
      fold_left (fun c' a => visit a c') typeArguments (visitor_reference target c)
  | ReflectionType declaration => visitor_reflection declaration c
  | CompositeType types => fold_left (fun c' a => visit a c') types c
  | AtomicType _ => c
  end.

(** [t?.visit(visitor)] *)
Definition visitOption (t : option SomeType) (c : Collector) : Collector :=
  match t with Some t' => visit t' c | None => c end.

(** [ts?.forEach((type) => type.visit(visitor))] *)
Definition visitEach (ts : list SomeType) (c : Collector) : Collector :=
  fold_left (fun c' a => visit a c') ts c.

(** [add(item)] for an array: [queue.push(...item)]. *)
Definition add (item : list Reflection) (c : Collector) : Collector :=
  mkCollector (queue c ++ item) (missing c).

(** [add(item)] for a single reflection or [undefined]. *)
Definition addOption (item : option Reflection) (c : Collector) : Collector :=
  match item with
  | Some r => mkCollector (queue c ++ [r]) (missing c)
  | None => c
  end.

Definition whenInstance (b : bool) (f : Collector -> Collector) (c : Collector) : Collector :=
  if b then f c else c.

(** The body of the [do ... while] loop for one [current]. *)
Definition visitCurrent (current : Reflection) (c : Collector) : Collector :=
  let c := whenInstance (isContainerReflection current)
             (fun c => add (children current) c) c in
  let c := whenInstance (isDeclarationReflection current)
             (fun c =>
                let c := visitOption (type current) c in
                let c := add (typeParameters current) c in
                let c := add (signatures current) c in
                let c := addOption (indexSignature current) c in
                let c := addOption (getSignature current) c in
                let c := addOption (setSignature current) c in
                let c := visitOption (overwrites current) c in
                let c := visitOption (inheritedFrom current) c in
                let c := visitOption (implementationOf current) c in
                let c := visitEach (extendedTypes current) c in
                visitEach (implementedTypes current) c) c in
  let c := whenInstance (isSignatureReflection current)
             (fun c =>
                let c := add (parameters current) c in
                let c := add (typeParameters current) c in
                let c := visitOption (type current) c in
                let c := visitOption (overwrites current) c in
                let c := visitOption (inheritedFrom current) c in
                visitOption (implementationOf current) c) c in
  let c := whenInstance (isParameterReflection current)
             (fun c => visitOption (type current) c) c in
  whenInstance (isTypeParameterReflection current)
    (fun c =>
       let c := visitOption (type current) c in
       visitOption (default current) c) c.

(** [do { ... } while ((current = queue.shift()))].  One unit of fuel per
    reflection taken from the queue; [None] when the fuel runs out. *)
Fixpoint discoverLoop (fuel : nat) (current : Reflection) (c : Collector)
  : option SymbolSet.t :=
  match fuel with
  | O => None
  | S fuel' =>
      let c' := visitCurrent current c in
      match queue c' with
      | [] => Some (missing c')
      | next :: rest => discoverLoop fuel' next (mkCollector rest (missing c'))
      end
  end.

(** [discoverMissingExports(root)].  The fuel is the number of reflections
    under [root], which [discoverLoop_total] shows to be enough. *)
Definition discoverMissingExports (root : Reflection) : SymbolSet.t :=
  match discoverLoop (reflection_size root) root (mkCollector [] SymbolSet.empty) with
  | Some found => found
  | None => SymbolSet.empty
  end.

End Collect.

(** ** TypeDoc's operations on the tree *)

(** The first result of [f] along a list: [Array.prototype.find] through a
    partial function. *)
Fixpoint firstSome {A B : Type} (f : A -> option B) (l : list A) : option B :=
  match l with
  | [] => None
  | a :: l' =>
      match f a with
      | Some b => Some b
      | None => firstSome f l'
      end
  end.

(** The live object behind a JavaScript reference to a module or to the
    internal namespace: the first reflection with id [i] reached from [r]
    through [children]. *)
Fixpoint getReflectionById (i : nat) (r : Reflection) : option Reflection :=
  if id r =? i then Some r
  else firstSome (getReflectionById i) (children r).

(** A mutation [f] of the object with id [i]. *)
Fixpoint updateReflection (i : nat) (f : Reflection -> Reflection) (r : Reflection)
  : Reflection :=
  if id r =? i then f r
  else withChildren r (map (updateReflection i f) (children r)).

(** Modelled from the spec: what creating a reflection under a scope does
    to the tree, [scope.children.push(...items)] when the scope is a
    [ContainerReflection]. *)
Definition addChildren (scope : nat) (items : list Reflection) (r : Reflection)
  : Reflection :=
  updateReflection scope
    (fun s => if isContainerReflection s then withChildren s (children s ++ items) else s)
    r.

(** Modelled from the spec: the removal of a reflection from the tree.  The
    result is the tree without the reflections of id [i] below [r]. *)
Fixpoint removeFromTree (i : nat) (r : Reflection) : Reflection :=
  withChildren r
    (filter (fun c => negb (id c =? i)) (map (removeFromTree i) (children r))).

Definition logCall (c : Call) (st : State) : State :=
  mkState (project st) (symbolToReflectionIdMap st) (nextId st) (program st)
    (knownPrograms st) (calls st ++ [c]).

Definition setProject (r : Reflection) (st : State) : State :=
  mkState r (symbolToReflectionIdMap st) (nextId st) (program st)
    (knownPrograms st) (calls st).

Definition setBindings (m : list (Symbol * nat)) (st : State) : State :=
  mkState (project st) m (nextId st) (program st) (knownPrograms st) (calls st).

Definition setNextId (n : nat) (st : State) : State :=
  mkState (project st) (symbolToReflectionIdMap st) n (program st)
    (knownPrograms st) (calls st).

Definition setProgram (p : option Program) (st : State) : State :=
  mkState (project st) (symbolToReflectionIdMap st) (nextId st) p
    (knownPrograms st) (calls st).

Definition setKnownPrograms (k : list (nat * Program)) (st : State) : State :=
  mkState (project st) (symbolToReflectionIdMap st) (nextId st) (program st)
    k (calls st).

(** [knownPrograms.get(reflection)] *)
Fixpoint knownPrograms_get (k : list (nat * Program)) (i : nat) : option Program :=
  match k with
  | [] => None
  | (j, p) :: k' => if j =? i then Some p else knownPrograms_get k' i
  end.

(** [knownPrograms.set(reflection, program)] *)
Fixpoint knownPrograms_set (k : list (nat * Program)) (i : nat) (p : Program)
  : list (nat * Program) :=
  match k with
  | [] => [(i, p)]
  | (j, q) :: k' => if j =? i then (j, p) :: k' else (j, q) :: knownPrograms_set k' i p
  end.

(** Modelled from the spec: [context.setActiveProgram(program)], the setter
    of the active compiler program. *)
Definition setActiveProgram (p : option Program) (st : State) : State :=
  logCall (SetActiveProgram p) (setProgram p st).

(** How a part of [onResolveBegin] ends: it returns a result, or an
    exception leaves it.  Nothing in the source catches an exception, so it
    leaves the whole listener; [Thrown st] carries the state of the project
    at that moment. *)
Inductive Outcome (A : Type) : Type :=
| Returned (result : A)
| Thrown (st : State).

Arguments Returned {A} result.
Arguments Thrown {A} st.

(** The state an outcome leaves the project in. *)
Definition outcomeState (o : Outcome State) : State :=
  match o with Returned st | Thrown st => st end.

(** The listener [load] installs on [Converter.EVENT_CREATE_DECLARATION].
    During the resolution phase the scope of the context is the project.
    [context.program] is a getter of TypeDoc that throws when no program is
    active; the listener reads it without a guard. *)
Definition onCreateDeclaration (st : State) : Outcome State :=
  if kindOf (project st) (N.lor ReflectionKind.Project ReflectionKind.Module) then
    match program st with
    | Some p =>
        Returned
          (setKnownPrograms (knownPrograms_set (knownPrograms st) (id (project st)) p) st)
    | None => Thrown st
    end
  else Returned st.

(** A new [DeclarationReflection] with nothing but its id, name and kind. *)
Definition newDeclarationReflection (i : nat) (n : string) (k : N) : Reflection :=
  mkReflection DeclarationClass i n k [] None None [] [] [] None None None
    None None None [] [] [] [].

(** Modelled from the spec: [context.withScope(scope)
    .createDeclarationReflection(kind, undefined, undefined, name)], the
    creation of a new declaration reflection under a scope with a kind and a
    name.  The new reflection takes the next id, becomes the last child of
    the scope and is registered without a symbol. *)
Definition createDeclarationReflection (scope : nat) (k : N) (n : string) (st : State)
  : nat * State :=
  let i := nextId st in
  let st :=
    setProject (addChildren scope [newDeclarationReflection i n k] (project st)) st in
  let st := setNextId (S i) st in
  (i, logCall (CreateDeclarationReflection scope k n i) st).

(** Modelled from the spec: [context.finalizeDeclarationReflection
    (reflection)], the finalization of a newly created reflection.  It fires
    the creation event on the context it is called on, and an exception of
    the listener leaves it. *)
Definition finalizeDeclarationReflection (i : nat) (st : State) : Outcome State :=
  onCreateDeclaration (logCall (FinalizeDeclarationReflection i) st).

(** Modelled from the spec: the binding a registration adds to the project.
    [project.registerReflection(reflection, symbol)] binds the symbol to the
    reflection unless the symbol is bound already. *)
Definition bindSymbol (m : list (Symbol * nat)) (s : Symbol) (i : nat)
  : list (Symbol * nat) :=
  match getReflectionFromSymbol m s with
  | Some _ => m
  | None => m ++ [(s, i)]
  end.

(** Modelled from the spec: [context.withScope(scope)
    .registerReflection(ref, m)], the registration of a symbol-to-reflection
    binding under a scope. *)
Definition registerReflection (scope : nat) (ref : Reflection) (m : Symbol) (st : State)
  : State :=
  logCall (RegisterReflection scope (id ref) m)
    (setBindings (bindSymbol (symbolToReflectionIdMap st) m (id ref)) st).

(** Modelled from the spec: [context.project.removeReflection(reflection)],
    the removal of a reflection from the tree.  The reflection leaves its
    parent and the bindings to it are dropped.  The driver removes only a
    reflection without children. *)
Definition removeReflection (i : nat) (st : State) : State :=
  let st := setProject (removeFromTree i (project st)) st in
  let st := setBindings
              (filter (fun b => negb (snd b =? i)) (symbolToReflectionIdMap st)) st in
  logCall (RemoveReflection i) st.

(** ** The resolution driver, [onResolveBegin] *)

(** What the loop over one module keeps between rounds: the state, the
    memo of [createInternalContext] (the id of the internal namespace once
    it exists) and the set [tried]. *)
Record Resolution : Type := mkResolution {
  state : State;
  internalContext : option nat;
  tried : SymbolSet.t
}.

Definition setState (st : State) (rs : Resolution) : Resolution :=
  mkResolution st (internalContext rs) (tried rs).

Section Driver.

(** [context.scope.findReflectionByName(name)], TypeDoc's lookup of a
    reflection by name in the project, over the current tree. *)
Variable findReflectionByName : Reflection -> string -> option Reflection.

(** The compiler front end behind [converter.convertSymbol]: the
    declarations a symbol converts to, numbered from the given id. *)
Variable symbolDeclarations : Symbol -> nat -> list Reflection.

(** The options [internalNamespace] and [noMissingExports]. *)
Variable internalNamespace : string.
Variable noMissingExports : bool.

(** Modelled from the spec: [internalContext.converter.convertSymbol
    (internalContext, m)], the conversion of a symbol into reflections by
    the external compiler.  The declarations of the symbol become children
    of the scope, the symbol is bound to the first of them, and their ids
    are used up. *)
Definition convertSymbol (scope : nat) (m : Symbol) (st : State) : State :=
  let decls := symbolDeclarations m (nextId st) in
  let st := setProject (addChildren scope decls (project st)) st in
  let st := match decls with
            | d :: _ =>
                setBindings (bindSymbol (symbolToReflectionIdMap st) m (id d)) st
            | [] => st
            end in
  let st := setNextId (nextId st + list_sum (map reflection_size decls)) st in
  logCall (ConvertSymbol scope m) st.

(** [discoverMissingExports(reflection)] on the live object of id [i]. *)
Definition discoverMissingExportsOf (st : State) (i : nat) : SymbolSet.t :=
  match getReflectionById i (project st) with
  | Some r => discoverMissingExports (symbolToReflectionIdMap st) r
  | None => SymbolSet.empty
  end.

(** [reflection.children] of the live object of id [i]. *)
Definition childrenOf (st : State) (i : nat) : list Reflection :=
  match getReflectionById i (project st) with
  | Some r => children r
  | None => []
  end.

Section PerModule.

(** The array [modules], as ids, and the module being processed,
    [mod] in the source. *)
Variable modules : list nat.
Variable currentModule : nat.

(** [getModule(ref)]: the first module with a direct child of the kind
    and the id of [ref]. *)
Definition getModule (st : State) (ref : Reflection) : option nat :=
  find (fun m =>
          match getReflectionById m (project st) with
          | Some r =>
              existsb (fun d => id d =? id ref) (getChildrenByKind r (kind ref))
          | None => false
          end) modules.

(** [createInternalContext()], memoised in [internalContext].  The
    memo is written by the [return] statement, after the call of
    [finalizeDeclarationReflection]. *)
Definition createInternalContext (rs : Resolution) : Outcome (nat * Resolution) :=
  match internalContext rs with
  | Some ns => Returned (ns, rs)
  | None =>
      let st :=
        setActiveProgram
          (knownPrograms_get (knownPrograms (state rs)) currentModule) (state rs) in
      let (internalNs, st) :=
        createDeclarationReflection currentModule ReflectionKind.Namespace
          internalNamespace st in
      match finalizeDeclarationReflection internalNs st with
      | Returned st =>
          Returned (internalNs, mkResolution st (Some internalNs) (tried rs))
      | Thrown st => Thrown st
      end
  end.

(** The body of [for (const m of missing)]. *)
Definition resolveSymbol (rs : Resolution) (m : Symbol) : Outcome Resolution :=
  let rs :=
    mkResolution (state rs) (internalContext rs) (SymbolSet.add m (tried rs)) in
  if String.eqb (symbol_name m) "default"%string then Returned rs
  else
    match findReflectionByName (project (state rs)) (symbol_name m) with
    | Some ref =>
        match getModule (state rs) ref with
        | Some modCtx =>
            Returned (setState (registerReflection modCtx ref m (state rs)) rs)
        | None => Returned rs
        end
    | None =>
        if noMissingExports then Returned rs
        else
          match createInternalContext rs with
          | Returned (ns, rs) =>
              Returned (setState (convertSymbol ns m (state rs)) rs)
          | Thrown st => Thrown st
          end
    end.

(** [for (const m of missing) { ... }]: the body runs on the symbols
    in the order of the set, until an exception leaves it. *)
Fixpoint resolveSymbols (missing : list Symbol) (rs : Resolution)
  : Outcome Resolution :=
  match missing with
  | [] => Returned rs
  | m :: rest =>
      match resolveSymbol rs m with
      | Returned rs' => resolveSymbols rest rs'
      | Thrown st => Thrown st
      end
  end.

(** [for (const s of tried) missing.delete(s)] *)
Definition deleteTried (triedSet missing : SymbolSet.t) : SymbolSet.t :=
  fold_left (fun ms s => SymbolSet.delete s ms) triedSet missing.

(** The body of the [do ... while] loop, one round: the symbols of
    [missing] are processed, and the round gives the candidates of the
    next one, the symbols discovered less those tried. *)
Definition resolveRound (rs : Resolution) (missing : SymbolSet.t)
  : Outcome (Resolution * SymbolSet.t) :=
  match resolveSymbols missing rs with
  | Thrown st => Thrown st
  | Returned rs =>
      if noMissingExports then Returned (rs, deleteTried (tried rs) missing)
      else
        match createInternalContext rs with
        | Returned (ns, rs) =>
            Returned
              (rs, deleteTried (tried rs) (discoverMissingExportsOf (state rs) ns))
        | Thrown st => Thrown st
        end
  end.

(** The [do ... while (missing.size > 0)] loop; one unit of fuel per
    round, [None] when the fuel runs out. *)
Fixpoint resolveLoop (fuel : nat) (rs : Resolution) (missing : SymbolSet.t)
  : option (Outcome Resolution) :=
  match fuel with
  | O => None
  | S fuel' =>
      match resolveRound rs missing with
      | Returned (rs, missing) =>
          if 0 <? SymbolSet.size missing then resolveLoop fuel' rs missing
          else Some (Returned rs)
      | Thrown st => Some (Thrown st)
      end
  end.

(** The body of [for (const mod of modules)]. *)
Definition resolveModule (fuel : nat) (st : State) : option (Outcome State) :=
  let missing := discoverMissingExportsOf st currentModule in
  if SymbolSet.size missing =? 0 then Some (Returned st)
  else
    match resolveLoop fuel (mkResolution st None SymbolSet.empty) missing with
    | None => None
    | Some (Thrown st) => Some (Thrown st)
    | Some (Returned rs) =>
        match createInternalContext rs with
        | Returned (ns, rs) =>
            let st := state rs in
            let st := match childrenOf st ns with
                      | [] => removeReflection ns st
                      | _ :: _ => st
                      end in
            Some (Returned (setActiveProgram None st))
        | Thrown st => Some (Thrown st)
        end
    end.

End PerModule.

(** [for (const mod of modules) { ... }] *)
Fixpoint resolveModules (fuel : nat) (modules todo : list nat) (st : State)
  : option (Outcome State) :=
  match todo with
  | [] => Some (Returned st)
  | m :: todo' =>
      match resolveModule modules m fuel st with
      | Some (Returned st') => resolveModules fuel modules todo' st'
      | Some (Thrown st') => Some (Thrown st')
      | None => None
      end
  end.

(** The array [modules] of [onResolveBegin]: the children of the project
    of kind [Module], or the project itself when there is none. *)
Definition projectModules (st : State) : list nat :=
  let modules := map id (getChildrenByKind (project st) ReflectionKind.Module) in
  if List.length modules =? 0 then modules ++ [id (project st)] else modules.

(** [onResolveBegin(knownPrograms, context)] *)
Definition onResolveBegin (fuel : nat) (st : State) : option (Outcome State) :=
  let modules := projectModules st in
  match resolveModules fuel modules modules st with
  | Some (Returned st') => Some (Returned (setKnownPrograms [] st'))
  | Some (Thrown st') => Some (Thrown st')
  | None => None
  end.

End Driver.
(** ** A lookup by name and small projects to run the driver on *)

(** Modelled from the spec: the lookup of a reflection by exact name match
    within the ambient scope, to run the driver with: the first child of the
    scope with the name.  The scope of the driver's lookups is the project,
    which has no scope above it. *)
Definition findChildByName (r : Reflection) (n : string) : option Reflection :=
  find (fun c => String.eqb (name c) n) (children r).

Module Examples.

Definition container (c : ReflectionClass) (i : nat) (n : string) (k : N)
  (cs : list Reflection) : Reflection :=
  mkReflection c i n k cs None None [] [] [] None None None None None None [] [] [] [].

(** A declaration with a type and no children. *)
Definition typed (i : nat) (n : string) (k : N) (t : SomeType) : Reflection :=
  mkReflection DeclarationClass i n k [] (Some t) None [] [] [] None None None
    None None None [] [] [] [].

Definition symT : Symbol := mkSymbol 100 "T".
Definition symU : Symbol := mkSymbol 101 "U".
Definition symV : Symbol := mkSymbol 102 "V".
Definition symDefault : Symbol := mkSymbol 103 "default".
Definition symN : Symbol := mkSymbol 104 "N".

Definition unresolved (s : Symbol) : SomeType := ReferenceType (TargetSymbol s) [].

Definition start (r : Reflection) (next : nat) (k : list (nat * Program)) : State :=
  mkState r [] next None k [].

(** Module [A] exports [f], whose type names [T]; [T] is a declaration of
    module [B] that no binding leads to. *)
Definition moduleA : Reflection :=
  container DeclarationClass 1 "A" ReflectionKind.Module
    [typed 3 "f" ReflectionKind.Function (unresolved symT)].
Definition moduleB : Reflection :=
  container DeclarationClass 2 "B" ReflectionKind.Module
    [container DeclarationClass 4 "T" ReflectionKind.TypeAlias []].
Definition projectAB : Reflection :=
  container ProjectClass 0 "docs" ReflectionKind.Project [moduleA; moduleB].
Definition stateAB : State := start projectAB 5 [(1, 7); (2, 8)].

(** A compiler front end: [U] is a type alias of [V], every other symbol
    a type alias of a primitive type. *)
Definition declarations (s : Symbol) (i : nat) : list Reflection :=
  if Symbol_eq_dec s symU then
    [typed i (symbol_name s) ReflectionKind.TypeAlias (unresolved symV)]
  else [typed i (symbol_name s) ReflectionKind.TypeAlias (AtomicType "string")].

(** Module [M] exports [g], whose type names the undocumented [U]. *)
Definition moduleM (t : SomeType) : Reflection :=
  container DeclarationClass 1 "M" ReflectionKind.Module
    [typed 2 "g" ReflectionKind.Function t].
Definition projectM (t : SomeType) : Reflection :=
  container ProjectClass 0 "docs" ReflectionKind.Project [moduleM t].
Definition stateM (t : SomeType) : State := start (projectM t) 3 [(1, 7)].

(** The same project when the conversion recorded no program for
    module [M]. *)
Definition stateM0 (t : SomeType) : State := start (projectM t) 3 [].

(** Module [N] exports [h], whose type names a symbol called [N]; the
    only reflection of that name the project has as a child is the module
    itself, which is no child of a module. *)
Definition moduleN : Reflection :=
  container DeclarationClass 1 "N" ReflectionKind.Module
    [typed 2 "h" ReflectionKind.Function (unresolved symN)].
Definition projectN : Reflection :=
  container ProjectClass 0 "docs" ReflectionKind.Project [moduleN].
Definition stateN : State := start projectN 3 [(1, 7)].

(** A project of one package, without modules: it declares the type
    alias [T] and the function [f], whose type names [T] through a symbol
    that no binding leads to. *)
Definition aliasT : Reflection :=
  container DeclarationClass 1 "T" ReflectionKind.TypeAlias [].
Definition projectS : Reflection :=
  container ProjectClass 0 "docs" ReflectionKind.Project
    [aliasT; typed 2 "f" ReflectionKind.Function (unresolved symT)].
Definition stateS : State := start projectS 3 [(0, 7)].

(** A declaration whose type is a union of a broken reference and a
    reference to the undocumented [T]. *)
Definition brokenAndT : Reflection :=
  typed 1 "x" ReflectionKind.TypeAlias
    (CompositeType [ReferenceType TargetBroken []; unresolved symT]).

End Examples.

(** ** What the collector is meant to find *)

Definition optionToList {A : Type} (o : option A) : list A :=
  match o with Some a => [a] | None => [] end.

(** The fields of a reflection whose types are visited, after the list of
    the specification: the primary type, the override, inherited and
    implementation-of markers, the extended and implemented types of a
    declaration; the type and the markers of a signature; the type of a
    parameter; the constraint and the default of a type parameter.  The
    extended-by and implemented-by back references are not in it. *)
Definition visitedTypes (r : Reflection) : list SomeType :=
  match cls r with
  | ProjectClass => []
  | DeclarationClass =>
      optionToList (type r) ++ optionToList (overwrites r)
      ++ optionToList (inheritedFrom r) ++ optionToList (implementationOf r)
      ++ extendedTypes r ++ implementedTypes r
  | SignatureClass =>
      optionToList (type r) ++ optionToList (overwrites r)
      ++ optionToList (inheritedFrom r) ++ optionToList (implementationOf r)
  | ParameterClass => optionToList (type r)
  | TypeParameterClass => optionToList (type r) ++ optionToList (default r)
  end.

(** The fields of a reflection whose reflections are traversed, after the
    list of the specification: the children of a container; the type
    parameters, the signatures and the index, get and set signatures of a
    declaration; the parameters and type parameters of a signature. *)
Definition fieldReflections (r : Reflection) : list Reflection :=
  match cls r with
  | ProjectClass => children r
  | DeclarationClass =>
      children r ++ typeParameters r ++ signatures r
      ++ optionToList (indexSignature r) ++ optionToList (getSignature r)
      ++ optionToList (setSignature r)
  | SignatureClass => parameters r ++ typeParameters r
  | ParameterClass | TypeParameterClass => []
  end.

(** [TypeContains t u]: the recursive visitor, started on [t], calls back
    on [u].  It walks type arguments and the parts of composite types, and
    stops at an inline reflection. *)
Inductive TypeContains : SomeType -> SomeType -> Prop :=
| contains_self (t : SomeType) : TypeContains t t
| contains_argument (target : ReferenceTarget) (typeArguments : list SomeType)
    (a u : SomeType) :
    In a typeArguments -> TypeContains a u ->
    TypeContains (ReferenceType target typeArguments) u
| contains_part (types : list SomeType) (a u : SomeType) :
    In a types -> TypeContains a u -> TypeContains (CompositeType types) u.

(** [Traversed root r]: [r] is reached from [root] through the traversed
    fields and the declarations of inline reflection types. *)
Inductive Traversed (root : Reflection) : Reflection -> Prop :=
| traversed_root : Traversed root root
| traversed_field (r x : Reflection) :
    Traversed root r -> In x (fieldReflections r) -> Traversed root x
| traversed_inline (r x : Reflection) (t : SomeType) :
    Traversed root r -> In t (visitedTypes r) -> TypeContains t (ReflectionType x) ->
    Traversed root x.

(** A reference type in a visited field of [r] that has no reflection and
    carries the symbol [s]. *)
Definition UnresolvedIn (bindings : list (Symbol * nat)) (r : Reflection) (s : Symbol)
  : Prop :=
  exists t target typeArguments,
    In t (visitedTypes r)
    /\ TypeContains t (ReferenceType target typeArguments)
    /\ reflection bindings target = None
    /\ getSymbol target = Some s.

(** [s] is carried by an unresolved symbol reference reachable from [root]. *)
Definition MissingReference (bindings : list (Symbol * nat)) (root : Reflection)
  (s : Symbol) : Prop :=
  exists r, Traversed root r /\ UnresolvedIn bindings r s.

(** Every symbol reference reachable from the modules of the project has
    a reflection. *)
Definition FullyResolved (st : State) (modules : list nat) : Prop :=
  forall m r s,
    In m modules -> getReflectionById m (project st) = Some r ->
    ~ MissingReference (symbolToReflectionIdMap st) r s.

(** The symbols that occur in a reflection and in a type. *)
Definition target_symbols (target : ReferenceTarget) : list Symbol :=
  match target with TargetSymbol s => [s] | _ => [] end.

Definition concatOption {A B : Type} (f : A -> list B) (o : option A) : list B :=
  match o with Some a => f a | None => [] end.

Fixpoint reflection_symbols (r : Reflection) : list Symbol :=
  flat_map reflection_symbols (children r)
  ++ concatOption type_symbols (type r)
  ++ concatOption type_symbols (default r)
  ++ flat_map reflection_symbols (typeParameters r)
  ++ flat_map reflection_symbols (signatures r)
  ++ flat_map reflection_symbols (parameters r)
  ++ concatOption reflection_symbols (indexSignature r)
  ++ concatOption reflection_symbols (getSignature r)
  ++ concatOption reflection_symbols (setSignature r)
  ++ concatOption type_symbols (overwrites r)
  ++ concatOption type_symbols (inheritedFrom r)
  ++ concatOption type_symbols (implementationOf r)
  ++ flat_map type_symbols (extendedTypes r)
  ++ flat_map type_symbols (implementedTypes r)
with type_symbols (t : SomeType) : list Symbol :=
  match t with
  | ReferenceType target typeArguments =>
      target_symbols target ++ flat_map type_symbols typeArguments
  | ReflectionType declaration => reflection_symbols declaration
  | CompositeType types => flat_map type_symbols types
  | AtomicType _ => []
  end.

(** Every id reached from [r] through [children] is below [n]: ids come
    from TypeDoc's counter, so they are below its next value. *)
Fixpoint idsBelow (n : nat) (r : Reflection) : bool :=
  (id r <? n) && forallb (idsBelow n) (children r).

(** Number of calls in a log that create a reflection. *)
Definition isCreate (c : Call) : bool :=
  match c with CreateDeclarationReflection _ _ _ _ => true | _ => false end.

Definition creations (l : list Call) : nat := List.length (filter isCreate l).

(** ** Two readings of the driver that the code does not follow *)

(** The internal namespace of a module is created only when a symbol is
    converted into it. *)
Definition NamespaceCreatedOnlyOnNeed : Prop :=
  forall findReflectionByName symbolDeclarations internalNamespace noMissingExports
         modules currentModule fuel st st',
    resolveModule findReflectionByName symbolDeclarations internalNamespace
      noMissingExports modules currentModule fuel st = Some (Returned st') ->
    forall scope k n i,
      In (CreateDeclarationReflection scope k n i) (calls st') ->
      In (CreateDeclarationReflection scope k n i) (calls st)
      \/ exists m, In (ConvertSymbol i m) (calls st').

(** Number of distinct symbols of a list. *)
Definition distinct (universe : list Symbol) : nat :=
  List.length (nodup Symbol_eq_dec universe).

(** The loop over a module with missing symbols ends within as many rounds
    as there are distinct symbols in the tree it starts on. *)
Definition RoundsBoundedByTreeSymbols : Prop :=
  forall findReflectionByName symbolDeclarations internalNamespace noMissingExports
         modules currentModule st,
    discoverMissingExportsOf st currentModule <> [] ->
    exists out,
      resolveLoop findReflectionByName symbolDeclarations internalNamespace
        noMissingExports modules currentModule
        (distinct (reflection_symbols (project st)))
        (mkResolution st None SymbolSet.empty)
        (discoverMissingExportsOf st currentModule) = Some out.

(** ** The rounds of the loop, unique ids, recorded programs *)

Section Rounds.

Variable findReflectionByName : Reflection -> string -> option Reflection.
Variable symbolDeclarations : Symbol -> nat -> list Reflection.
Variable internalNamespace : string.
Variable noMissingExports : bool.
Variable modules : list nat.
Variable currentModule : nat.

(** [RoundReached rs0 missing0 k rs missing]: the loop that starts with
    [rs0] and the candidates [missing0] begins its round number [k] with
    [rs] and the candidates [missing]; a further round is begun when the
    round before returns a set of candidates that is not empty. *)
Inductive RoundReached (rs0 : Resolution) (missing0 : SymbolSet.t)
  : nat -> Resolution -> SymbolSet.t -> Prop :=
| reached_first : RoundReached rs0 missing0 1 rs0 missing0
| reached_next (k : nat) (rs rs' : Resolution) (missing missing' : SymbolSet.t) :
    RoundReached rs0 missing0 k rs missing ->
    resolveRound findReflectionByName symbolDeclarations internalNamespace
      noMissingExports modules currentModule rs missing = Returned (rs', missing') ->
    0 < SymbolSet.size missing' ->
    RoundReached rs0 missing0 (S k) rs' missing'.

End Rounds.

(** The ids of the reflections reached from [r] through [children], in
    document order; TypeDoc gives every reflection an id of its own. *)
Fixpoint treeIds (r : Reflection) : list nat :=
  id r :: flat_map treeIds (children r).

Definition UniqueIds (r : Reflection) : Prop := NoDup (treeIds r).

(** The conversion recorded a program for each of the modules. *)
Definition ProgramsRecorded (st : State) (modules : list nat) : Prop :=
  forall i, In i modules -> knownPrograms_get (knownPrograms st) i <> None.

(** Every program recorded in [st] is recorded in [st']. *)
Definition ProgramsKept (st st' : State) : Prop :=
  forall j,
    knownPrograms_get (knownPrograms st) j <> None ->
    knownPrograms_get (knownPrograms st') j <> None.

(** What holds at the end of a part of the driver: [P] of the result when
    it returns, [Q] of the state when an exception leaves it. *)
Definition Ends {A : Type} (P : A -> Prop) (Q : State -> Prop) (o : Outcome A) : Prop :=
  match o with
  | Returned a => P a
  | Thrown st => Q st
  end.

(** The state a call of [createInternalContext] leaves the project in. *)
Definition createdState (o : Outcome (nat * Resolution)) : State :=
  match o with
  | Returned (_, rs) => state rs
  | Thrown st => st
  end.

(** The state a part of the driver that works on a resolution ends in. *)
Definition endState (o : Outcome Resolution) : State :=
  match o with
  | Returned rs => state rs
  | Thrown st => st
  end.

(** ** Notions the proofs use *)

(** Total size of a work list. *)
Definition queueSize (q : list Reflection) : nat := list_sum (map reflection_size q).

(** [Adds Q S n f]: the step [f] of the collector pushes the reflections
    satisfying [Q], of total size [n], and adds the symbols satisfying [S]. *)
Definition Adds (Q : Reflection -> Prop) (S : Symbol -> Prop) (n : nat)
  (f : Collector -> Collector) : Prop :=
  forall c,
    (forall x, In x (queue (f c)) <-> In x (queue c) \/ Q x)
    /\ queueSize (queue (f c)) = queueSize (queue c) + n
    /\ (forall s, In s (missing (f c)) <-> In s (missing c) \/ S s)
    /\ (NoDup (missing c) -> NoDup (missing (f c))).

(** The symbol a reference type adds when it is visited itself. *)
Definition AddedBy (bindings : list (Symbol * nat)) (target : ReferenceTarget)
  (s : Symbol) : Prop :=
  reflection bindings target = None /\ getSymbol target = Some s.

(** What visiting a type pushes and adds. *)
Definition QueuedBy (t : SomeType) (x : Reflection) : Prop :=
  TypeContains t (ReflectionType x).

Definition FoundIn (bindings : list (Symbol * nat)) (t : SomeType) (s : Symbol) : Prop :=
  exists target typeArguments,
    TypeContains t (ReferenceType target typeArguments) /\ AddedBy bindings target s.

(** The reflections one round of the collector's loop pushes for [r]. *)
Definition Enqueued (r x : Reflection) : Prop :=
  In x (fieldReflections r) \/ exists t, In t (visitedTypes r) /\ QueuedBy t x.

(** The symbols of the tree lie in a universe. *)
Definition SymbolsWithin (universe : list Symbol) (st : State) : Prop :=
  incl (reflection_symbols (project st)) universe.

(** 1 once [createInternalContext] has run, 0 before. *)
Definition memo (rs : Resolution) : nat :=
  match internalContext rs with Some _ => 1 | None => 0 end.

(** A call that neither registers nor converts a symbol named [default]. *)
Definition NotForDefault (c : Call) : Prop :=
  match c with
  | RegisterReflection _ _ m | ConvertSymbol _ m => symbol_name m <> "default"%string
  | _ => True
  end.

(** Every creation in the log is an old one or that of the memoised
    namespace of the module, whose id was given out after the start; the id
    of the project does not change. *)
Definition NamespaceTracked (internalNamespace : string) (currentModule : nat)
  (st0 : State) (rs : Resolution) : Prop :=
  (forall scope k n i,
      In (CreateDeclarationReflection scope k n i) (calls (state rs)) ->
      In (CreateDeclarationReflection scope k n i) (calls st0)
      \/ (internalContext rs = Some i /\ scope = currentModule
          /\ k = ReflectionKind.Namespace /\ n = internalNamespace))
  /\ id (project (state rs)) = id (project st0)
  /\ (forall i, internalContext rs = Some i -> nextId st0 <= i < nextId (state rs))
  /\ nextId st0 <= nextId (state rs).

(** Between two states no call was made for a symbol named [default] and
    no such symbol got a binding. *)
Definition DefaultUntouched (st0 st : State) : Prop :=
  (forall c, In c (calls st) -> In c (calls st0) \/ NotForDefault c)
  /\ (forall m,
        symbol_name m = "default"%string ->
        getReflectionFromSymbol (symbolToReflectionIdMap st0) m = None ->
        getReflectionFromSymbol (symbolToReflectionIdMap st) m = None).

(** Between two states the tree is the same, no symbol was converted, and
    no symbol whose name finds nothing got a binding. *)
Definition TreeUnchanged (findReflectionByName : Reflection -> string -> option Reflection)
  (st0 st : State) : Prop :=
  project st = project st0
  /\ nextId st0 <= nextId st
  /\ (forall scope m,
        In (ConvertSymbol scope m) (calls st) -> In (ConvertSymbol scope m) (calls st0))
  /\ (forall m,
        findReflectionByName (project st0) (symbol_name m) = None ->
        getReflectionFromSymbol (symbolToReflectionIdMap st0) m = None ->
        getReflectionFromSymbol (symbolToReflectionIdMap st) m = None).

(** Between two states no symbol was converted and no symbol whose name
    finds nothing got a binding. *)
Definition Unsynthesized (findReflectionByName : Reflection -> string -> option Reflection)
  (st0 st : State) : Prop :=
  (forall scope m,
      In (ConvertSymbol scope m) (calls st) -> In (ConvertSymbol scope m) (calls st0))
  /\ (forall m,
        findReflectionByName (project st0) (symbol_name m) = None ->
        getReflectionFromSymbol (symbolToReflectionIdMap st0) m = None ->
        getReflectionFromSymbol (symbolToReflectionIdMap st) m = None).

(** Between two states the project kept its id, every recorded program
    stayed recorded and only the program of the project can have changed. *)
Definition SamePrograms (st0 st : State) : Prop :=
  id (project st) = id (project st0)
  /\ ProgramsKept st0 st
  /\ forall j,
      j <> id (project st0) ->
      knownPrograms_get (knownPrograms st) j = knownPrograms_get (knownPrograms st0) j.

(** Every id reached from [r] through [children] is at least [n]. *)
Fixpoint idsFrom (n : nat) (r : Reflection) : bool :=
  (n <=? id r) && forallb (idsFrom n) (children r).

(** The compiler numbers the declarations of a symbol from the id it is
    given and uses no id beyond those it is counted for. *)
Definition NumbersFromCounter (symbolDeclarations : Symbol -> nat -> list Reflection)
  : Prop :=
  forall m n r,
    In r (symbolDeclarations m n) ->
    idsFrom n r = true
    /\ idsBelow (n + list_sum (map reflection_size (symbolDeclarations m n))) r = true.

(** The reflection of id [i] is not an empty container of the tree: it is
    not found, or it has a child. *)
Definition NotEmptyIn (tree : Reflection) (i : nat) : Prop :=
  match getReflectionById i tree with
  | Some r => children r <> []
  | None => True
  end.

(** The tree while one module is processed: as at the start until the
    internal namespace is created with the next id; from then on either the
    start tree with just the namespace added, or a tree in which the
    namespace has a child. *)
Definition NamespaceGrows (internalNamespace : string) (currentModule : nat)
  (st0 : State) (rs : Resolution) : Prop :=
  match internalContext rs with
  | None => project (state rs) = project st0 /\ nextId (state rs) = nextId st0
  | Some j =>
      j = nextId st0
      /\ j < nextId (state rs)
      /\ (project (state rs)
          = addChildren currentModule
              [newDeclarationReflection j internalNamespace ReflectionKind.Namespace]
              (project st0)
          \/ childrenOf (state rs) j <> [])
  end.

(** What holds of the state while one module is processed, for the
    namespaces created before and for the ids. *)
Definition ModuleInvariant (internalNamespace : string) (currentModule : nat)
  (st0 : State) (rs : Resolution) : Prop :=
  NamespaceGrows internalNamespace currentModule st0 rs
  /\ idsBelow (nextId (state rs)) (project (state rs)) = true
  /\ nextId st0 <= nextId (state rs)
  /\ (forall i, i < nextId st0 ->
                NotEmptyIn (project st0) i -> NotEmptyIn (project (state rs)) i).

(** What one module, and a run of modules, guarantees: the ids stay below
    the counter, the counter does not go back, the namespaces created before
    stay non-empty, and each creation added to the log is that of a namespace
    named as configured under one of the modules, which is not left empty in
    the tree. *)
Definition ModulesDone (internalNamespace : string) (modules : list nat)
  (st st' : State) : Prop :=
  idsBelow (nextId st') (project st') = true
  /\ nextId st <= nextId st'
  /\ (forall i, i < nextId st ->
                NotEmptyIn (project st) i -> NotEmptyIn (project st') i)
  /\ (forall scope k n i,
         In (CreateDeclarationReflection scope k n i) (calls st') ->
         In (CreateDeclarationReflection scope k n i) (calls st)
         \/ (In scope modules /\ k = ReflectionKind.Namespace /\ n = internalNamespace
             /\ i < nextId st' /\ NotEmptyIn (project st') i)).

(** ** Induction on types and on the tree *)

Section TypeInduction.

Variable P : SomeType -> Prop.
Hypothesis Href : forall target typeArguments,
    Forall P typeArguments -> P (ReferenceType target typeArguments).
Hypothesis Hrefl : forall declaration, P (ReflectionType declaration).
Hypothesis Hcomp : forall types, Forall P types -> P (CompositeType types).
Hypothesis Hatom : forall n, P (AtomicType n).

(** Induction on the shape of a type, as the recursive visitor walks it. *)
Fixpoint SomeType_visit_ind (t : SomeType) : P t :=
  let all :=
    fix all (ts : list SomeType) : Forall P ts :=
      match ts with
      | [] => Forall_nil P
      | a :: ts' => Forall_cons a (SomeType_visit_ind a) (all ts')
      end in
  match t with
  | ReferenceType target typeArguments => Href target (all typeArguments)
  | ReflectionType declaration => Hrefl declaration
  | CompositeType types => Hcomp (all types)
  | AtomicType n => Hatom n
  end.

End TypeInduction.

Section TreeInduction.

Variable P : Reflection -> Prop.
Hypothesis H : forall r, Forall P (children r) -> P r.

(** Induction on the tree along [children]. *)
Fixpoint Reflection_children_ind (r : Reflection) : P r :=
  H r ((fix all (cs : list Reflection) : Forall P cs :=
          match cs with
          | [] => Forall_nil P
          | c :: cs' => Forall_cons c (Reflection_children_ind c) (all cs')
          end) (children r)).

End TreeInduction.

(** ** Notions of the further properties *)

(** [s] is named by a symbol reference reachable from [root], whether the
    table has a binding for it or not. *)
Definition Referenced (root : Reflection) (s : Symbol) : Prop :=
  exists r t typeArguments,
    Traversed root r
    /\ In t (visitedTypes r)
    /\ TypeContains t (ReferenceType (TargetSymbol s) typeArguments).

(** The same reflection with other [extendedBy] and [implementedBy]
    arrays. *)
Definition withBackReferences (r : Reflection) (eb ib : list SomeType) : Reflection :=
  let '(mkReflection c i n k cs t d tp sg pa ix gs ss ow ih im et _ it _) := r in
  mkReflection c i n k cs t d tp sg pa ix gs ss ow ih im et eb it ib.

(** The listener [load] installs on [Converter.EVENT_CREATE_DECLARATION],
    for a context of any scope and program: what it does to
    [knownPrograms]. *)
Definition recordProgram (scope : Reflection) (p : Program) (k : list (nat * Program))
  : list (nat * Program) :=
  if kindOf scope (N.lor ReflectionKind.Project ReflectionKind.Module) then
    knownPrograms_set k (id scope) p
  else k.

(** The symbols a log of calls registers or converts, in the order of the
    calls. *)
Definition handledSymbol (c : Call) : list Symbol :=
  match c with
  | RegisterReflection _ _ m | ConvertSymbol _ m => [m]
  | _ => []
  end.

Definition handledSymbols (l : list Call) : list Symbol := flat_map handledSymbol l.

(** Number of calls in a log that convert a symbol. *)
Definition isConvert (c : Call) : bool :=
  match c with ConvertSymbol _ _ => true | _ => false end.

Definition conversions (l : list Call) : nat := List.length (filter isConvert l).

(** What the calls added to the log while one module is processed look
    like: each symbol is registered or converted at most once and only after
    it entered the set [seen], a symbol is converted only into the memoised
    namespace, the memoised namespace was created under the module by one of
    the added calls, and a binding is registered only under one of the
    modules. *)
Definition ModuleTrace (internalNamespace : string) (modules : list nat)
  (currentModule : nat) (st0 : State) (seen : SymbolSet.t) (st : State)
  (namespace : option nat) : Prop :=
  exists new,
    calls st = calls st0 ++ new
    /\ NoDup (handledSymbols new)
    /\ incl (handledSymbols new) seen
    /\ (forall scope m, In (ConvertSymbol scope m) new -> namespace = Some scope)
    /\ (forall j,
          namespace = Some j ->
          In (CreateDeclarationReflection currentModule ReflectionKind.Namespace
                internalNamespace j) new)
    /\ (forall scope r m, In (RegisterReflection scope r m) new -> In scope modules).

(** [m] can be aliased in the tree of [st]: it is not named [default], its
    name finds a reflection, and one of the modules owns that reflection. *)
Definition aliasable (findReflectionByName : Reflection -> string -> option Reflection)
  (modules : list nat) (st : State) (m : Symbol) : bool :=
  negb (String.eqb (symbol_name m) "default")
  && match findReflectionByName (project st) (symbol_name m) with
     | Some ref =>
         match getModule modules st ref with Some _ => true | None => false end
     | None => false
     end.

(** Every binding of a table leads to an id below [n]. *)
Definition bindingsBelow (n : nat) (b : list (Symbol * nat)) : bool :=
  forallb (fun p => snd p <? n) b.

(** The tree while one module is processed and no symbol has been
    converted since [st0]: it is the tree of [st0], with the memoised
    namespace added under the module once it exists.  The number of
    conversions and the counter do not go back. *)
Definition UnconvertedTree (internalNamespace : string) (currentModule : nat)
  (st0 : State) (rs : Resolution) : Prop :=
  conversions (calls st0) <= conversions (calls (state rs))
  /\ nextId st0 <= nextId (state rs)
  /\ (conversions (calls (state rs)) = conversions (calls st0) ->
      match internalContext rs with
      | None => project (state rs) = project st0 /\ nextId (state rs) = nextId st0
      | Some j =>
          j = nextId st0
          /\ project (state rs)
             = addChildren currentModule
                 [newDeclarationReflection j internalNamespace ReflectionKind.Namespace]
                 (project st0)
      end).

(** The tree and the table are numbered below the counter. *)
Definition Numbered (st : State) : Prop :=
  idsBelow (nextId st) (project st) = true
  /\ bindingsBelow (nextId st) (symbolToReflectionIdMap st) = true.

(** Every symbol bound in [st] is bound in [st']. *)
Definition BindingsKept (st st' : State) : Prop :=
  forall s,
    getReflectionFromSymbol (symbolToReflectionIdMap st) s <> None ->
    getReflectionFromSymbol (symbolToReflectionIdMap st') s <> None.

(** From [st] to [st'] the tree is the same, the counter did not go back,
    no binding was lost and no symbol was converted. *)
Definition OnlyBindings (st st' : State) : Prop :=
  project st' = project st
  /\ nextId st <= nextId st'
  /\ BindingsKept st st'
  /\ conversions (calls st') = conversions (calls st).

(** * Proofs *)

(** ** Sets of symbols *)

Module SymbolSetFacts.
Import SymbolSet.

Lemma add_In (s x : Symbol) (l : t) : In x (add s l) <-> In x l \/ x = s.
Proof.
  unfold add. destruct (in_dec Symbol_eq_dec s l) as [Hin | Hout].
  - split; [tauto | intros [H | ->]; assumption].
  - rewrite in_app_iff. simpl. intuition congruence.
Qed.

Lemma add_NoDup (s : Symbol) (l : t) : NoDup l -> NoDup (add s l).
Proof.
  intros Hl. unfold add. destruct (in_dec Symbol_eq_dec s l) as [Hin | Hout].
  - assumption.
  - apply NoDup_app; [assumption | repeat constructor; simpl; tauto | ].
    intros x Hx [<- | []]. contradiction.
Qed.

Lemma delete_In (s x : Symbol) (l : t) : In x (delete s l) <-> In x l /\ x <> s.
Proof.
  unfold delete. split.
  - intros H. apply in_remove in H. assumption.
  - intros [H1 H2]. apply in_in_remove; assumption.
Qed.

Lemma delete_NoDup (s : Symbol) (l : t) : NoDup l -> NoDup (delete s l).
Proof.
  unfold delete. induction 1 as [| a l Ha Hl IH]; simpl.
  - constructor.
  - destruct (Symbol_eq_dec s a); [assumption |].
    constructor; [| assumption].
    intros H. apply in_remove in H. tauto.
Qed.

End SymbolSetFacts.

(** ** Reflections with other children *)

Lemma withChildren_children (r : Reflection) : withChildren r (children r) = r.
Proof. destruct r; reflexivity. Qed.

Lemma children_withChildren (r : Reflection) (cs : list Reflection) :
  children (withChildren r cs) = cs.
Proof. destruct r; reflexivity. Qed.

Lemma id_withChildren (r : Reflection) (cs : list Reflection) :
  id (withChildren r cs) = id r.
Proof. destruct r; reflexivity. Qed.

Lemma reflection_size_pos (r : Reflection) : 0 < reflection_size r.
Proof. destruct r; simpl; lia. Qed.

(** ** The collector *)

Lemma queueSize_app (q q' : list Reflection) :
  queueSize (q ++ q') = queueSize q + queueSize q'.
Proof. unfold queueSize. rewrite map_app, list_sum_app. reflexivity. Qed.

Section CollectFacts.

Variable bindings : list (Symbol * nat).

Lemma Adds_ext (Q Q' : Reflection -> Prop) (S S' : Symbol -> Prop) (n n' : nat)
  (f : Collector -> Collector) :
  Adds Q S n f ->
  (forall x, Q x <-> Q' x) -> (forall s, S s <-> S' s) -> n = n' ->
  Adds Q' S' n' f.
Proof.
  intros Hf HQ HS <- c. destruct (Hf c) as (H1 & H2 & H3 & H4).
  repeat split; try assumption.
  - intros Hx. apply H1 in Hx. rewrite <- HQ. assumption.
  - intros Hx. apply H1. rewrite HQ. assumption.
  - intros Hs. apply H3 in Hs. rewrite <- HS. assumption.
  - intros Hs. apply H3. rewrite HS. assumption.
Qed.

Lemma Adds_skip : Adds (fun _ => False) (fun _ => False) 0 (fun c => c).
Proof. intros c. repeat split; try tauto; lia. Qed.

Lemma Adds_compose (Q1 Q2 : Reflection -> Prop) (S1 S2 : Symbol -> Prop)
  (n1 n2 : nat) (f g : Collector -> Collector) :
  Adds Q1 S1 n1 f -> Adds Q2 S2 n2 g ->
  Adds (fun x => Q1 x \/ Q2 x) (fun s => S1 s \/ S2 s) (n1 + n2) (fun c => g (f c)).
Proof.
  intros Hf Hg c.
  destruct (Hf c) as (F1 & F2 & F3 & F4).
  destruct (Hg (f c)) as (G1 & G2 & G3 & G4).
  repeat split.
  - intros Hx. apply G1 in Hx. rewrite F1 in Hx. tauto.
  - intros Hx. apply G1. rewrite F1. tauto.
  - lia.
  - intros Hs. apply G3 in Hs. rewrite F3 in Hs. tauto.
  - intros Hs. apply G3. rewrite F3. tauto.
  - auto.
Qed.

Lemma Adds_add (items : list Reflection) :
  Adds (fun x => In x items) (fun _ => False) (queueSize items) (add items).
Proof.
  intros c. unfold add. simpl. split; [| split; [| split]]; try tauto.
  - intros x. apply in_app_iff.
  - apply queueSize_app.
Qed.

Lemma Adds_addOption (item : option Reflection) :
  Adds (fun x => In x (optionToList item)) (fun _ => False)
    (sumOption reflection_size item) (addOption item).
Proof.
  destruct item as [r |]; simpl.
  - intros c. simpl. split; [| split; [| split]]; try tauto.
    + intros x. rewrite in_app_iff. simpl. tauto.
    + rewrite queueSize_app. unfold queueSize. simpl. lia.
  - eapply Adds_ext; [apply Adds_skip | | | reflexivity]; simpl; tauto.
Qed.

Lemma Adds_visitor_reference (target : ReferenceTarget) :
  Adds (fun _ => False) (AddedBy bindings target) 0 (visitor_reference bindings target).
Proof.
  intros c. unfold visitor_reference, AddedBy.
  destruct (reflection bindings target) as [i |] eqn:Hr.
  - repeat split; try tauto; try lia. intros [H | [H _]]; [assumption | discriminate].
  - destruct (getSymbol target) as [s' |] eqn:Hs; simpl.
    + repeat split; try tauto; try lia.
      * intros H. apply SymbolSetFacts.add_In in H. destruct H as [H | ->]; auto.
      * intros [H | [_ H]]; apply SymbolSetFacts.add_In; [tauto |].
        injection H as ->. tauto.
      * apply SymbolSetFacts.add_NoDup.
    + repeat split; try tauto; try lia. intros [H | [_ H]]; [assumption | discriminate].
Qed.

Lemma Adds_visitor_reflection (declaration : Reflection) :
  Adds (fun x => x = declaration) (fun _ => False) (reflection_size declaration)
    (visitor_reflection declaration).
Proof.
  intros c. unfold visitor_reflection. simpl. repeat split; try tauto.
  - intros H. apply in_app_iff in H. simpl in H. intuition congruence.
  - intros [H | ->]; apply in_app_iff; simpl; tauto.
  - rewrite queueSize_app. unfold queueSize. simpl. lia.
Qed.

(** A left fold of steps adds what its steps add. *)
Lemma Adds_fold (A : Type) (step : A -> Collector -> Collector)
  (Q : A -> Reflection -> Prop) (S : A -> Symbol -> Prop) (n : A -> nat)
  (l : list A) :
  Forall (fun a => Adds (Q a) (S a) (n a) (step a)) l ->
  Adds (fun x => exists a, In a l /\ Q a x) (fun s => exists a, In a l /\ S a s)
    (list_sum (map n l)) (fun c => fold_left (fun c' a => step a c') l c).
Proof.
  induction 1 as [| a l Ha Hl IH]; simpl.
  - eapply Adds_ext; [apply Adds_skip | | | reflexivity]; firstorder.
  - eapply Adds_ext; [exact (Adds_compose Ha IH) | | | reflexivity].
    + intros x. split.
      * intros [H | (b & Hb & H)]; eauto.
      * intros (b & [<- | Hb] & H); eauto.
    + intros s. split.
      * intros [H | (b & Hb & H)]; eauto.
      * intros (b & [<- | Hb] & H); eauto.
Qed.

Lemma Adds_visit (t : SomeType) :
  Adds (QueuedBy t) (FoundIn bindings t) (type_size t) (visit bindings t).
Proof.
  induction t as [target args IH | d | ts IH | n] using SomeType_visit_ind.
  - eapply Adds_ext;
      [exact (Adds_compose (Adds_visitor_reference target)
                (Adds_fold (fun a => visit bindings a) _ _ _ IH)) | | | reflexivity].
    + intros x. unfold QueuedBy. split.
      * intros [[] | (a & Ha & H)]. eapply contains_argument; eassumption.
      * intros H. inversion H; subst. right. eauto.
    + intros s. unfold FoundIn. split.
      * intros [H | (a & Ha & target' & args' & H & H')].
        -- exists target, args. split; [constructor | assumption].
        -- exists target', args'. split; [| assumption].
           eapply contains_argument; eassumption.
      * intros (target' & args' & H & H'). inversion H; subst.
        -- left. assumption.
        -- right. eexists. split; [eassumption |]. exists target', args'. tauto.
  - eapply Adds_ext; [apply Adds_visitor_reflection | | | reflexivity].
    + intros x. unfold QueuedBy. split.
      * intros ->. constructor.
      * intros H. inversion H; subst. reflexivity.
    + intros s. unfold FoundIn. split; [tauto |].
      intros (target & args & H & _). inversion H.
  - eapply Adds_ext;
      [exact (Adds_fold (fun a => visit bindings a) _ _ _ IH) | | | reflexivity].
    + intros x. unfold QueuedBy. split.
      * intros (a & Ha & H). eapply contains_part; eassumption.
      * intros H. inversion H; subst. eauto.
    + intros s. unfold FoundIn. split.
      * intros (a & Ha & target' & args' & H & H').
        exists target', args'. split; [| assumption].
        eapply contains_part; eassumption.
      * intros (target' & args' & H & H'). inversion H; subst.
        eexists. split; [eassumption |]. exists target', args'. tauto.
  - eapply Adds_ext; [apply Adds_skip | | | reflexivity].
    + intros x. unfold QueuedBy. split; [tauto |]. intros H. inversion H.
    + intros s. unfold FoundIn. split; [tauto |].
      intros (target & args & H & _). inversion H.
Qed.

Lemma exists_in_app (A : Type) (P : A -> Prop) (l l' : list A) :
  (exists a, In a (l ++ l') /\ P a)
  <-> (exists a, In a l /\ P a) \/ (exists a, In a l' /\ P a).
Proof.
  split.
  - intros (a & Ha & H). apply in_app_iff in Ha. destruct Ha; eauto.
  - intros [(a & Ha & H) | (a & Ha & H)]; exists a; rewrite in_app_iff; tauto.
Qed.

Lemma exists_in_nil (A : Type) (P : A -> Prop) :
  (exists a, In a (@nil A) /\ P a) <-> False.
Proof. split; [intros (a & [] & _) | tauto]. Qed.

Lemma Adds_visitEach (ts : list SomeType) :
  Adds (fun x => exists t, In t ts /\ QueuedBy t x)
    (fun s => exists t, In t ts /\ FoundIn bindings t s)
    (list_sum (map type_size ts)) (visitEach bindings ts).
Proof.
  apply (Adds_fold (fun a => visit bindings a)).
  apply Forall_forall. intros t _. apply Adds_visit.
Qed.

Lemma Adds_visitOption (o : option SomeType) :
  Adds (fun x => exists t, In t (optionToList o) /\ QueuedBy t x)
    (fun s => exists t, In t (optionToList o) /\ FoundIn bindings t s)
    (sumOption type_size o) (visitOption bindings o).
Proof.
  destruct o as [t |]; simpl.
  - eapply Adds_ext; [apply Adds_visit | | | reflexivity].
    + intros x. split; [eauto |]. intros (t' & [<- | []] & H). assumption.
    + intros x. split; [eauto |]. intros (t' & [<- | []] & H). assumption.
  - eapply Adds_ext; [apply Adds_skip | | | reflexivity];
      intros x; split; try tauto; intros (t' & [] & _).
Qed.

Lemma UnresolvedIn_FoundIn (r : Reflection) (s : Symbol) :
  UnresolvedIn bindings r s <-> exists t, In t (visitedTypes r) /\ FoundIn bindings t s.
Proof.
  unfold UnresolvedIn, FoundIn, AddedBy. split.
  - intros (t & target & args & H1 & H2 & H3 & H4). eauto 8.
  - intros (t & H1 & target & args & H2 & H3 & H4). eauto 8.
Qed.

Local Infix ">>" := Adds_compose (at level 60, right associativity).

Ltac split_lists :=
  repeat (rewrite in_app_iff || rewrite exists_in_app || rewrite exists_in_nil);
  tauto.

(** One round of the collector's loop pushes the reflections of the
    traversed fields and the inline declarations of the visited types, adds
    the unresolved symbols of the visited types, and pushes less than it
    takes off. *)
Lemma Adds_visitCurrent (r : Reflection) :
  exists n, n < reflection_size r
    /\ Adds (Enqueued r) (UnresolvedIn bindings r) n (visitCurrent bindings r).
Proof.
  destruct r as [c i nm k cs ty df tps sgs pms ix gs ss ow ih im et eb it ib].
  destruct c.
  - eexists. split; cycle 1.
    { eapply Adds_ext; [exact (Adds_add cs) | | | reflexivity].
      - intros x. unfold Enqueued, fieldReflections, visitedTypes. simpl. split_lists.
      - intros s. rewrite UnresolvedIn_FoundIn. unfold visitedTypes. simpl. split_lists. }
    simpl. unfold queueSize. lia.
  - eexists. split; cycle 1.
    { eapply Adds_ext;
        [exact (Adds_add cs >> Adds_visitOption ty >> Adds_add tps >> Adds_add sgs
                >> Adds_addOption ix >> Adds_addOption gs >> Adds_addOption ss
                >> Adds_visitOption ow >> Adds_visitOption ih >> Adds_visitOption im
                >> Adds_visitEach et >> Adds_visitEach it) | | | reflexivity].
      - intros x. unfold Enqueued, fieldReflections, visitedTypes. simpl. split_lists.
      - intros s. rewrite UnresolvedIn_FoundIn. unfold visitedTypes. simpl. split_lists. }
    simpl. unfold queueSize. lia.
  - eexists. split; cycle 1.
    { eapply Adds_ext;
        [exact (Adds_add pms >> Adds_add tps >> Adds_visitOption ty
                >> Adds_visitOption ow >> Adds_visitOption ih >> Adds_visitOption im)
        | | | reflexivity].
      - intros x. unfold Enqueued, fieldReflections, visitedTypes. simpl. split_lists.
      - intros s. rewrite UnresolvedIn_FoundIn. unfold visitedTypes. simpl. split_lists. }
    simpl. unfold queueSize. lia.
  - eexists. split; cycle 1.
    { eapply Adds_ext; [exact (Adds_visitOption ty) | | | reflexivity].
      - intros x. unfold Enqueued, fieldReflections, visitedTypes. simpl. split_lists.
      - intros s. rewrite UnresolvedIn_FoundIn. unfold visitedTypes. simpl. split_lists. }
    simpl. unfold queueSize. lia.
  - eexists. split; cycle 1.
    { eapply Adds_ext;
        [exact (Adds_visitOption ty >> Adds_visitOption df) | | | reflexivity].
      - intros x. unfold Enqueued, fieldReflections, visitedTypes. simpl. split_lists.
      - intros s. rewrite UnresolvedIn_FoundIn. unfold visitedTypes. simpl. split_lists. }
    simpl. unfold queueSize. lia.
Qed.

End CollectFacts.

Lemma Traversed_trans (a b r : Reflection) :
  Traversed a b -> Traversed b r -> Traversed a r.
Proof.
  intros Hab Hbr. induction Hbr as [| r x Hr IH Hx | r x t Hr IH Ht Hx].
  - assumption.
  - eapply traversed_field; eassumption.
  - eapply traversed_inline; eassumption.
Qed.

Lemma Traversed_Enqueued (a x : Reflection) : Enqueued a x -> Traversed a x.
Proof.
  intros [H | (t & Ht & H)].
  - eapply traversed_field; [constructor | assumption].
  - eapply traversed_inline; [constructor | eassumption | assumption].
Qed.

(** The traversal from [a] is [a] followed by the traversals from what one
    round pushes for [a]. *)
Lemma Traversed_head (a r : Reflection) :
  Traversed a r <-> r = a \/ exists x, Enqueued a x /\ Traversed x r.
Proof.
  split.
  - induction 1 as [| r x Hr IH Hx | r x t Hr IH Ht Hx].
    + left. reflexivity.
    + right. destruct IH as [-> | (y & Hy & H)].
      * exists x. split; [left; assumption | constructor].
      * exists y. split; [assumption |]. eapply traversed_field; eassumption.
    + right. destruct IH as [-> | (y & Hy & H)].
      * exists x. split; [right; eauto | constructor].
      * exists y. split; [assumption |]. eapply traversed_inline; eassumption.
  - intros [-> | (x & Hx & H)].
    + constructor.
    + eapply Traversed_trans; [apply Traversed_Enqueued |]; eassumption.
Qed.

Section CollectorLoop.

Variable bindings : list (Symbol * nat).

Lemma MissingReference_head (a : Reflection) (s : Symbol) :
  MissingReference bindings a s
  <-> UnresolvedIn bindings a s
      \/ exists x, Enqueued a x /\ MissingReference bindings x s.
Proof.
  unfold MissingReference. split.
  - intros (r & Hr & Hs). apply Traversed_head in Hr.
    destruct Hr as [-> | (x & Hx & Hr)]; [left; assumption |].
    right. exists x. split; [assumption |]. exists r. tauto.
  - intros [Hs | (x & Hx & r & Hr & Hs)].
    + exists a. split; [constructor | assumption].
    + exists r. split; [| assumption].
      apply Traversed_head. eauto.
Qed.

(** The loop ends within a fuel of the size of its work list, and returns
    the symbols it started with and the missing references of the work
    list. *)
Lemma discoverLoop_spec (fuel : nat) :
  forall (current : Reflection) (c : Collector),
    queueSize (current :: queue c) <= fuel ->
    NoDup (missing c) ->
    exists found,
      discoverLoop bindings fuel current c = Some found
      /\ NoDup found
      /\ forall s,
          In s found
          <-> In s (missing c)
              \/ exists r, In r (current :: queue c) /\ MissingReference bindings r s.
Proof.
  induction fuel as [| fuel IH]; intros current c Hfuel Hnd.
  - unfold queueSize in Hfuel. simpl in Hfuel.
    pose proof (reflection_size_pos current). lia.
  - simpl.
    destruct (Adds_visitCurrent bindings current) as (n & Hn & Hadds).
    destruct (Hadds c) as (Hq & Hsize & Hm & Hnd').
    set (c' := visitCurrent bindings current c) in *.
    assert (Hsplit : forall s,
               In s (missing c)
               \/ (exists r, In r (current :: queue c) /\ MissingReference bindings r s)
               <-> In s (missing c')
                   \/ exists r, In r (queue c') /\ MissingReference bindings r s).
    { intros s. rewrite Hm. split.
      - intros [H | (r & [<- | Hr] & H)].
        + tauto.
        + apply MissingReference_head in H. destruct H as [H | (x & Hx & H)].
          * tauto.
          * right. exists x. split; [apply Hq; tauto | assumption].
        + right. exists r. split; [apply Hq; tauto | assumption].
      - intros [[H | H] | (r & Hr & H)].
        + tauto.
        + right. exists current. split; [left; reflexivity |].
          apply MissingReference_head. tauto.
        + apply Hq in Hr. destruct Hr as [Hr | Hr].
          * right. exists r. split; [right; assumption | assumption].
          * right. exists current. split; [left; reflexivity |].
            apply MissingReference_head. eauto. }
    destruct (queue c') as [| next rest] eqn:Hqueue.
    + exists (missing c'). split; [reflexivity |]. split; [auto |].
      intros s. rewrite Hsplit. split; [tauto |].
      intros [H | (r & [] & _)]. assumption.
    + destruct (IH next (mkCollector rest (missing c'))) as (found & Hrun & Hnf & Hfound).
      * simpl. unfold queueSize in *. simpl in *. lia.
      * simpl. auto.
      * exists found. split; [assumption |]. split; [assumption |].
        intros s. rewrite Hsplit. rewrite Hfound. simpl. tauto.
Qed.

(** The collector never runs out of fuel. *)
Lemma discoverLoop_total (root : Reflection) :
  discoverLoop bindings (reflection_size root) root (mkCollector [] SymbolSet.empty)
  = Some (discoverMissingExports bindings root).
Proof.
  unfold discoverMissingExports.
  destruct (discoverLoop_spec (fuel := reflection_size root) root
              (mkCollector [] SymbolSet.empty)) as (found & Hrun & _).
  - unfold queueSize. simpl. lia.
  - constructor.
  - rewrite Hrun. reflexivity.
Qed.

Lemma discoverMissingExports_NoDup (root : Reflection) :
  NoDup (discoverMissingExports bindings root).
Proof.
  destruct (discoverLoop_spec (fuel := reflection_size root) root
              (mkCollector [] SymbolSet.empty)) as (found & Hrun & Hnd & _).
  - unfold queueSize. simpl. lia.
  - constructor.
  - rewrite discoverLoop_total in Hrun. injection Hrun as ->. assumption.
Qed.

(** The collector returns the missing references of its root. *)
Lemma discoverMissingExports_spec (root : Reflection) (s : Symbol) :
  In s (discoverMissingExports bindings root) <-> MissingReference bindings root s.
Proof.
  destruct (discoverLoop_spec (fuel := reflection_size root) root
              (mkCollector [] SymbolSet.empty)) as (found & Hrun & _ & Hfound).
  - unfold queueSize. simpl. lia.
  - constructor.
  - rewrite discoverLoop_total in Hrun. injection Hrun as ->.
    rewrite Hfound. simpl. split.
    + intros [[] | (r & [<- | []] & H)]. assumption.
    + intros H. right. exists root. tauto.
Qed.

End CollectorLoop.

(** ** The tree and its operations *)

Lemma firstSome_None (A B : Type) (f : A -> option B) (l : list A) :
  (forall a, In a l -> f a = None) -> firstSome f l = None.
Proof.
  induction l as [| a l IH]; simpl; intros H; [reflexivity |].
  rewrite (H a) by tauto. apply IH. intros b Hb. apply H. tauto.
Qed.

Lemma firstSome_Some (A B : Type) (f : A -> option B) (l : list A) (b : B) :
  firstSome f l = Some b -> exists a, In a l /\ f a = Some b.
Proof.
  induction l as [| a l IH]; simpl; [discriminate |].
  destruct (f a) as [b' |] eqn:Hfa.
  - intros H. injection H as ->. eauto.
  - intros H. destruct (IH H) as (a' & Ha' & H'). eauto.
Qed.

Lemma getReflectionById_unfold (i : nat) (r : Reflection) :
  getReflectionById i r
  = if id r =? i then Some r else firstSome (getReflectionById i) (children r).
Proof. destruct r; reflexivity. Qed.

Lemma updateReflection_unfold (i : nat) (f : Reflection -> Reflection) (r : Reflection) :
  updateReflection i f r
  = if id r =? i then f r
    else withChildren r (map (updateReflection i f) (children r)).
Proof. destruct r; reflexivity. Qed.

Lemma removeFromTree_unfold (i : nat) (r : Reflection) :
  removeFromTree i r
  = withChildren r
      (filter (fun c => negb (id c =? i)) (map (removeFromTree i) (children r))).
Proof. destruct r; reflexivity. Qed.

Lemma idsBelow_unfold (n : nat) (r : Reflection) :
  idsBelow n r = (id r <? n) && forallb (idsBelow n) (children r).
Proof. destruct r; reflexivity. Qed.

Lemma withChildren_withChildren (r : Reflection) (cs cs' : list Reflection) :
  withChildren (withChildren r cs) cs' = withChildren r cs'.
Proof. destruct r; reflexivity. Qed.

Lemma id_updateReflection (i : nat) (f : Reflection -> Reflection) (r : Reflection) :
  (forall x, id (f x) = id x) -> id (updateReflection i f r) = id r.
Proof.
  intros Hf. rewrite updateReflection_unfold.
  destruct (id r =? i); [apply Hf | apply id_withChildren].
Qed.

Lemma id_addChildren (scope : nat) (items : list Reflection) (r : Reflection) :
  id (addChildren scope items r) = id r.
Proof.
  apply id_updateReflection. intros x.
  destruct (isContainerReflection x); [apply id_withChildren | reflexivity].
Qed.

Lemma id_removeFromTree (i : nat) (r : Reflection) : id (removeFromTree i r) = id r.
Proof. rewrite removeFromTree_unfold. apply id_withChildren. Qed.

(** A removed reflection is no longer found below the root. *)
Lemma getReflectionById_removeFromTree (i : nat) (r : Reflection) :
  id r <> i -> getReflectionById i (removeFromTree i r) = None.
Proof.
  induction r as [r IH] using Reflection_children_ind. intros Hne.
  rewrite getReflectionById_unfold, id_removeFromTree.
  apply Nat.eqb_neq in Hne. rewrite Hne.
  rewrite removeFromTree_unfold, children_withChildren.
  apply firstSome_None. intros a Ha.
  apply filter_In in Ha. destruct Ha as (Ha & Hid).
  apply in_map_iff in Ha. destruct Ha as (c & <- & Hc).
  rewrite Forall_forall in IH. apply IH; [assumption |].
  rewrite id_removeFromTree in Hid.
  apply negb_true_iff, Nat.eqb_neq in Hid. assumption.
Qed.

Lemma idsBelow_children (n : nat) (r c : Reflection) :
  idsBelow n r = true -> In c (children r) -> idsBelow n c = true /\ id c <> n.
Proof.
  rewrite idsBelow_unfold. intros H Hc.
  apply andb_true_iff in H. destruct H as (_ & H).
  rewrite forallb_forall in H. specialize (H c Hc). split; [assumption |].
  rewrite idsBelow_unfold in H. apply andb_true_iff in H.
  destruct H as (H & _). apply Nat.ltb_lt in H. lia.
Qed.

Lemma filter_all (A : Type) (p : A -> bool) (l : list A) :
  (forall a, In a l -> p a = true) -> filter p l = l.
Proof.
  induction l as [| a l IH]; simpl; intros H; [reflexivity |].
  rewrite (H a) by tauto. f_equal. apply IH. intros b Hb. apply H. tauto.
Qed.

Lemma map_same (A : Type) (f : A -> A) (l : list A) :
  (forall a, In a l -> f a = a) -> map f l = l.
Proof.
  induction l as [| a l IH]; simpl; intros H; [reflexivity |].
  rewrite (H a) by tauto. f_equal. apply IH. intros b Hb. apply H. tauto.
Qed.

(** Removing an id that no reflection has changes nothing. *)
Lemma removeFromTree_fresh (n : nat) (r : Reflection) :
  idsBelow n r = true -> removeFromTree n r = r.
Proof.
  induction r as [r IH] using Reflection_children_ind. intros Hr.
  rewrite Forall_forall in IH.
  rewrite removeFromTree_unfold, map_same, filter_all.
  - apply withChildren_children.
  - intros c Hc. destruct (@idsBelow_children n r c Hr Hc) as (_ & Hne).
    apply negb_true_iff, Nat.eqb_neq. assumption.
  - intros c Hc. apply IH; [assumption |]. eapply idsBelow_children; eassumption.
Qed.

(** Removing the reflection just created under a scope gives the tree
    back. *)
Lemma removeFromTree_addChildren (n scope : nat) (nm : string) (k : N) (r : Reflection) :
  idsBelow n r = true ->
  removeFromTree n (addChildren scope [newDeclarationReflection n nm k] r) = r.
Proof.
  unfold addChildren.
  induction r as [r IH] using Reflection_children_ind. intros Hr.
  rewrite Forall_forall in IH.
  assert (Hkeep : forall c, In c (children r) -> negb (id c =? n) = true).
  { intros c Hc. destruct (@idsBelow_children n r c Hr Hc) as (_ & Hne).
    apply negb_true_iff, Nat.eqb_neq. assumption. }
  rewrite updateReflection_unfold. destruct (id r =? scope).
  - destruct (isContainerReflection r); [| apply removeFromTree_fresh; assumption].
    rewrite removeFromTree_unfold, children_withChildren, withChildren_withChildren.
    rewrite map_app, filter_app. simpl. rewrite Nat.eqb_refl. simpl.
    rewrite app_nil_r, map_same, filter_all by
      (try assumption; intros c Hc; apply removeFromTree_fresh;
       eapply idsBelow_children; eassumption).
    apply withChildren_children.
  - rewrite removeFromTree_unfold, children_withChildren, withChildren_withChildren.
    rewrite map_map, map_same, filter_all; try assumption.
    + apply withChildren_children.
    + intros c Hc. apply IH; [assumption |]. eapply idsBelow_children; eassumption.
Qed.

(** *** Symbols in the tree *)

Lemma In_concatOption (A B : Type) (f : A -> list B) (o : option A) (a : A) (b : B) :
  In a (optionToList o) -> In b (f a) -> In b (concatOption f o).
Proof. destruct o; simpl; [intros [<- | []] | intros []]; auto. Qed.

Lemma symbols_withChildren (r : Reflection) (cs : list Reflection) (s : Symbol) :
  In s (reflection_symbols (withChildren r cs))
  <-> In s (flat_map reflection_symbols cs)
      \/ In s (reflection_symbols (withChildren r [])).
Proof. destruct r; simpl; rewrite !in_app_iff; tauto. Qed.

Lemma symbols_split (r : Reflection) (s : Symbol) :
  In s (reflection_symbols r)
  <-> In s (flat_map reflection_symbols (children r))
      \/ In s (reflection_symbols (withChildren r [])).
Proof. rewrite <- symbols_withChildren, withChildren_children. tauto. Qed.

Lemma symbols_children (r c : Reflection) :
  In c (children r) -> incl (reflection_symbols c) (reflection_symbols r).
Proof.
  intros Hc s Hs. apply symbols_split. left. apply in_flat_map. eauto.
Qed.

Lemma symbols_getReflectionById (i : nat) (r x : Reflection) :
  getReflectionById i r = Some x -> incl (reflection_symbols x) (reflection_symbols r).
Proof.
  induction r as [r IH] using Reflection_children_ind.
  rewrite Forall_forall in IH.
  rewrite getReflectionById_unfold. destruct (id r =? i).
  - intros H. injection H as ->. apply incl_refl.
  - intros H. apply firstSome_Some in H. destruct H as (c & Hc & H).
    eapply incl_tran; [apply IH; eassumption | apply symbols_children; assumption].
Qed.

Lemma symbols_addChildren (scope : nat) (items : list Reflection) (r : Reflection)
  (s : Symbol) :
  In s (reflection_symbols (addChildren scope items r)) ->
  In s (reflection_symbols r) \/ In s (flat_map reflection_symbols items).
Proof.
  unfold addChildren.
  induction r as [r IH] using Reflection_children_ind.
  rewrite Forall_forall in IH.
  rewrite updateReflection_unfold. destruct (id r =? scope).
  - destruct (isContainerReflection r); [| tauto].
    rewrite symbols_withChildren, flat_map_app, in_app_iff, (symbols_split r). tauto.
  - rewrite symbols_withChildren, (symbols_split r). intros [H | H]; [| tauto].
    apply in_flat_map in H. destruct H as (c' & Hc' & H).
    apply in_map_iff in Hc'. destruct Hc' as (c & <- & Hc).
    destruct (IH c Hc H) as [H' | H']; [| tauto].
    left. left. apply in_flat_map. eauto.
Qed.

Lemma symbols_removeFromTree (i : nat) (r : Reflection) :
  incl (reflection_symbols (removeFromTree i r)) (reflection_symbols r).
Proof.
  induction r as [r IH] using Reflection_children_ind.
  rewrite Forall_forall in IH. intros s.
  rewrite removeFromTree_unfold, symbols_withChildren, (symbols_split r).
  intros [H | H]; [| tauto].
  apply in_flat_map in H. destruct H as (c' & Hc' & H).
  apply filter_In in Hc'. destruct Hc' as (Hc' & _).
  apply in_map_iff in Hc'. destruct Hc' as (c & <- & Hc).
  left. apply in_flat_map. exists c. split; [assumption |]. apply (IH c Hc). assumption.
Qed.

Lemma type_symbols_contains (t u : SomeType) :
  TypeContains t u -> incl (type_symbols u) (type_symbols t).
Proof.
  induction 1 as [t | target args a u Ha Hu IH | ts a u Ha Hu IH]; intros s Hs.
  - assumption.
  - simpl. apply in_app_iff. right. apply in_flat_map. eauto.
  - simpl. apply in_flat_map. eauto.
Qed.

Ltac into_symbols f s :=
  repeat match goal with
    | H : _ \/ _ |- _ => destruct H
    | H : In _ (_ ++ _) |- _ => apply in_app_iff in H
    end;
  match goal with
  | H : In ?t (optionToList ?o), Hs : In s (f ?t) |- _ =>
      pose proof (@In_concatOption _ _ f o t s H Hs)
  | H : In ?t ?l, Hs : In s (f ?t) |- _ =>
      assert (In s (flat_map f l)) by (apply in_flat_map; eauto)
  | H : In _ [] |- _ => destruct H
  | H : False |- _ => destruct H
  end;
  repeat rewrite in_app_iff; tauto.

Lemma symbols_visitedTypes (r : Reflection) (t : SomeType) :
  In t (visitedTypes r) -> incl (type_symbols t) (reflection_symbols r).
Proof.
  intros Ht s Hs.
  destruct r as [c i nm k cs ty df tps sgs pms ix gs ss ow ih im et eb it ib].
  destruct c; unfold visitedTypes in Ht; simpl in Ht |- *; into_symbols type_symbols s.
Qed.

Lemma symbols_fieldReflections (r x : Reflection) :
  In x (fieldReflections r) -> incl (reflection_symbols x) (reflection_symbols r).
Proof.
  intros Hx s Hs.
  destruct r as [c i nm k cs ty df tps sgs pms ix gs ss ow ih im et eb it ib].
  destruct c; unfold fieldReflections in Hx; simpl in Hx |- *;
    into_symbols reflection_symbols s.
Qed.

Lemma symbols_Traversed (root r : Reflection) :
  Traversed root r -> incl (reflection_symbols r) (reflection_symbols root).
Proof.
  induction 1 as [| r x Hr IH Hx | r x t Hr IH Ht Hx].
  - apply incl_refl.
  - eapply incl_tran; [apply symbols_fieldReflections |]; eassumption.
  - eapply incl_tran; [| eassumption].
    eapply incl_tran; [| apply symbols_visitedTypes; eassumption].
    apply (type_symbols_contains Hx).
Qed.

(** A missing reference is a symbol of the tree. *)
Lemma symbols_MissingReference (bindings : list (Symbol * nat)) (root : Reflection)
  (s : Symbol) :
  MissingReference bindings root s -> In s (reflection_symbols root).
Proof.
  intros (r & Hr & t & target & args & Ht & Hc & _ & Hs).
  apply (symbols_Traversed Hr). apply (@symbols_visitedTypes r t Ht).
  apply (type_symbols_contains Hc). destruct target; try discriminate.
  injection Hs as ->. simpl. tauto.
Qed.

Lemma symbols_discoverMissingExports (bindings : list (Symbol * nat)) (root : Reflection) :
  incl (discoverMissingExports bindings root) (reflection_symbols root).
Proof.
  intros s Hs. apply discoverMissingExports_spec in Hs.
  eapply symbols_MissingReference. eassumption.
Qed.
(** ** The driver *)

Lemma setKnownPrograms_same (st : State) : setKnownPrograms (knownPrograms st) st = st.
Proof. destruct st. reflexivity. Qed.

Lemma knownPrograms_get_set (k : list (nat * Program)) (i j : nat) (p : Program) :
  knownPrograms_get (knownPrograms_set k i p) j
  = if i =? j then Some p else knownPrograms_get k j.
Proof.
  induction k as [| (j0, q) k IH]; simpl.
  - reflexivity.
  - destruct (j0 =? i) eqn:Hi; simpl.
    + apply Nat.eqb_eq in Hi. subst j0. destruct (i =? j); reflexivity.
    + rewrite IH. destruct (j0 =? j) eqn:Hj; [| reflexivity].
      apply Nat.eqb_eq in Hj. subst j0. rewrite Nat.eqb_sym, Hi. reflexivity.
Qed.

(** The creation listener writes to [knownPrograms] only, the entry of the
    project, and it throws only when no program is active and the project is
    of kind project or module. *)
Lemma onCreateDeclaration_cases (st : State) :
  (exists k,
      onCreateDeclaration st = Returned (setKnownPrograms k st)
      /\ (k = knownPrograms st
          \/ exists p, k = knownPrograms_set (knownPrograms st) (id (project st)) p))
  \/ (onCreateDeclaration st = Thrown st
      /\ program st = None
      /\ kindOf (project st) (N.lor ReflectionKind.Project ReflectionKind.Module) = true).
Proof.
  unfold onCreateDeclaration.
  destruct (kindOf _ _); [destruct (program st) eqn:Hp |].
  - left. eauto.
  - right. auto.
  - left. exists (knownPrograms st). rewrite setKnownPrograms_same. auto.
Qed.

Lemma Ends_impl (A : Type) (P P' : A -> Prop) (Q Q' : State -> Prop) (o : Outcome A) :
  (forall a, P a -> P' a) -> (forall st, Q st -> Q' st) -> Ends P Q o -> Ends P' Q' o.
Proof. intros HP HQ. destruct o; simpl; auto. Qed.

(** Sets of symbols in the loop. *)

Lemma addAll_In (missing : SymbolSet.t) :
  forall t s,
    In s (fold_left (fun t m => SymbolSet.add m t) missing t) <-> In s t \/ In s missing.
Proof.
  induction missing as [| m missing IH]; intros t s; simpl; [tauto |].
  rewrite IH, SymbolSetFacts.add_In. intuition congruence.
Qed.

(** Adding symbols that are new and distinct appends them. *)
Lemma addAll_fresh (missing : SymbolSet.t) :
  forall t,
    NoDup missing -> (forall s, In s missing -> ~ In s t) ->
    fold_left (fun t m => SymbolSet.add m t) missing t = t ++ missing.
Proof.
  induction missing as [| m missing IH]; intros t Hnd Hfresh; simpl.
  - rewrite app_nil_r. reflexivity.
  - inversion Hnd as [| ? ? Hm Hnd']; subst.
    unfold SymbolSet.add at 2.
    destruct (in_dec Symbol_eq_dec m t) as [Hin | _].
    + exfalso. apply (Hfresh m); simpl; tauto.
    + rewrite IH; [rewrite <- app_assoc; reflexivity | assumption |].
      intros s Hs Hin. apply in_app_iff in Hin. simpl in Hin.
      destruct Hin as [Hin | [<- | []]]; [| contradiction].
      apply (Hfresh s); simpl; tauto.
Qed.

Lemma deleteTried_In (triedSet : SymbolSet.t) :
  forall missing s,
    In s (deleteTried triedSet missing) <-> In s missing /\ ~ In s triedSet.
Proof.
  unfold deleteTried.
  induction triedSet as [| a triedSet IH]; intros missing s; simpl; [tauto |].
  rewrite IH, SymbolSetFacts.delete_In. intuition congruence.
Qed.

Lemma deleteTried_NoDup (triedSet : SymbolSet.t) :
  forall missing, NoDup missing -> NoDup (deleteTried triedSet missing).
Proof.
  unfold deleteTried.
  induction triedSet as [| a triedSet IH]; intros missing H; simpl; [assumption |].
  apply IH, SymbolSetFacts.delete_NoDup. assumption.
Qed.

Lemma deleteTried_all (triedSet missing : SymbolSet.t) :
  incl missing triedSet -> deleteTried triedSet missing = [].
Proof.
  intros H. destruct (deleteTried triedSet missing) as [| s l] eqn:E; [reflexivity |].
  assert (Hs : In s (deleteTried triedSet missing)) by (rewrite E; simpl; tauto).
  apply deleteTried_In in Hs. destruct Hs as (Hs & Hn). elim Hn. apply H. assumption.
Qed.

Section DriverFacts.

Variable findReflectionByName : Reflection -> string -> option Reflection.
Variable symbolDeclarations : Symbol -> nat -> list Reflection.
Variable internalNamespace : string.
Variable noMissingExports : bool.
Variable modules : list nat.
Variable currentModule : nat.

#[local] Abbreviation create := (createInternalContext internalNamespace currentModule).
#[local] Abbreviation resolve :=
  (resolveSymbol findReflectionByName symbolDeclarations internalNamespace
     noMissingExports modules currentModule).
#[local] Abbreviation resolveAll :=
  (resolveSymbols findReflectionByName symbolDeclarations internalNamespace
     noMissingExports modules currentModule).
#[local] Abbreviation round :=
  (resolveRound findReflectionByName symbolDeclarations internalNamespace
     noMissingExports modules currentModule).
#[local] Abbreviation loop :=
  (resolveLoop findReflectionByName symbolDeclarations internalNamespace
     noMissingExports modules currentModule).

(** *** [createInternalContext] *)

(** Once the namespace exists the call returns it and changes nothing. *)
Lemma createInternalContext_later (rs : Resolution) (ns : nat) :
  internalContext rs = Some ns -> create rs = Returned (ns, rs).
Proof. intros H. unfold createInternalContext. rewrite H. reflexivity. Qed.

(** The first call: the state [st1] in which the creation event is
    fired, and the two ways the call ends.  It throws there when no program
    was recorded for the module. *)
Lemma createInternalContext_first (rs : Resolution) :
  internalContext rs = None ->
  exists st1,
    calls st1
    = calls (state rs)
      ++ [SetActiveProgram (knownPrograms_get (knownPrograms (state rs)) currentModule);
          CreateDeclarationReflection currentModule ReflectionKind.Namespace
            internalNamespace (nextId (state rs));
          FinalizeDeclarationReflection (nextId (state rs))]
    /\ project st1
       = addChildren currentModule
           [newDeclarationReflection (nextId (state rs)) internalNamespace
              ReflectionKind.Namespace]
           (project (state rs))
    /\ nextId st1 = S (nextId (state rs))
    /\ symbolToReflectionIdMap st1 = symbolToReflectionIdMap (state rs)
    /\ program st1 = knownPrograms_get (knownPrograms (state rs)) currentModule
    /\ knownPrograms st1 = knownPrograms (state rs)
    /\ ((exists k,
            create rs
            = Returned (nextId (state rs),
                        mkResolution (setKnownPrograms k st1)
                          (Some (nextId (state rs))) (tried rs))
            /\ (k = knownPrograms (state rs)
                \/ exists p,
                    k = knownPrograms_set (knownPrograms (state rs))
                          (id (project (state rs))) p))
        \/ (create rs = Thrown st1
            /\ knownPrograms_get (knownPrograms (state rs)) currentModule = None
            /\ kindOf (project st1)
                 (N.lor ReflectionKind.Project ReflectionKind.Module) = true)).
Proof.
  intros Hmemo. unfold createInternalContext. rewrite Hmemo.
  unfold createDeclarationReflection, finalizeDeclarationReflection.
  cbv beta iota zeta.
  match goal with
  | |- context [onCreateDeclaration ?s] => exists s; set (st1 := s)
  end.
  repeat (split; [unfold st1; simpl; rewrite <- ?app_assoc; reflexivity |]).
  destruct (onCreateDeclaration_cases st1) as [(k & E & Hk) | (E & Hp & Hk)];
    rewrite E.
  - left. exists k. split; [reflexivity |].
    unfold st1 in Hk. simpl in Hk. rewrite id_addChildren in Hk. exact Hk.
  - right. split; [reflexivity |]. split; [exact Hp | exact Hk].
Qed.

(** With a program recorded for the module the first call returns. *)
Lemma createInternalContext_recorded (rs : Resolution) :
  knownPrograms_get (knownPrograms (state rs)) currentModule <> None ->
  exists ns rs', create rs = Returned (ns, rs').
Proof.
  intros Hrec. destruct (internalContext rs) as [ns |] eqn:Hmemo.
  - rewrite (createInternalContext_later _ Hmemo). eauto.
  - destruct (createInternalContext_first rs Hmemo)
      as (st1 & _ & _ & _ & _ & _ & _ & [(k & E & _) | (_ & Hnone & _)]).
    + rewrite E. eauto.
    + contradiction.
Qed.

Lemma createInternalContext_memo (rs rs' : Resolution) (ns : nat) :
  create rs = Returned (ns, rs') -> internalContext rs' = Some ns.
Proof.
  destruct (internalContext rs) as [j |] eqn:Hmemo.
  - rewrite (createInternalContext_later _ Hmemo). intros E. injection E as <- <-.
    exact Hmemo.
  - destruct (createInternalContext_first rs Hmemo)
      as (st1 & _ & _ & _ & _ & _ & _ & [(k & E & _) | (E & _)]); rewrite E;
      intros E'; [injection E' as <- <- | discriminate].
    reflexivity.
Qed.

Lemma tried_createInternalContext (rs rs' : Resolution) (ns : nat) :
  create rs = Returned (ns, rs') -> tried rs' = tried rs.
Proof.
  destruct (internalContext rs) as [j |] eqn:Hmemo.
  - rewrite (createInternalContext_later _ Hmemo). intros E. injection E as <- <-.
    reflexivity.
  - destruct (createInternalContext_first rs Hmemo)
      as (st1 & _ & _ & _ & _ & _ & _ & [(k & E & _) | (E & _)]); rewrite E;
      intros E'; [injection E' as <- <- | discriminate].
    reflexivity.
Qed.

(** *** The set [tried] *)

Lemma tried_resolveSymbol (rs rs' : Resolution) (m : Symbol) :
  resolve rs m = Returned rs' -> tried rs' = SymbolSet.add m (tried rs).
Proof.
  unfold resolveSymbol. cbn [state internalContext tried].
  destruct (String.eqb (symbol_name m) "default");
    [intros E; injection E as <-; reflexivity |].
  destruct (findReflectionByName _ _) as [ref |].
  - destruct (getModule _ _ _); intros E; injection E as <-; reflexivity.
  - destruct noMissingExports; [intros E; injection E as <-; reflexivity |].
    match goal with
    | |- context [createInternalContext ?a ?b ?c] =>
        destruct (createInternalContext a b c) as [[ns rs2] | st] eqn:Hc
    end; [| discriminate].
    apply tried_createInternalContext in Hc.
    intros E. injection E as <-. exact Hc.
Qed.

Lemma tried_resolveSymbols (missing : SymbolSet.t) :
  forall rs rs',
    resolveAll missing rs = Returned rs' ->
    tried rs' = fold_left (fun t m => SymbolSet.add m t) missing (tried rs).
Proof.
  induction missing as [| m missing IH]; intros rs rs'; simpl.
  - intros E. injection E as <-. reflexivity.
  - destruct (resolve rs m) as [rs1 | st] eqn:Hm; [| discriminate].
    intros H. rewrite (IH _ _ H), (tried_resolveSymbol _ _ Hm). reflexivity.
Qed.

(** A round returns with the symbols it was given in [tried], which
    loses none, and with candidates that are new. *)
Lemma tried_resolveRound (rs rs' : Resolution) (missing missing' : SymbolSet.t) :
  round rs missing = Returned (rs', missing') ->
  (forall s, In s (tried rs') <-> In s (tried rs) \/ In s missing)
  /\ (forall s, In s missing' -> ~ In s (tried rs')).
Proof.
  unfold resolveRound.
  destruct (resolveAll missing rs) as [rs1 | st] eqn:Hall; [| discriminate].
  pose proof (tried_resolveSymbols _ _ Hall) as H1.
  destruct noMissingExports.
  - intros E. injection E as <- <-. split.
    + intros s. rewrite H1. apply addAll_In.
    + intros s Hs. apply deleteTried_In in Hs. tauto.
  - destruct (create rs1) as [[ns rs2] | st] eqn:Hc; [| discriminate].
    pose proof (tried_createInternalContext _ Hc) as H2.
    intros E. injection E as <- <-. split.
    + intros s. rewrite H2, H1. apply addAll_In.
    + intros s Hs. apply deleteTried_In in Hs. tauto.
Qed.

(** *** Invariants of the loop over one module *)

Section Invariant.

(** [Inv] holds of the resolution while the loop runs, [Abort] of the
    state an exception leaves. *)
Variable Inv : Resolution -> Prop.
Variable Abort : State -> Prop.

Hypothesis Inv_tried : forall rs m,
    Inv rs -> Inv (mkResolution (state rs) (internalContext rs)
                     (SymbolSet.add m (tried rs))).

Hypothesis Inv_register : forall rs m ref modCtx,
    Inv rs ->
    String.eqb (symbol_name m) "default" = false ->
    findReflectionByName (project (state rs)) (symbol_name m) = Some ref ->
    getModule modules (state rs) ref = Some modCtx ->
    Inv (setState (registerReflection modCtx ref m (state rs)) rs).

Hypothesis Inv_create : noMissingExports = false ->
    forall rs, Inv rs -> Ends (fun p => Inv (snd p)) Abort (create rs).

Hypothesis Inv_convert : noMissingExports = false ->
    forall rs ns m,
      Inv rs -> internalContext rs = Some ns ->
      String.eqb (symbol_name m) "default" = false ->
      Inv (setState (convertSymbol symbolDeclarations ns m (state rs)) rs).

Lemma resolveSymbol_invariant (rs : Resolution) (m : Symbol) :
  Inv rs -> Ends Inv Abort (resolve rs m).
Proof.
  intros H. unfold resolveSymbol.
  pose proof (Inv_tried m H) as H1.
  set (rs1 := mkResolution (state rs) (internalContext rs)
                (SymbolSet.add m (tried rs))) in *.
  destruct (String.eqb (symbol_name m) "default") eqn:Hname; [exact H1 |].
  change (state rs1) with (state rs).
  destruct (findReflectionByName (project (state rs)) (symbol_name m))
    as [ref |] eqn:Hfind.
  - destruct (getModule modules (state rs) ref) as [modCtx |] eqn:Hmod;
      [| exact H1].
    simpl. apply (Inv_register (rs := rs1)); assumption.
  - destruct noMissingExports eqn:Hno; [exact H1 |].
    pose proof (Inv_create eq_refl H1) as H2.
    destruct (create rs1) as [[ns rs2] | st] eqn:Hc; simpl in *; [| exact H2].
    apply Inv_convert; auto.
    eapply createInternalContext_memo. exact Hc.
Qed.

Lemma resolveSymbols_invariant (missing : SymbolSet.t) :
  forall rs, Inv rs -> Ends Inv Abort (resolveAll missing rs).
Proof.
  induction missing as [| m missing IH]; intros rs H; simpl; [exact H |].
  pose proof (resolveSymbol_invariant m H) as H1.
  destruct (resolve rs m) as [rs1 | st]; simpl in *; [apply IH | ]; assumption.
Qed.

Lemma resolveRound_invariant (rs : Resolution) (missing : SymbolSet.t) :
  Inv rs -> Ends (fun p => Inv (fst p)) Abort (round rs missing).
Proof.
  intros H. unfold resolveRound.
  pose proof (resolveSymbols_invariant missing H) as H1.
  destruct (resolveAll missing rs) as [rs1 | st]; simpl in *; [| exact H1].
  destruct noMissingExports eqn:Hno; [exact H1 |].
  pose proof (Inv_create eq_refl H1) as H2.
  destruct (create rs1) as [[ns rs2] | st]; simpl in *; exact H2.
Qed.

Lemma resolveLoop_invariant (fuel : nat) :
  forall rs missing out,
    Inv rs -> loop fuel rs missing = Some out -> Ends Inv Abort out.
Proof.
  induction fuel as [| fuel IH]; intros rs missing out H; simpl; [discriminate |].
  pose proof (resolveRound_invariant missing H) as H1.
  destruct (round rs missing) as [[rs1 missing1] | st]; simpl in H1.
  - destruct (0 <? SymbolSet.size missing1); intros E;
      [eapply IH; eassumption | injection E as <-; exact H1].
  - intros E. injection E as <-. exact H1.
Qed.

End Invariant.

(** A property of the state alone that holds of the state a call of
    [createInternalContext] leaves holds however the call ends. *)
Lemma Ends_createdState (P : State -> Prop) (rs : Resolution) :
  P (createdState (create rs)) -> Ends (fun p => P (state (snd p))) P (create rs).
Proof. destruct (create rs) as [[ns rs'] | st]; simpl; auto. Qed.

(** The state the first call leaves, however it ends. *)
Lemma createdState_first (rs : Resolution) :
  internalContext rs = None ->
  calls (createdState (create rs))
  = calls (state rs)
    ++ [SetActiveProgram (knownPrograms_get (knownPrograms (state rs)) currentModule);
        CreateDeclarationReflection currentModule ReflectionKind.Namespace
          internalNamespace (nextId (state rs));
        FinalizeDeclarationReflection (nextId (state rs))]
  /\ project (createdState (create rs))
     = addChildren currentModule
         [newDeclarationReflection (nextId (state rs)) internalNamespace
            ReflectionKind.Namespace]
         (project (state rs))
  /\ nextId (createdState (create rs)) = S (nextId (state rs))
  /\ symbolToReflectionIdMap (createdState (create rs))
     = symbolToReflectionIdMap (state rs)
  /\ program (createdState (create rs))
     = knownPrograms_get (knownPrograms (state rs)) currentModule.
Proof.
  intros Hmemo.
  destruct (createInternalContext_first rs Hmemo)
    as (st1 & H1 & H2 & H3 & H4 & H5 & _ & [(k & E & _) | (E & _)]);
    rewrite E; simpl; auto.
Qed.

Lemma createdState_later (rs : Resolution) (ns : nat) :
  internalContext rs = Some ns -> createdState (create rs) = state rs.
Proof. intros H. rewrite (createInternalContext_later _ H). reflexivity. Qed.

(** A call keeps every recorded program recorded and changes at most
    the program of the project. *)
Lemma knownPrograms_createInternalContext (rs : Resolution) :
  ProgramsKept (state rs) (createdState (create rs))
  /\ forall j,
      j <> id (project (state rs)) ->
      knownPrograms_get (knownPrograms (createdState (create rs))) j
      = knownPrograms_get (knownPrograms (state rs)) j.
Proof.
  unfold ProgramsKept.
  destruct (internalContext rs) as [ns |] eqn:Hmemo.
  - rewrite (createdState_later _ Hmemo). split; [intros j H; exact H | reflexivity].
  - destruct (createInternalContext_first rs Hmemo)
      as (st1 & _ & _ & _ & _ & _ & Hk & [(k & E & Hknown) | (E & _)]);
      rewrite E; simpl; [| rewrite Hk; split; [intros j H; exact H | reflexivity]].
    destruct Hknown as [-> | (p & ->)];
      [split; [intros j H; exact H | reflexivity] |].
    split.
    + intros j H. rewrite knownPrograms_get_set. destruct (_ =? _); congruence.
    + intros j Hj. rewrite knownPrograms_get_set.
      destruct (id (project (state rs)) =? j) eqn:Hid; [| reflexivity].
      apply Nat.eqb_eq in Hid. congruence.
Qed.

(** *** Termination of the loop *)

Lemma discoverMissingExportsOf_NoDup (st : State) (i : nat) :
  NoDup (discoverMissingExportsOf st i).
Proof.
  unfold discoverMissingExportsOf.
  destruct (getReflectionById i (project st)); [| constructor].
  apply discoverMissingExports_NoDup.
Qed.

(** A round that is given new, distinct symbols appends them to [tried]
    and returns distinct candidates. *)
Lemma resolveRound_fresh (rs rs' : Resolution) (missing missing' : SymbolSet.t) :
  round rs missing = Returned (rs', missing') ->
  NoDup missing -> (forall s, In s missing -> ~ In s (tried rs)) ->
  tried rs' = tried rs ++ missing /\ NoDup missing'.
Proof.
  unfold resolveRound. intros H Hnd Hnew.
  destruct (resolveAll missing rs) as [rs1 | st] eqn:Hall; [| discriminate].
  pose proof (tried_resolveSymbols _ _ Hall) as H1.
  rewrite addAll_fresh in H1 by assumption.
  destruct noMissingExports.
  - injection H as <- <-. split; [exact H1 |]. apply deleteTried_NoDup. exact Hnd.
  - destruct (create rs1) as [[ns rs2] | st] eqn:Hc; [| discriminate].
    pose proof (tried_createInternalContext _ Hc) as H2.
    injection H as <- <-. split; [congruence |].
    apply deleteTried_NoDup, discoverMissingExportsOf_NoDup.
Qed.

(** Every round the loop begins is given symbols that are distinct and
    have not been tried, and [tried] has lost none. *)
Lemma RoundReached_fresh (rs0 rs : Resolution) (missing0 missing : SymbolSet.t)
  (k : nat) :
  NoDup missing0 -> (forall s, In s missing0 -> ~ In s (tried rs0)) ->
  missing0 <> [] ->
  RoundReached findReflectionByName symbolDeclarations internalNamespace
    noMissingExports modules currentModule rs0 missing0 k rs missing ->
  NoDup missing
  /\ (forall s, In s missing -> ~ In s (tried rs))
  /\ missing <> []
  /\ incl (tried rs0) (tried rs).
Proof.
  intros Hnd Hnew Hne H. induction H as [| k rs1 rs2 m1 m2 H IH Hround Hsize].
  - split; [exact Hnd |]. split; [exact Hnew |]. split; [exact Hne | apply incl_refl].
  - destruct IH as (Hnd1 & Hnew1 & _ & Hincl).
    destruct (@resolveRound_fresh _ _ _ _ Hround Hnd1 Hnew1) as (Ht & Hnd2).
    destruct (@tried_resolveRound _ _ _ _ Hround) as (_ & Hnew2).
    split; [exact Hnd2 |]. split; [exact Hnew2 |]. split.
    + intros E. rewrite E in Hsize. simpl in Hsize. lia.
    + rewrite Ht. intros s Hs. apply in_app_iff. left. auto.
Qed.

Section Termination.

(** The symbols the tree and the compiler can mention. *)
Variable universe : list Symbol.

Hypothesis declarations_in_universe : forall m i r,
    In r (symbolDeclarations m i) -> incl (reflection_symbols r) universe.

Lemma SymbolsWithin_create (rs : Resolution) :
  SymbolsWithin universe (state rs) ->
  SymbolsWithin universe (createdState (create rs)).
Proof.
  intros H. destruct (internalContext rs) as [ns |] eqn:Hmemo.
  - rewrite (createdState_later _ Hmemo). exact H.
  - destruct (createdState_first rs Hmemo) as (_ & Hproj & _).
    unfold SymbolsWithin. rewrite Hproj.
    intros s Hs. apply symbols_addChildren in Hs. simpl in Hs.
    destruct Hs as [Hs | []]. apply H. assumption.
Qed.

Lemma SymbolsWithin_convert (st : State) (ns : nat) (m : Symbol) :
  SymbolsWithin universe st ->
  SymbolsWithin universe (convertSymbol symbolDeclarations ns m st).
Proof.
  unfold convertSymbol, SymbolsWithin. intros H s Hs.
  assert (Hs' : In s (reflection_symbols
                        (addChildren ns (symbolDeclarations m (nextId st)) (project st)))).
  { destruct (symbolDeclarations m (nextId st)); exact Hs. }
  apply symbols_addChildren in Hs'. destruct Hs' as [Hs' | Hs']; [auto |].
  apply in_flat_map in Hs'. destruct Hs' as (r & Hr & Hs').
  eapply declarations_in_universe; eassumption.
Qed.

Lemma SymbolsWithin_round (rs : Resolution) (missing : SymbolSet.t) :
  SymbolsWithin universe (state rs) ->
  Ends (fun p => SymbolsWithin universe (state (fst p))) (SymbolsWithin universe)
    (round rs missing).
Proof.
  apply (resolveRound_invariant (fun rs => SymbolsWithin universe (state rs))).
  - intros rs' m H. exact H.
  - intros rs' m ref modCtx H _ _ _. exact H.
  - intros _ rs' H. apply Ends_createdState, SymbolsWithin_create. assumption.
  - intros _ rs' ns m H _ _. apply SymbolsWithin_convert. assumption.
Qed.

Lemma discoverMissingExportsOf_within (st : State) (i : nat) :
  SymbolsWithin universe st -> incl (discoverMissingExportsOf st i) universe.
Proof.
  unfold discoverMissingExportsOf, SymbolsWithin. intros H.
  destruct (getReflectionById i (project st)) as [r |] eqn:Hr.
  - eapply incl_tran; [apply symbols_discoverMissingExports |].
    eapply incl_tran; [apply (symbols_getReflectionById _ _ Hr) | assumption].
  - intros s [].
Qed.

(** The candidates a round returns lie in the universe. *)
Lemma resolveRound_within (rs rs' : Resolution) (missing missing' : SymbolSet.t) :
  round rs missing = Returned (rs', missing') ->
  SymbolsWithin universe (state rs') -> incl missing universe ->
  incl missing' universe.
Proof.
  unfold resolveRound.
  destruct (resolveAll missing rs) as [rs1 | st]; [| discriminate].
  destruct noMissingExports.
  - intros E. injection E as <- <-. intros _ H s Hs.
    apply deleteTried_In in Hs. apply H. tauto.
  - destruct (create rs1) as [[ns rs2] | st]; [| discriminate].
    intros E. injection E as <- <-. intros H _ s Hs.
    apply deleteTried_In in Hs. destruct Hs as (Hs & _).
    eapply discoverMissingExportsOf_within; eassumption.
Qed.

Lemma length_within (l : list Symbol) :
  NoDup l -> incl l universe -> List.length l <= distinct universe.
Proof.
  intros Hnd Hincl. apply NoDup_incl_length; [assumption |].
  intros s Hs. apply nodup_In. auto.
Qed.

(** The loop ends, by a return or by an exception: every round puts at
    least one new symbol of the universe in [tried]. *)
Lemma resolveLoop_ends (fuel : nat) :
  forall rs missing,
    SymbolsWithin universe (state rs) ->
    NoDup (tried rs) -> NoDup missing ->
    incl (tried rs) universe -> incl missing universe ->
    (forall s, In s missing -> ~ In s (tried rs)) ->
    missing <> [] ->
    distinct universe <= fuel + List.length (tried rs) ->
    exists out,
      loop fuel rs missing = Some out
      /\ SymbolsWithin universe (endState out).
Proof.
  induction fuel as [| fuel IH];
    intros rs missing Hst Hnt Hnm Hit Him Hdisj Hne Hfuel.
  - exfalso.
    assert (Hlen : List.length (tried rs ++ missing) <= distinct universe).
    { apply length_within.
      - apply NoDup_app; [assumption | assumption |].
        intros s Hs Hs'. apply (Hdisj s); assumption.
      - apply incl_app; assumption. }
    rewrite length_app in Hlen. destruct missing; [congruence |].
    simpl in *. lia.
  - simpl.
    pose proof (@SymbolsWithin_round rs missing Hst) as Hst1.
    destruct (round rs missing) as [[rs1 missing1] | st] eqn:Hround;
      simpl in Hst1; [| eauto].
    destruct (@resolveRound_fresh _ _ _ _ Hround Hnm Hdisj) as (Htried & Hnm1).
    destruct (@tried_resolveRound _ _ _ _ Hround) as (_ & Hdisj1).
    pose proof (@resolveRound_within _ _ _ _ Hround Hst1 Him) as Him1.
    destruct missing1 as [| s rest] eqn:Hm1; [simpl; eauto |].
    change (0 <? SymbolSet.size (s :: rest)) with true. cbv iota.
    apply IH; try assumption.
    + rewrite Htried. apply NoDup_app; [assumption | assumption |].
      intros x Hx Hx'. apply (Hdisj x); assumption.
    + rewrite Htried. apply incl_app; assumption.
    + discriminate.
    + rewrite Htried, length_app. destruct missing; [congruence |]. simpl. lia.
Qed.

(** The processing of one module ends within as many rounds as there
    are distinct symbols. *)
Lemma resolveModule_ends (st : State) :
  SymbolsWithin universe st ->
  exists out,
    resolveModule findReflectionByName symbolDeclarations internalNamespace
      noMissingExports modules currentModule (distinct universe) st = Some out
    /\ SymbolsWithin universe (outcomeState out).
Proof.
  intros Hst. unfold resolveModule.
  destruct (SymbolSet.size (discoverMissingExportsOf st currentModule) =? 0) eqn:Hsize.
  - eauto.
  - destruct (@resolveLoop_ends (distinct universe) (mkResolution st None SymbolSet.empty)
                (discoverMissingExportsOf st currentModule))
      as (out & Hloop & Hst'); simpl.
    + assumption.
    + constructor.
    + apply discoverMissingExportsOf_NoDup.
    + intros s [].
    + apply discoverMissingExportsOf_within. assumption.
    + tauto.
    + intros E. rewrite E in Hsize. discriminate.
    + lia.
    + rewrite Hloop. destruct out as [rs' | st']; simpl in Hst'; [| eauto].
      pose proof (SymbolsWithin_create rs' Hst') as Hst2.
      destruct (create rs') as [[ns rs2] | st2]; simpl in Hst2; [| eauto].
      eexists. split; [reflexivity |].
      destruct (childrenOf (state rs2) ns); simpl; [| assumption].
      eapply incl_tran; [apply symbols_removeFromTree | assumption].
Qed.

End Termination.

End DriverFacts.

Section RunFacts.

Variable findReflectionByName : Reflection -> string -> option Reflection.
Variable symbolDeclarations : Symbol -> nat -> list Reflection.
Variable internalNamespace : string.
Variable noMissingExports : bool.

#[local] Abbreviation run :=
  (onResolveBegin findReflectionByName symbolDeclarations internalNamespace
     noMissingExports).
#[local] Abbreviation runModules :=
  (resolveModules findReflectionByName symbolDeclarations internalNamespace
     noMissingExports).
#[local] Abbreviation runModule :=
  (resolveModule findReflectionByName symbolDeclarations internalNamespace
     noMissingExports).

(** A relation between the state before one module and the state it
    ends in, reflexive and transitive, holds between the state before the
    loop over the modules and the state it ends in. *)
Lemma resolveModules_related (R : State -> State -> Prop) (fuel : nat)
  (modules : list nat) :
  (forall st, R st st) ->
  (forall a b c, R a b -> R b c -> R a c) ->
  (forall m st out, runModule modules m fuel st = Some out -> R st (outcomeState out)) ->
  forall todo st out, runModules fuel modules todo st = Some out -> R st (outcomeState out).
Proof.
  intros Hrefl Htrans Hstep.
  induction todo as [| m todo IH]; intros st out; simpl.
  - intros E. injection E as <-. apply Hrefl.
  - destruct (runModule modules m fuel st) as [[st1 | st1] |] eqn:Hm; [| | discriminate].
    + intros Hrest. eapply Htrans; [apply (Hstep _ _ _ Hm) | eapply IH; eassumption].
    + intros E. injection E as <-. apply (Hstep _ _ _ Hm).
Qed.

(** The whole phase ends within as many rounds per module as there are
    distinct symbols in the tree and in what the compiler declares. *)
Lemma onResolveBegin_ends (universe : list Symbol) (st : State) :
  (forall m i r,
      In r (symbolDeclarations m i) -> incl (reflection_symbols r) universe) ->
  incl (reflection_symbols (project st)) universe ->
  exists out, run (distinct universe) st = Some out.
Proof.
  intros Hdecl Hst. unfold onResolveBegin.
  assert (H : forall modules todo st0,
             SymbolsWithin universe st0 ->
             exists out, runModules (distinct universe) modules todo st0 = Some out).
  { intros modules todo. induction todo as [| m todo IH]; intros st0 H0; simpl.
    - eauto.
    - destruct (@resolveModule_ends findReflectionByName symbolDeclarations
                  internalNamespace noMissingExports modules m universe Hdecl st0 H0)
        as ([st1 | st1] & -> & H1); [apply IH; assumption | eauto]. }
  destruct (H (projectModules st) (projectModules st) st Hst) as ([st' | st'] & ->);
    eauto.
Qed.

End RunFacts.

(** ** What the driver writes to the log and to the bindings *)

Lemma creations_app (l l' : list Call) : creations (l ++ l') = creations l + creations l'.
Proof. unfold creations. rewrite filter_app, length_app. reflexivity. Qed.

Lemma creations_single (c : Call) : creations [c] = if isCreate c then 1 else 0.
Proof. unfold creations. simpl. destruct (isCreate c); reflexivity. Qed.

Lemma getReflectionFromSymbol_app (b b' : list (Symbol * nat)) (m : Symbol) :
  getReflectionFromSymbol (b ++ b') m
  = match getReflectionFromSymbol b m with
    | Some i => Some i
    | None => getReflectionFromSymbol b' m
    end.
Proof.
  induction b as [| [s i] b IH]; simpl; [reflexivity |].
  destruct (Symbol_eq_dec m s); [reflexivity | assumption].
Qed.

(** Binding one symbol does not change what another is bound to. *)
Lemma getReflectionFromSymbol_bindSymbol_other (b : list (Symbol * nat))
  (m m' : Symbol) (i : nat) :
  m <> m' ->
  getReflectionFromSymbol (bindSymbol b m' i) m = getReflectionFromSymbol b m.
Proof.
  intros Hne. unfold bindSymbol.
  destruct (getReflectionFromSymbol b m'); [reflexivity |].
  rewrite getReflectionFromSymbol_app. simpl.
  destruct (Symbol_eq_dec m m'); [contradiction |].
  destruct (getReflectionFromSymbol b m); reflexivity.
Qed.

Lemma getReflectionFromSymbol_filter (p : Symbol * nat -> bool)
  (b : list (Symbol * nat)) (m : Symbol) :
  getReflectionFromSymbol b m = None ->
  getReflectionFromSymbol (filter p b) m = None.
Proof.
  induction b as [| [s i] b IH]; simpl; [reflexivity |].
  destruct (Symbol_eq_dec m s) as [-> | Hne] eqn:E; [discriminate |].
  intros H. destruct (p (s, i)); simpl; [rewrite E |]; auto.
Qed.

Lemma calls_convertSymbol (symbolDeclarations : Symbol -> nat -> list Reflection)
  (ns : nat) (m : Symbol) (st : State) :
  calls (convertSymbol symbolDeclarations ns m st) = calls st ++ [ConvertSymbol ns m].
Proof.
  unfold convertSymbol. destruct (symbolDeclarations m (nextId st)); reflexivity.
Qed.

Lemma project_convertSymbol (symbolDeclarations : Symbol -> nat -> list Reflection)
  (ns : nat) (m : Symbol) (st : State) :
  project (convertSymbol symbolDeclarations ns m st)
  = addChildren ns (symbolDeclarations m (nextId st)) (project st).
Proof.
  unfold convertSymbol. destruct (symbolDeclarations m (nextId st)); reflexivity.
Qed.

Lemma nextId_convertSymbol (symbolDeclarations : Symbol -> nat -> list Reflection)
  (ns : nat) (m : Symbol) (st : State) :
  nextId (convertSymbol symbolDeclarations ns m st)
  = nextId st + list_sum (map reflection_size (symbolDeclarations m (nextId st))).
Proof.
  unfold convertSymbol. destruct (symbolDeclarations m (nextId st)); reflexivity.
Qed.

Lemma bindings_convertSymbol (symbolDeclarations : Symbol -> nat -> list Reflection)
  (ns : nat) (m : Symbol) (st : State) :
  symbolToReflectionIdMap (convertSymbol symbolDeclarations ns m st)
  = match symbolDeclarations m (nextId st) with
    | d :: _ => bindSymbol (symbolToReflectionIdMap st) m (id d)
    | [] => symbolToReflectionIdMap st
    end.
Proof.
  unfold convertSymbol. destruct (symbolDeclarations m (nextId st)); reflexivity.
Qed.

(** ** The internal namespace of one module *)

Section NamespaceFacts.

Variable findReflectionByName : Reflection -> string -> option Reflection.
Variable symbolDeclarations : Symbol -> nat -> list Reflection.
Variable internalNamespace : string.
Variable noMissingExports : bool.
Variable modules : list nat.
Variable currentModule : nat.

#[local] Abbreviation create := (createInternalContext internalNamespace currentModule).
#[local] Abbreviation loop :=
  (resolveLoop findReflectionByName symbolDeclarations internalNamespace
     noMissingExports modules currentModule).
#[local] Abbreviation runModule :=
  (resolveModule findReflectionByName symbolDeclarations internalNamespace
     noMissingExports modules currentModule).

(** *** How often it is created *)

(** However the call ends, the log then holds one creation more than
    [base]. *)
Lemma creations_createInternalContext (base : nat) (rs : Resolution) :
  creations (calls (state rs)) = base + memo rs ->
  Ends (fun p => creations (calls (state (snd p))) = base + memo (snd p)
                 /\ memo (snd p) = 1)
    (fun st => creations (calls st) = base + 1) (create rs).
Proof.
  intros H. unfold memo in H. destruct (internalContext rs) as [ns |] eqn:Hmemo.
  - rewrite (createInternalContext_later _ _ _ Hmemo). simpl. unfold memo.
    rewrite Hmemo. auto.
  - destruct (createInternalContext_first internalNamespace currentModule rs Hmemo)
      as (st1 & Hcalls & _ & _ & _ & _ & _ & [(k & E & _) | (E & _)]); rewrite E; simpl;
      rewrite Hcalls, creations_app; unfold creations at 2; simpl; unfold memo; simpl;
      try split; lia.
Qed.

(** The log holds one creation more than [base] once the memo is set. *)
Lemma creations_loop (base fuel : nat) (rs : Resolution) (missing : SymbolSet.t)
  (out : Outcome Resolution) :
  creations (calls (state rs)) = base + memo rs ->
  loop fuel rs missing = Some out ->
  Ends (fun rs' => creations (calls (state rs')) = base + memo rs')
    (fun st => creations (calls st) = base + 1) out.
Proof.
  apply (@resolveLoop_invariant findReflectionByName symbolDeclarations
           internalNamespace noMissingExports modules currentModule
           (fun rs => creations (calls (state rs)) = base + memo rs)
           (fun st => creations (calls st) = base + 1)).
  - intros rs0 m H. exact H.
  - intros rs0 m ref modCtx H _ _ _. simpl.
    rewrite creations_app. unfold creations at 2. simpl.
    change (memo (setState _ rs0)) with (memo rs0). lia.
  - intros _ rs0 H. eapply Ends_impl; [| | apply creations_createInternalContext, H];
      cbv beta; [tauto | auto].
  - intros _ rs0 ns m H _ _.
    change (memo (setState _ rs0)) with (memo rs0). unfold setState. cbn [state].
    rewrite calls_convertSymbol, creations_app. unfold creations at 2. simpl. lia.
Qed.

(** One module adds exactly one creation to the log when the collector
    finds something missing in it, and none otherwise, however its
    processing ends. *)
Lemma creations_resolveModule (fuel : nat) (st : State) (out : Outcome State) :
  runModule fuel st = Some out ->
  creations (calls (outcomeState out))
  = creations (calls st)
    + (if SymbolSet.size (discoverMissingExportsOf st currentModule) =? 0
       then 0 else 1).
Proof.
  unfold resolveModule.
  destruct (SymbolSet.size (discoverMissingExportsOf st currentModule) =? 0).
  - intros E. injection E as <-. simpl. lia.
  - destruct (loop fuel (mkResolution st None SymbolSet.empty)
                (discoverMissingExportsOf st currentModule)) as [out1 |] eqn:Hloop;
      [| discriminate].
    apply (@creations_loop (creations (calls st))) in Hloop; [| unfold memo; simpl; lia].
    destruct out1 as [rs | st1]; simpl in Hloop.
    + pose proof (@creations_createInternalContext _ _ Hloop) as H1.
      destruct (create rs) as [[ns rs2] | st2]; simpl in H1.
      * destruct H1 as (H1 & H2). intros E. injection E as <-.
        destruct (childrenOf (state rs2) ns); simpl;
          rewrite ?creations_app, ?creations_single; simpl; lia.
      * intros E. injection E as <-. exact H1.
    + intros E. injection E as <-. exact Hloop.
Qed.

(** *** Whether it stays *)

Lemma NamespaceTracked_create (st0 : State) (rs : Resolution) :
  NamespaceTracked internalNamespace currentModule st0 rs ->
  Ends (fun p => NamespaceTracked internalNamespace currentModule st0 (snd p))
    (fun _ => True) (create rs).
Proof.
  intros HT.
  destruct (internalContext rs) as [ns |] eqn:H.
  - rewrite (createInternalContext_later _ _ _ H). exact HT.
  - destruct HT as (Hc & Hid & Hm & Hn).
    destruct (createInternalContext_first internalNamespace currentModule rs H)
      as (st1 & Hcalls & Hproj & Hnext & _ & _ & _ & [(known & E & _) | (E & _)]);
      rewrite E; [| exact I]; clear E.
    unfold Ends, NamespaceTracked. cbn [snd state internalContext setKnownPrograms
      calls project nextId].
    rewrite Hcalls, Hproj, Hnext, id_addChildren.
    split; [| split; [| split]]; try assumption; try lia.
    + intros scope k n i Hin. apply in_app_iff in Hin. destruct Hin as [Hin | Hin].
      * destruct (Hc _ _ _ _ Hin) as [Hold | (Hnew & _)]; [tauto | congruence].
      * simpl in Hin. destruct Hin as [Hin | [Hin | [Hin | []]]]; try discriminate.
        injection Hin as <- <- <- <-. tauto.
    + intros i E. injection E as <-. lia.
Qed.

Lemma NamespaceTracked_loop (st0 : State) (fuel : nat) (rs rs' : Resolution)
  (missing : SymbolSet.t) :
  NamespaceTracked internalNamespace currentModule st0 rs ->
  loop fuel rs missing = Some (Returned rs') ->
  NamespaceTracked internalNamespace currentModule st0 rs'.
Proof.
  intros H Hloop.
  apply (@resolveLoop_invariant findReflectionByName symbolDeclarations
           internalNamespace noMissingExports modules currentModule
           (NamespaceTracked internalNamespace currentModule st0) (fun _ => True))
    with (fuel := fuel) (rs := rs) (missing := missing) (out := Returned rs');
    [| | | | exact H | exact Hloop]; clear H Hloop.
  - intros rs0 m H. exact H.
  - intros rs0 m ref modCtx (Hc & Hid & Hm & Hn) _ _ _.
    unfold NamespaceTracked. simpl. split; [| split; [| split]]; try assumption.
    intros scope k n i Hin. apply in_app_iff in Hin. destruct Hin as [Hin | Hin].
    + auto.
    + simpl in Hin. destruct Hin as [Hin | []]. discriminate.
  - intros _ rs0 H. apply NamespaceTracked_create. assumption.
  - intros _ rs0 ns m (Hc & Hid & Hm & Hn) _ _.
    unfold NamespaceTracked, setState. cbn [state internalContext].
    rewrite calls_convertSymbol, project_convertSymbol, nextId_convertSymbol,
      id_addChildren.
    split; [| split; [| split]]; try assumption; try lia.
    + intros scope k n i Hin. apply in_app_iff in Hin. destruct Hin as [Hin | Hin].
      * auto.
      * simpl in Hin. destruct Hin as [Hin | []]. discriminate.
    + intros i E. specialize (Hm i E). lia.
Qed.

(** After a module, each creation it added to the log is that of its
    internal namespace, which is gone from the tree or has children. *)
Lemma namespace_after_resolveModule (fuel : nat) (st st' : State) :
  id (project st) < nextId st ->
  runModule fuel st = Some (Returned st') ->
  forall scope k n i,
    In (CreateDeclarationReflection scope k n i) (calls st') ->
    In (CreateDeclarationReflection scope k n i) (calls st)
    \/ (scope = currentModule /\ k = ReflectionKind.Namespace
        /\ n = internalNamespace /\ i < nextId st'
        /\ NotEmptyIn (project st') i).
Proof.
  intros Hroot. unfold resolveModule.
  destruct (SymbolSet.size (discoverMissingExportsOf st currentModule) =? 0).
  { intros E. injection E as <-. tauto. }
  destruct (loop fuel (mkResolution st None SymbolSet.empty)
              (discoverMissingExportsOf st currentModule)) as [[rs | st1] |] eqn:Hloop;
    [| discriminate | discriminate].
  apply (@NamespaceTracked_loop st) in Hloop.
  2:{ unfold NamespaceTracked. simpl.
      split; [| split; [| split]]; try tauto; try lia. discriminate. }
  apply NamespaceTracked_create in Hloop.
  destruct (create rs) as [[ns rs2] | st2] eqn:Hcreate; [| discriminate].
  pose proof (createInternalContext_memo _ _ _ Hcreate) as Hmemo.
  simpl in Hloop.
  destruct Hloop as (Hc & Hid & Hm & Hn). specialize (Hm ns Hmemo).
  intros E. injection E as <-. intros scope k n i Hin.
  assert (Hin' : In (CreateDeclarationReflection scope k n i) (calls (state rs2))).
  { destruct (childrenOf (state rs2) ns); simpl in Hin;
      repeat (apply in_app_iff in Hin; destruct Hin as [Hin | Hin]);
      try assumption; simpl in Hin; destruct Hin as [Hin | []]; discriminate. }
  destruct (Hc _ _ _ _ Hin') as [Hold | (Hnew & -> & -> & ->)]; [tauto | right].
  rewrite Hmemo in Hnew. injection Hnew as <-.
  split; [reflexivity |]. split; [reflexivity |]. split; [reflexivity |].
  unfold NotEmptyIn, childrenOf.
  destruct (getReflectionById ns (project (state rs2))) as [r |] eqn:Hr.
  - destruct (children r) as [| c cs] eqn:Hcs; simpl.
    + split; [lia |]. rewrite getReflectionById_removeFromTree; [exact I | lia].
    + split; [lia |]. rewrite Hr, Hcs. discriminate.
  - simpl. split; [lia |]. rewrite getReflectionById_removeFromTree; [exact I | lia].
Qed.

End NamespaceFacts.

(** ** Symbols named [default] *)

Lemma DefaultUntouched_refl (st : State) : DefaultUntouched st st.
Proof. split; auto. Qed.

Lemma DefaultUntouched_trans (a b c : State) :
  DefaultUntouched a b -> DefaultUntouched b c -> DefaultUntouched a c.
Proof.
  intros (H1 & H2) (H3 & H4). split.
  - intros x Hx. destruct (H3 x Hx) as [H | H]; auto.
  - auto.
Qed.

(** A step that logs calls not made for [default] and binds no symbol of
    that name. *)
Lemma DefaultUntouched_step (st0 st st' : State) (l : list Call) :
  DefaultUntouched st0 st ->
  calls st' = calls st ++ l ->
  Forall NotForDefault l ->
  (forall m,
      symbol_name m = "default"%string ->
      getReflectionFromSymbol (symbolToReflectionIdMap st) m = None ->
      getReflectionFromSymbol (symbolToReflectionIdMap st') m = None) ->
  DefaultUntouched st0 st'.
Proof.
  intros (H1 & H2) Hcalls Hl Hb. split.
  - intros c Hc. rewrite Hcalls in Hc. apply in_app_iff in Hc.
    destruct Hc as [Hc | Hc]; [auto |].
    right. rewrite Forall_forall in Hl. auto.
  - auto.
Qed.

Lemma not_default (m : Symbol) :
  String.eqb (symbol_name m) "default" = false -> symbol_name m <> "default"%string.
Proof. intros H E. rewrite E in H. discriminate. Qed.

Section DefaultFacts.

Variable findReflectionByName : Reflection -> string -> option Reflection.
Variable symbolDeclarations : Symbol -> nat -> list Reflection.
Variable internalNamespace : string.
Variable noMissingExports : bool.

Lemma DefaultUntouched_create (currentModule : nat) (st0 : State) (rs : Resolution) :
  DefaultUntouched st0 (state rs) ->
  DefaultUntouched st0
    (createdState (createInternalContext internalNamespace currentModule rs)).
Proof.
  intros H. destruct (internalContext rs) as [ns |] eqn:Hm.
  - rewrite (createdState_later _ _ _ Hm). exact H.
  - destruct (createdState_first internalNamespace currentModule rs Hm)
      as (Hcalls & _ & _ & Hb & _).
    eapply DefaultUntouched_step; [exact H | exact Hcalls | |].
    + repeat constructor.
    + intros m _. rewrite Hb. tauto.
Qed.

Lemma DefaultUntouched_loop (modules : list nat) (currentModule : nat) (st0 : State)
  (fuel : nat) (rs : Resolution) (missing : SymbolSet.t) (out : Outcome Resolution) :
  DefaultUntouched st0 (state rs) ->
  resolveLoop findReflectionByName symbolDeclarations internalNamespace
    noMissingExports modules currentModule fuel rs missing = Some out ->
  DefaultUntouched st0 (endState out).
Proof.
  intros H Hloop.
  assert (HE : Ends (fun rs => DefaultUntouched st0 (state rs)) (DefaultUntouched st0)
                 out).
  { revert H Hloop.
    apply (@resolveLoop_invariant findReflectionByName symbolDeclarations
             internalNamespace noMissingExports modules currentModule
             (fun rs => DefaultUntouched st0 (state rs)) (DefaultUntouched st0)).
    - intros rs0 m H. exact H.
    - intros rs0 m ref modCtx H Hname _ _. apply not_default in Hname.
      eapply DefaultUntouched_step; [exact H | reflexivity | |].
      + repeat constructor. exact Hname.
      + intros m0 Hm0 Hnone. simpl.
        rewrite getReflectionFromSymbol_bindSymbol_other; [assumption | congruence].
    - intros _ rs0 H. apply Ends_createdState, DefaultUntouched_create. assumption.
    - intros _ rs0 ns m H _ Hname. apply not_default in Hname.
      unfold setState. cbn [state].
      eapply DefaultUntouched_step; [exact H | apply calls_convertSymbol | |].
      + repeat constructor. exact Hname.
      + intros m0 Hm0 Hnone. rewrite bindings_convertSymbol.
        destruct (symbolDeclarations m (nextId (state rs0))); [assumption |].
        rewrite getReflectionFromSymbol_bindSymbol_other; [assumption | congruence]. }
  destruct out; exact HE.
Qed.

Lemma DefaultUntouched_resolveModule (modules : list nat) (currentModule fuel : nat)
  (st : State) (out : Outcome State) :
  resolveModule findReflectionByName symbolDeclarations internalNamespace
    noMissingExports modules currentModule fuel st = Some out ->
  DefaultUntouched st (outcomeState out).
Proof.
  unfold resolveModule.
  destruct (SymbolSet.size (discoverMissingExportsOf st currentModule) =? 0).
  { intros E. injection E as <-. apply DefaultUntouched_refl. }
  destruct (resolveLoop _ _ _ _ _ _ _ _ _) as [out1 |] eqn:Hloop; [| discriminate].
  apply (@DefaultUntouched_loop modules currentModule st) in Hloop;
    [| apply DefaultUntouched_refl].
  destruct out1 as [rs | st1]; simpl in Hloop;
    [| intros E; injection E as <-; exact Hloop].
  apply (DefaultUntouched_create currentModule) in Hloop.
  destruct (createInternalContext internalNamespace currentModule rs)
    as [[ns rs2] | st2]; simpl in Hloop; intros E; injection E as <-;
    [| exact Hloop].
  eapply DefaultUntouched_step with (l := [SetActiveProgram None]);
    [| reflexivity | repeat constructor | auto].
  destruct (childrenOf (state rs2) ns); [| exact Hloop].
  eapply DefaultUntouched_step with (l := [RemoveReflection ns]);
    [exact Hloop | reflexivity | repeat constructor |].
  intros m _ Hnone. simpl. apply getReflectionFromSymbol_filter. assumption.
Qed.

Lemma DefaultUntouched_onResolveBegin (fuel : nat) (st : State) (out : Outcome State) :
  onResolveBegin findReflectionByName symbolDeclarations internalNamespace
    noMissingExports fuel st = Some out ->
  DefaultUntouched st (outcomeState out).
Proof.
  unfold onResolveBegin.
  destruct (resolveModules _ _ _ _ _ _ _ _) as [out1 |] eqn:Hrun; [| discriminate].
  apply (@resolveModules_related findReflectionByName symbolDeclarations
           internalNamespace noMissingExports DefaultUntouched fuel
           (projectModules st)) in Hrun.
  - destruct out1; intros E; injection E as <-; exact Hrun.
  - apply DefaultUntouched_refl.
  - apply DefaultUntouched_trans.
  - intros m a b. apply DefaultUntouched_resolveModule.
Qed.

End DefaultFacts.

(** ** With synthesis switched off *)

Lemma firstSome_app (A B : Type) (f : A -> option B) (l l' : list A) :
  firstSome f (l ++ l')
  = match firstSome f l with
    | Some b => Some b
    | None => firstSome f l'
    end.
Proof.
  induction l as [| a l IH]; simpl; [reflexivity |].
  destruct (f a); [reflexivity | assumption].
Qed.

Lemma idsBelow_id (n : nat) (r : Reflection) : idsBelow n r = true -> id r <> n.
Proof.
  rewrite idsBelow_unfold. intros H. apply andb_true_iff in H.
  destruct H as (H & _). apply Nat.ltb_lt in H. lia.
Qed.

Lemma idsBelow_mono (n n' : nat) (r : Reflection) :
  n <= n' -> idsBelow n r = true -> idsBelow n' r = true.
Proof.
  intros Hle. induction r as [r IH] using Reflection_children_ind.
  rewrite Forall_forall in IH. rewrite !idsBelow_unfold. intros H.
  apply andb_true_iff in H. destruct H as (H1 & H2).
  apply andb_true_iff. split.
  - apply Nat.ltb_lt. apply Nat.ltb_lt in H1. lia.
  - rewrite forallb_forall in *. auto.
Qed.

(** An id that was never given out finds nothing. *)
Lemma getReflectionById_fresh (n : nat) (r : Reflection) :
  idsBelow n r = true -> getReflectionById n r = None.
Proof.
  induction r as [r IH] using Reflection_children_ind.
  rewrite Forall_forall in IH. intros Hr.
  rewrite getReflectionById_unfold.
  pose proof (idsBelow_id _ Hr) as Hne. apply Nat.eqb_neq in Hne. rewrite Hne.
  apply firstSome_None. intros c Hc. apply IH; [assumption |].
  eapply idsBelow_children; eassumption.
Qed.

(** The id just given out finds the reflection just created. *)
Lemma getReflectionById_addChildren_fresh (n scope : nat) (nm : string) (k : N)
  (r x : Reflection) :
  idsBelow n r = true ->
  getReflectionById n (addChildren scope [newDeclarationReflection n nm k] r) = Some x ->
  x = newDeclarationReflection n nm k.
Proof.
  unfold addChildren. revert x.
  induction r as [r IH] using Reflection_children_ind. intros x Hr.
  rewrite Forall_forall in IH.
  pose proof (idsBelow_id _ Hr) as Hne. apply Nat.eqb_neq in Hne.
  rewrite updateReflection_unfold. destruct (id r =? scope).
  - destruct (isContainerReflection r).
    + rewrite getReflectionById_unfold, id_withChildren, Hne, children_withChildren,
        firstSome_app.
      rewrite firstSome_None.
      * simpl. rewrite Nat.eqb_refl. intros E. injection E as <-. reflexivity.
      * intros c Hc. apply getReflectionById_fresh.
        eapply idsBelow_children; eassumption.
    + rewrite getReflectionById_fresh by assumption. discriminate.
  - rewrite getReflectionById_unfold, id_withChildren, Hne, children_withChildren.
    intros H. apply firstSome_Some in H. destruct H as (c' & Hc' & H).
    apply in_map_iff in Hc'. destruct Hc' as (c & <- & Hc).
    apply (IH c Hc x); [| assumption]. eapply idsBelow_children; eassumption.
Qed.

Lemma TreeUnchanged_refl (find : Reflection -> string -> option Reflection) (st : State) :
  TreeUnchanged find st st.
Proof. unfold TreeUnchanged. split; [| split; [| split]]; auto. Qed.

Lemma TreeUnchanged_trans (find : Reflection -> string -> option Reflection)
  (a b c : State) :
  TreeUnchanged find a b -> TreeUnchanged find b c -> TreeUnchanged find a c.
Proof.
  intros (H1 & H2 & H3 & H4) (H5 & H6 & H7 & H8). unfold TreeUnchanged.
  rewrite H1 in H8. split; [| split; [| split]].
  - congruence.
  - lia.
  - auto.
  - auto.
Qed.

Lemma TreeUnchanged_Unsynthesized (find : Reflection -> string -> option Reflection)
  (a b : State) :
  TreeUnchanged find a b -> Unsynthesized find a b.
Proof. intros (_ & _ & H3 & H4). split; assumption. Qed.

Lemma Unsynthesized_after (find : Reflection -> string -> option Reflection)
  (a b c : State) :
  TreeUnchanged find a b -> Unsynthesized find b c -> Unsynthesized find a c.
Proof.
  intros (H1 & _ & H3 & H4) (H5 & H6). rewrite H1 in H6. split; auto.
Qed.

(** ** The programs [knownPrograms] remembers *)

Lemma SamePrograms_refl (st : State) : SamePrograms st st.
Proof. split; [reflexivity |]. split; [intros j H; exact H | reflexivity]. Qed.

Lemma SamePrograms_trans (a b c : State) :
  SamePrograms a b -> SamePrograms b c -> SamePrograms a c.
Proof.
  intros (H1 & H2 & H3) (H4 & H5 & H6). split; [congruence |]. split.
  - intros j H. auto.
  - intros j Hj. rewrite H6 by congruence. auto.
Qed.

(** A step that leaves [knownPrograms] and the id of the project alone. *)
Lemma SamePrograms_step (st0 st st' : State) :
  SamePrograms st0 st ->
  knownPrograms st' = knownPrograms st -> id (project st') = id (project st) ->
  SamePrograms st0 st'.
Proof.
  intros (H1 & H2 & H3) Hk Hid. unfold SamePrograms, ProgramsKept in *.
  rewrite Hk, Hid. auto.
Qed.

Section ProgramFacts.

Variable findReflectionByName : Reflection -> string -> option Reflection.
Variable symbolDeclarations : Symbol -> nat -> list Reflection.
Variable internalNamespace : string.
Variable noMissingExports : bool.
Variable modules : list nat.

Lemma SamePrograms_create (currentModule : nat) (st0 : State) (rs : Resolution) :
  SamePrograms st0 (state rs) ->
  SamePrograms st0
    (createdState (createInternalContext internalNamespace currentModule rs)).
Proof.
  intros H. eapply SamePrograms_trans; [exact H |].
  destruct (knownPrograms_createInternalContext internalNamespace currentModule rs)
    as (Hkept & Hsame).
  split; [| split; assumption].
  destruct (internalContext rs) as [ns |] eqn:Hmemo.
  - rewrite (createdState_later _ _ _ Hmemo). reflexivity.
  - destruct (createdState_first internalNamespace currentModule rs Hmemo)
      as (_ & -> & _).
    apply id_addChildren.
Qed.

Lemma knownPrograms_convertSymbol (ns : nat) (m : Symbol) (st : State) :
  knownPrograms (convertSymbol symbolDeclarations ns m st) = knownPrograms st.
Proof.
  unfold convertSymbol. destruct (symbolDeclarations m (nextId st)); reflexivity.
Qed.

(** From the start of a module to the state it ends in, whichever way. *)
Lemma SamePrograms_resolveModule (currentModule fuel : nat) (st : State)
  (out : Outcome State) :
  resolveModule findReflectionByName symbolDeclarations internalNamespace
    noMissingExports modules currentModule fuel st = Some out ->
  SamePrograms st (outcomeState out).
Proof.
  unfold resolveModule.
  destruct (SymbolSet.size (discoverMissingExportsOf st currentModule) =? 0).
  { intros E. injection E as <-. apply SamePrograms_refl. }
  destruct (resolveLoop _ _ _ _ _ _ _ _ _) as [out1 |] eqn:Hloop; [| discriminate].
  assert (H : Ends (fun rs => SamePrograms st (state rs)) (SamePrograms st) out1).
  { revert Hloop.
    apply (@resolveLoop_invariant findReflectionByName symbolDeclarations
             internalNamespace noMissingExports modules currentModule
             (fun rs => SamePrograms st (state rs)) (SamePrograms st)).
    - intros rs m H. exact H.
    - intros rs m ref modCtx H _ _ _.
      eapply SamePrograms_step; [exact H | reflexivity | reflexivity].
    - intros _ rs H. apply Ends_createdState, SamePrograms_create. exact H.
    - intros _ rs ns m H _ _. unfold setState. cbn [state].
      eapply SamePrograms_step; [exact H | apply knownPrograms_convertSymbol |].
      rewrite project_convertSymbol. apply id_addChildren.
    - apply SamePrograms_refl. }
  destruct out1 as [rs | st1]; simpl in H; [| intros E; injection E as <-; exact H].
  apply (@SamePrograms_create currentModule) in H.
  destruct (createInternalContext internalNamespace currentModule rs)
    as [[ns rs2] | st2]; simpl in H; intros E; injection E as <-; [| exact H].
  destruct (childrenOf (state rs2) ns); simpl.
  - eapply SamePrograms_step; [exact H | reflexivity |]. simpl.
    apply id_removeFromTree.
  - eapply SamePrograms_step; [exact H | reflexivity | reflexivity].
Qed.

Lemma SamePrograms_resolveModules (fuel : nat) (todo : list nat) (st : State)
  (out : Outcome State) :
  resolveModules findReflectionByName symbolDeclarations internalNamespace
    noMissingExports fuel modules todo st = Some out ->
  SamePrograms st (outcomeState out).
Proof.
  apply (@resolveModules_related findReflectionByName symbolDeclarations
           internalNamespace noMissingExports SamePrograms fuel modules).
  - apply SamePrograms_refl.
  - apply SamePrograms_trans.
  - intros m a b. apply SamePrograms_resolveModule.
Qed.

End ProgramFacts.

Lemma ProgramsRecorded_kept (st st' : State) (modules : list nat) :
  ProgramsRecorded st modules -> SamePrograms st st' -> ProgramsRecorded st' modules.
Proof. intros H (_ & Hkept & _) i Hi. apply Hkept, H, Hi. Qed.

(** ** With synthesis switched off *)

Section NoSynthesis.

Variable findReflectionByName : Reflection -> string -> option Reflection.
Variable symbolDeclarations : Symbol -> nat -> list Reflection.
Variable internalNamespace : string.
Variable modules : list nat.
Variable currentModule : nat.

#[local] Abbreviation resolveAll :=
  (resolveSymbols findReflectionByName symbolDeclarations internalNamespace
     true modules currentModule).
#[local] Abbreviation loop :=
  (resolveLoop findReflectionByName symbolDeclarations internalNamespace
     true modules currentModule).

(** During the round the tree, the counter, the memo and [knownPrograms]
    stay as they are, only symbols whose name finds a reflection are
    bound, and no exception is thrown. *)
Lemma round_without_synthesis (st0 : State) (missing : SymbolSet.t) (rs : Resolution) :
  TreeUnchanged findReflectionByName st0 (state rs)
  /\ nextId (state rs) = nextId st0 /\ internalContext rs = None
  /\ knownPrograms (state rs) = knownPrograms st0 ->
  exists rs',
    resolveAll missing rs = Returned rs'
    /\ TreeUnchanged findReflectionByName st0 (state rs')
    /\ nextId (state rs') = nextId st0 /\ internalContext rs' = None
    /\ knownPrograms (state rs') = knownPrograms st0.
Proof.
  intros H.
  assert (HE : Ends (fun rs => TreeUnchanged findReflectionByName st0 (state rs)
                               /\ nextId (state rs) = nextId st0
                               /\ internalContext rs = None
                               /\ knownPrograms (state rs) = knownPrograms st0)
                 (fun _ => False) (resolveAll missing rs)).
  { revert H.
    apply (@resolveSymbols_invariant findReflectionByName symbolDeclarations
             internalNamespace true modules currentModule
             (fun rs => TreeUnchanged findReflectionByName st0 (state rs)
                        /\ nextId (state rs) = nextId st0
                        /\ internalContext rs = None
                        /\ knownPrograms (state rs) = knownPrograms st0)
             (fun _ => False)).
    - intros rs0 m H. exact H.
    - intros rs0 m ref modCtx ((H1 & H2 & H3 & H4) & Hn & Hm & Hk) Hname Hfind Hmod.
      unfold TreeUnchanged. simpl.
      split; [split; [| split; [| split]] | split; [| split]]; try assumption.
      + intros scope m0 Hin. apply in_app_iff in Hin. destruct Hin as [Hin | Hin].
        * auto.
        * simpl in Hin. destruct Hin as [Hin | []]. discriminate.
      + intros m0 Hfind0 Hnone.
        rewrite getReflectionFromSymbol_bindSymbol_other; [auto |].
        intros ->. rewrite H1 in Hfind. congruence.
    - discriminate.
    - discriminate. }
  destruct (resolveAll missing rs) as [rs' | st]; simpl in HE; [eauto | destruct HE].
Qed.

(** With [noMissingExports] the loop makes one round. *)
Lemma resolveLoop_one_round (fuel : nat) (rs rs' : Resolution) (missing : SymbolSet.t) :
  resolveAll missing rs = Returned rs' ->
  loop (S fuel) rs missing = Some (Returned rs').
Proof.
  intros H. simpl. unfold resolveRound. rewrite H.
  rewrite deleteTried_all; [reflexivity |].
  intros s Hs. rewrite (tried_resolveSymbols _ _ _ _ _ _ _ _ H). apply addAll_In. tauto.
Qed.

(** One module: its processing ends; no symbol is converted; when it
    returns the tree is as it was; and it returns when a program was
    recorded for the module. *)
Lemma resolveModule_without_synthesis (fuel : nat) (st : State) :
  idsBelow (nextId st) (project st) = true ->
  exists out,
    resolveModule findReflectionByName symbolDeclarations internalNamespace
      true modules currentModule (S fuel) st = Some out
    /\ Ends (TreeUnchanged findReflectionByName st)
         (Unsynthesized findReflectionByName st) out
    /\ (knownPrograms_get (knownPrograms st) currentModule <> None ->
        exists st', out = Returned st').
Proof.
  intros Hids. unfold resolveModule.
  destruct (SymbolSet.size (discoverMissingExportsOf st currentModule) =? 0).
  { eexists. split; [reflexivity |]. split; [apply TreeUnchanged_refl | eauto]. }
  destruct (@round_without_synthesis st (discoverMissingExportsOf st currentModule)
              (mkResolution st None SymbolSet.empty))
    as (rs & Hall & (H1 & H2 & H3 & H4) & Hn & Hm & Hk).
  { simpl. split; [apply TreeUnchanged_refl | tauto]. }
  rewrite (@resolveLoop_one_round fuel _ _ _ Hall).
  destruct (createInternalContext_first internalNamespace currentModule rs Hm)
    as (st1 & Hcalls & Hproj & Hnext & Hb & _ & _ & [(k & E & _) | (E & Hnone & _)]);
    rewrite E.
  - rewrite H1, Hn in Hproj. rewrite Hn in Hnext, Hcalls |- *.
    cbn [state childrenOf]. unfold childrenOf. cbn [project setKnownPrograms].
    assert (Hempty : match getReflectionById (nextId st) (project st1) with
                     | Some r => children r
                     | None => []
                     end = []).
    { rewrite Hproj.
      destruct (getReflectionById _ _) as [x |] eqn:Hx; [| reflexivity].
      apply getReflectionById_addChildren_fresh in Hx; [| assumption].
      rewrite Hx. reflexivity. }
    rewrite Hempty. eexists. split; [reflexivity |]. split; [| eauto].
    unfold Ends, TreeUnchanged. simpl. rewrite Hproj, Hnext, Hcalls, Hb.
    split; [| split; [| split]].
    + apply removeFromTree_addChildren. assumption.
    + lia.
    + intros scope m Hin.
      repeat (apply in_app_iff in Hin; destruct Hin as [Hin | Hin]); auto;
        simpl in Hin; repeat (destruct Hin as [Hin | Hin]; try discriminate);
        destruct Hin.
    + intros m Hfind Hnone. apply getReflectionFromSymbol_filter. auto.
  - eexists. split; [reflexivity |]. split.
    + unfold Ends, Unsynthesized. rewrite Hcalls, Hb. split; [| auto].
      intros scope m Hin.
      repeat (apply in_app_iff in Hin; destruct Hin as [Hin | Hin]); auto;
        simpl in Hin; repeat (destruct Hin as [Hin | Hin]; try discriminate);
        destruct Hin.
    + rewrite Hk in Hnone. intros Hrec. contradiction.
Qed.

End NoSynthesis.

(** With [noMissingExports] the whole phase ends after one round per
    module; no symbol is converted and no symbol whose name finds nothing
    gets a binding; when the phase returns, the tree is as it was; and it
    returns when a program was recorded for each module. *)
Lemma onResolveBegin_without_synthesis
  (findReflectionByName : Reflection -> string -> option Reflection)
  (symbolDeclarations : Symbol -> nat -> list Reflection) (internalNamespace : string)
  (fuel : nat) (st : State) :
  idsBelow (nextId st) (project st) = true ->
  exists out,
    onResolveBegin findReflectionByName symbolDeclarations internalNamespace true
      (S fuel) st = Some out
    /\ Ends (TreeUnchanged findReflectionByName st)
         (Unsynthesized findReflectionByName st) out
    /\ (ProgramsRecorded st (projectModules st) -> exists st', out = Returned st').
Proof.
  intros Hids. unfold onResolveBegin.
  assert (H : forall modules todo st0,
             idsBelow (nextId st0) (project st0) = true ->
             exists out,
               resolveModules findReflectionByName symbolDeclarations internalNamespace
                 true (S fuel) modules todo st0 = Some out
               /\ Ends (TreeUnchanged findReflectionByName st0)
                    (Unsynthesized findReflectionByName st0) out
               /\ (ProgramsRecorded st0 todo -> exists st', out = Returned st')).
  { intros modules todo. induction todo as [| m todo IH]; intros st0 H0.
    - eexists. split; [reflexivity |]. split; [apply TreeUnchanged_refl | eauto].
    - cbn [resolveModules].
      destruct (@resolveModule_without_synthesis findReflectionByName symbolDeclarations
                  internalNamespace modules m fuel st0 H0)
        as ([st1 | st1] & Hrun & H1 & Hret); rewrite Hrun; simpl in H1.
      + destruct (IH st1) as (out & -> & H2 & Hret2).
        { destruct H1 as (Hp & Hn & _). rewrite Hp.
          eapply idsBelow_mono; eassumption. }
        exists out. split; [reflexivity |]. split.
        * destruct out as [st2 | st2]; simpl in *.
          -- eapply TreeUnchanged_trans; eassumption.
          -- eapply Unsynthesized_after; eassumption.
        * intros Hrec. apply Hret2.
          apply SamePrograms_resolveModule in Hrun.
          intros i Hi. destruct Hrun as (_ & Hkept & _). apply Hkept, Hrec. right. exact Hi.
      + eexists. split; [reflexivity |]. split; [exact H1 |].
        intros Hrec. destruct Hret as (st' & E); [apply Hrec; left; reflexivity |].
        discriminate. }
  destruct (H (projectModules st) (projectModules st) st Hids)
    as ([st' | st'] & -> & H' & Hret).
  - eexists. split; [reflexivity |]. split; [exact H' | eauto].
  - eexists. split; [reflexivity |]. split; [exact H' |].
    intros Hrec. destruct (Hret Hrec) as (x & E). discriminate.
Qed.

(** ** A tree without missing references *)

Lemma discoverMissingExportsOf_resolved (st : State) (modules : list nat) (m : nat) :
  FullyResolved st modules -> In m modules -> discoverMissingExportsOf st m = [].
Proof.
  intros H Hm. unfold discoverMissingExportsOf.
  destruct (getReflectionById m (project st)) as [r |] eqn:Hr; [| reflexivity].
  destruct (discoverMissingExports (symbolToReflectionIdMap st) r) as [| s l] eqn:E;
    [reflexivity |].
  exfalso. apply (H m r s Hm Hr). apply discoverMissingExports_spec.
  rewrite E. simpl. tauto.
Qed.

Lemma resolveModules_resolved
  (findReflectionByName : Reflection -> string -> option Reflection)
  (symbolDeclarations : Symbol -> nat -> list Reflection) (internalNamespace : string)
  (noMissingExports : bool) (fuel : nat) (st : State) (modules todo : list nat) :
  FullyResolved st modules -> incl todo modules ->
  resolveModules findReflectionByName symbolDeclarations internalNamespace
    noMissingExports fuel modules todo st = Some (Returned st).
Proof.
  intros H. induction todo as [| m todo IH]; intros Hincl; simpl; [reflexivity |].
  unfold resolveModule.
  rewrite (@discoverMissingExportsOf_resolved st modules m H) by (apply Hincl; simpl; tauto).
  simpl. apply IH. intros x Hx. apply Hincl. simpl. tauto.
Qed.

(** ** The namespaces of earlier modules *)

Lemma idsFrom_unfold (n : nat) (r : Reflection) :
  idsFrom n r = (n <=? id r) && forallb (idsFrom n) (children r).
Proof. destruct r; reflexivity. Qed.

(** An id below those a declaration was numbered from finds nothing in it. *)
Lemma getReflectionById_idsFrom (i n : nat) (r : Reflection) :
  i < n -> idsFrom n r = true -> getReflectionById i r = None.
Proof.
  intros Hlt. induction r as [r IH] using Reflection_children_ind.
  rewrite Forall_forall in IH. rewrite idsFrom_unfold. intros H.
  apply andb_true_iff in H. destruct H as (H1 & H2).
  apply Nat.leb_le in H1. rewrite forallb_forall in H2.
  rewrite getReflectionById_unfold.
  replace (id r =? i) with false by (symmetry; apply Nat.eqb_neq; lia).
  apply firstSome_None. auto.
Qed.

Lemma firstSome_None_inv (A B : Type) (f : A -> option B) (l : list A) :
  firstSome f l = None -> forall a, In a l -> f a = None.
Proof.
  induction l as [| a l IH]; simpl; [tauto |].
  destruct (f a) eqn:Hfa; [discriminate |].
  intros H b [<- | Hb]; auto.
Qed.

Lemma updateReflection_same (j : nat) (f : Reflection -> Reflection) (t : Reflection) :
  (forall x, f x = x) -> updateReflection j f t = t.
Proof.
  intros Hf. induction t as [t IH] using Reflection_children_ind.
  rewrite Forall_forall in IH. rewrite updateReflection_unfold.
  destruct (id t =? j); [apply Hf |].
  rewrite map_same by assumption. apply withChildren_children.
Qed.

Lemma addChildren_nil (scope : nat) (t : Reflection) : addChildren scope [] t = t.
Proof.
  apply updateReflection_same. intros x.
  destruct (isContainerReflection x); [| reflexivity].
  rewrite app_nil_r. apply withChildren_children.
Qed.

(** A mutation of an object that is not in the tree changes nothing. *)
Lemma updateReflection_absent (j : nat) (f : Reflection -> Reflection) (t : Reflection) :
  getReflectionById j t = None -> updateReflection j f t = t.
Proof.
  induction t as [t IH] using Reflection_children_ind.
  rewrite Forall_forall in IH.
  rewrite getReflectionById_unfold, updateReflection_unfold.
  destruct (id t =? j); [discriminate |]. intros H.
  rewrite map_same; [apply withChildren_children |].
  intros c Hc. apply IH; [assumption |].
  eapply firstSome_None_inv; eassumption.
Qed.

(** The object found by an id is the one a mutation by that id changes. *)
Lemma getReflectionById_updateReflection (j : nat) (f : Reflection -> Reflection)
  (t x : Reflection) :
  (forall y, id (f y) = id y) ->
  getReflectionById j t = Some x ->
  getReflectionById j (updateReflection j f t) = Some (f x).
Proof.
  intros Hf. revert x. induction t as [t IH] using Reflection_children_ind. intros x.
  rewrite (getReflectionById_unfold j t), updateReflection_unfold.
  destruct (id t =? j) eqn:Hid.
  - intros E. injection E as <-.
    rewrite getReflectionById_unfold, Hf, Hid. reflexivity.
  - rewrite getReflectionById_unfold, id_withChildren, Hid, children_withChildren.
    induction IH as [| c l Hc Hl IHl]; simpl; [discriminate |].
    destruct (getReflectionById j c) as [y |] eqn:Hy.
    + intros E. injection E as <-. rewrite (Hc y eq_refl). reflexivity.
    + rewrite (@updateReflection_absent j f c Hy), Hy. exact IHl.
Qed.

Lemma NotEmptyIn_step (i scope : nat) (items : list Reflection) (t : Reflection) :
  (forall x, In x items -> getReflectionById i x = None) ->
  match getReflectionById i t with
  | Some r =>
      exists r',
        getReflectionById i (addChildren scope items t) = Some r'
        /\ (children r <> [] -> children r' <> [])
  | None => getReflectionById i (addChildren scope items t) = None
  end.
Proof.
  intros Hitems. unfold addChildren.
  induction t as [t IH] using Reflection_children_ind.
  rewrite (getReflectionById_unfold i t), updateReflection_unfold.
  destruct (id t =? i) eqn:Hid.
  - destruct (id t =? scope).
    + destruct (isContainerReflection t).
      * eexists. rewrite getReflectionById_unfold, id_withChildren, Hid.
        split; [reflexivity |]. rewrite children_withChildren.
        destruct (children t); [tauto | discriminate].
      * eexists. rewrite getReflectionById_unfold, Hid. split; [reflexivity | tauto].
    + eexists. rewrite getReflectionById_unfold, id_withChildren, Hid.
      split; [reflexivity |]. rewrite children_withChildren.
      destruct (children t); [tauto | discriminate].
  - destruct (id t =? scope).
    + destruct (isContainerReflection t).
      * rewrite getReflectionById_unfold, id_withChildren, Hid, children_withChildren,
          firstSome_app.
        destruct (firstSome (getReflectionById i) (children t)) as [r |].
        -- eauto.
        -- apply firstSome_None. assumption.
      * rewrite getReflectionById_unfold, Hid.
        destruct (firstSome (getReflectionById i) (children t)) as [r |]; eauto.
    + rewrite getReflectionById_unfold, id_withChildren, Hid, children_withChildren.
      induction IH as [| c l Hc Hl IHl]; simpl; [reflexivity |].
      destruct (getReflectionById i c) as [r |].
      * destruct Hc as (r' & -> & Hr'). eauto.
      * rewrite Hc. exact IHl.
Qed.

(** Adding reflections with other ids under a scope leaves no container
    empty that was not. *)
Lemma NotEmptyIn_addChildren (i scope : nat) (items : list Reflection) (t : Reflection) :
  (forall x, In x items -> getReflectionById i x = None) ->
  NotEmptyIn t i -> NotEmptyIn (addChildren scope items t) i.
Proof.
  intros Hitems. unfold NotEmptyIn.
  pose proof (NotEmptyIn_step i scope items t Hitems) as H.
  destruct (getReflectionById i t) as [r |].
  - destruct H as (r' & -> & Hr'). exact Hr'.
  - rewrite H. tauto.
Qed.

Lemma idsBelow_withChildren (n : nat) (r : Reflection) (cs : list Reflection) :
  idsBelow n (withChildren r cs) = (id r <? n) && forallb (idsBelow n) cs.
Proof. rewrite idsBelow_unfold, id_withChildren, children_withChildren. reflexivity. Qed.

Lemma idsBelow_addChildren (n scope : nat) (items : list Reflection) (t : Reflection) :
  idsBelow n t = true ->
  (forall x, In x items -> idsBelow n x = true) ->
  idsBelow n (addChildren scope items t) = true.
Proof.
  intros Ht Hitems. unfold addChildren.
  induction t as [t IH] using Reflection_children_ind.
  rewrite Forall_forall in IH.
  pose proof Ht as Ht'. rewrite idsBelow_unfold in Ht'.
  apply andb_true_iff in Ht'. destruct Ht' as (H1 & H2).
  rewrite forallb_forall in H2.
  rewrite updateReflection_unfold. destruct (id t =? scope).
  - destruct (isContainerReflection t); [| assumption].
    rewrite idsBelow_withChildren, H1, forallb_app. simpl.
    apply andb_true_iff. split; apply forallb_forall; assumption.
  - rewrite idsBelow_withChildren, H1. simpl. apply forallb_forall.
    intros c' Hc'. apply in_map_iff in Hc'. destruct Hc' as (c & <- & Hc). auto.
Qed.

Lemma idsBelow_root (n : nat) (r : Reflection) : idsBelow n r = true -> id r < n.
Proof.
  rewrite idsBelow_unfold. intros H. apply andb_true_iff in H.
  destruct H as (H & _). apply Nat.ltb_lt in H. exact H.
Qed.

Section WholeRun.

Variable findReflectionByName : Reflection -> string -> option Reflection.
Variable symbolDeclarations : Symbol -> nat -> list Reflection.
Variable internalNamespace : string.
Variable noMissingExports : bool.
Variable modules : list nat.

Hypothesis numbered : NumbersFromCounter symbolDeclarations.

Section OneModule.

Variable currentModule : nat.
Variable st0 : State.

Hypothesis ids0 : idsBelow (nextId st0) (project st0) = true.

#[local] Abbreviation create := (createInternalContext internalNamespace currentModule).
#[local] Abbreviation Inv := (ModuleInvariant internalNamespace currentModule st0).

Lemma ModuleInvariant_create (rs : Resolution) :
Inv rs -> Ends (fun p => Inv (snd p)) (fun _ => True) (create rs).
Proof.
intros HI. destruct (internalContext rs) as [j |] eqn:Hm.
- rewrite (@createInternalContext_later internalNamespace currentModule rs j Hm).
exact HI.
- destruct HI as (Hg & Hids & Hn & Hkeep).
unfold NamespaceGrows in Hg. rewrite Hm in Hg. destruct Hg as (Hp & Hnext).
destruct (@createInternalContext_first internalNamespace currentModule rs Hm)
  as (st1 & _ & Hproj & Hnext' & _ & _ & _ & [(k & E & _) | (E & _)]);
  rewrite E; [| exact I].
unfold Ends, ModuleInvariant, NamespaceGrows. cbn [snd state internalContext].
cbn [project nextId setKnownPrograms].
rewrite Hproj, Hnext', Hp, Hnext.
split; [| split; [| split]].
+ split; [reflexivity |]. split; [lia | left; reflexivity].
+ apply idsBelow_addChildren.
  * eapply idsBelow_mono; [| exact ids0]. lia.
  * intros x [<- | []]. rewrite idsBelow_unfold. simpl.
    rewrite andb_true_r. apply Nat.ltb_lt. lia.
+ lia.
+ intros i Hi Hne. apply NotEmptyIn_addChildren; [| exact Hne].
  intros x [<- | []]. rewrite getReflectionById_unfold. simpl.
  replace (nextId st0 =? i) with false by (symmetry; apply Nat.eqb_neq; lia).
  reflexivity.
Qed.

Lemma ModuleInvariant_convert (rs : Resolution) (j : nat) (m : Symbol) :
Inv rs -> internalContext rs = Some j ->
Inv (setState (convertSymbol symbolDeclarations j m (state rs)) rs).
Proof.
intros (Hg & Hids & Hn & Hkeep) Hm.
unfold NamespaceGrows in Hg. rewrite Hm in Hg. destruct Hg as (Hj & Hlt & Hg).
unfold ModuleInvariant, NamespaceGrows, setState, childrenOf.
cbn [state internalContext].
rewrite Hm, !project_convertSymbol, nextId_convertSymbol.
pose proof (numbered m (nextId (state rs))) as Hnum.
set (n := nextId (state rs)) in *.
set (decls := symbolDeclarations m n) in *.
assert (Hfrom : forall i x, i < n -> In x decls -> getReflectionById i x = None).
{ intros i x Hi Hx. apply (@getReflectionById_idsFrom i n x Hi). apply (Hnum x Hx). }
split; [| split; [| split]].
- split; [exact Hj |]. split; [lia |].
destruct decls as [| d ds] eqn:Hdecls.
{ rewrite addChildren_nil. exact Hg. }
destruct Hg as [Hg | Hg].
+ destruct (getReflectionById j (project (state rs))) as [x |] eqn:Hx.
  * right. unfold addChildren.
    rewrite (@getReflectionById_updateReflection j _ (project (state rs)) x).
    -- rewrite Hg in Hx. subst j.
       apply getReflectionById_addChildren_fresh in Hx; [| exact ids0].
       subst x. simpl. discriminate.
    -- intros y. destruct (isContainerReflection y);
         [apply id_withChildren | reflexivity].
    -- exact Hx.
  * left. unfold addChildren.
    rewrite (@updateReflection_absent j _ (project (state rs)) Hx). exact Hg.
+ right. unfold childrenOf in Hg.
  pose proof (@NotEmptyIn_step j j (d :: ds) (project (state rs))) as Hstep.
  destruct (getReflectionById j (project (state rs))) as [r |]; [| tauto].
  destruct Hstep as (r' & -> & Hr'); [| auto].
  intros x Hx. apply Hfrom; [lia | exact Hx].
- apply idsBelow_addChildren.
+ eapply idsBelow_mono; [| exact Hids]. lia.
+ intros x Hx. apply (Hnum x Hx).
- lia.
- intros i Hi Hne. apply NotEmptyIn_addChildren; [| auto].
intros x Hx. apply Hfrom; [lia | exact Hx].
Qed.

Lemma ModuleInvariant_loop (fuel : nat) (rs rs' : Resolution) (missing : SymbolSet.t) :
Inv rs ->
resolveLoop findReflectionByName symbolDeclarations internalNamespace
noMissingExports modules currentModule fuel rs missing = Some (Returned rs') ->
Inv rs'.
Proof.
intros H Hloop. change (Ends Inv (fun _ => True) (Returned rs')).
revert H Hloop.
apply (@resolveLoop_invariant findReflectionByName symbolDeclarations
       internalNamespace noMissingExports modules currentModule Inv
       (fun _ => True)).
- intros rs0 m H. exact H.
- intros rs0 m ref modCtx H _ _ _. exact H.
- intros _ rs0 H. apply ModuleInvariant_create. exact H.
- intros _ rs0 j m H Hm _. apply ModuleInvariant_convert; assumption.
Qed.

(** What one module guarantees. *)
Lemma ModulesDone_resolveModule (fuel : nat) (st' : State) :
In currentModule modules ->
resolveModule findReflectionByName symbolDeclarations internalNamespace
noMissingExports modules currentModule fuel st0 = Some (Returned st') ->
ModulesDone internalNamespace modules st0 st'.
Proof.
intros Hin Hrun.
assert (Hcalls : forall scope k n i,
         In (CreateDeclarationReflection scope k n i) (calls st') ->
         In (CreateDeclarationReflection scope k n i) (calls st0)
         \/ (In scope modules /\ k = ReflectionKind.Namespace
             /\ n = internalNamespace /\ i < nextId st'
             /\ NotEmptyIn (project st') i)).
{ intros scope k n i Hc.
destruct (@namespace_after_resolveModule findReflectionByName symbolDeclarations
            internalNamespace noMissingExports modules currentModule fuel st0 st'
            (@idsBelow_root _ _ ids0) Hrun scope k n i Hc)
  as [Hold | (-> & H)]; tauto. }
unfold ModulesDone. split; [| split; [| split]]; [| | | exact Hcalls]; clear Hcalls.
all: revert Hrun; unfold resolveModule;
destruct (SymbolSet.size (discoverMissingExportsOf st0 currentModule) =? 0);
[intros E; injection E as <-; auto |].
all: destruct (resolveLoop _ _ _ _ _ _ _ _ _) as [[rs | st1] |] eqn:Hloop;
[| discriminate | discriminate].
all: apply ModuleInvariant_loop in Hloop;
[| unfold ModuleInvariant, NamespaceGrows; simpl; auto].
all: apply ModuleInvariant_create in Hloop.
all: pose proof (@createInternalContext_memo internalNamespace currentModule rs)
as Hmemo.
all: destruct (create rs) as [[j rs2] | st2]; [| discriminate].
all: specialize (Hmemo rs2 j eq_refl); simpl in Hloop.
all: destruct Hloop as (Hg & Hids & Hn & Hkeep).
all: unfold NamespaceGrows in Hg; rewrite Hmemo in Hg; destruct Hg as (Hj & Hlt & Hg).
all: intros E; injection E as <-.
all: destruct (childrenOf (state rs2) j) eqn:Hchildren; simpl; auto.
all: destruct Hg as [Hg | Hg]; [| congruence].
all: rewrite Hg, Hj, removeFromTree_addChildren by exact ids0.
- eapply idsBelow_mono; [| exact ids0]. lia.
- auto.
Qed.

End OneModule.

(** What the loop over the modules guarantees. *)
Lemma ModulesDone_resolveModules (fuel : nat) (todo : list nat) :
incl todo modules ->
forall st st',
  idsBelow (nextId st) (project st) = true ->
  resolveModules findReflectionByName symbolDeclarations internalNamespace
    noMissingExports fuel modules todo st = Some (Returned st') ->
  ModulesDone internalNamespace modules st st'.
Proof.
induction todo as [| m todo IH]; intros Hincl st st' Hids; simpl.
- intros E. injection E as <-. unfold ModulesDone. auto.
- destruct (resolveModule _ _ _ _ _ _ _ _) as [[st1 | st1] |] eqn:Hm;
    [| discriminate | discriminate].
  intros Hrest.
  apply (@ModulesDone_resolveModule m st Hids fuel st1) in Hm;
    [| apply Hincl; simpl; tauto].
  destruct Hm as (A1 & A2 & A3 & A4).
  apply IH in Hrest; [| intros x Hx; apply Hincl; simpl; tauto | exact A1].
  destruct Hrest as (B1 & B2 & B3 & B4).
  unfold ModulesDone. split; [| split; [| split]].
  + exact B1.
  + lia.
  + intros i Hi Hne. apply B3; [lia |]. apply A3; assumption.
  + intros scope k n i Hc.
    destruct (B4 _ _ _ _ Hc) as [Hc1 | Hnew]; [| tauto].
    destruct (A4 _ _ _ _ Hc1) as [Hold | (H1 & H2 & H3 & H4 & H5)]; [tauto |].
    right. split; [exact H1 |]. split; [exact H2 |]. split; [exact H3 |].
    split; [lia |]. apply B3; assumption.
Qed.

End WholeRun.

(** ** Ids that occur once *)

Lemma treeIds_unfold (r : Reflection) :
  treeIds r = id r :: flat_map treeIds (children r).
Proof. destruct r; reflexivity. Qed.

Lemma treeIds_root (r : Reflection) : In (id r) (treeIds r).
Proof. rewrite treeIds_unfold. left. reflexivity. Qed.

Lemma treeIds_child (c r : Reflection) (i : nat) :
  In c (children r) -> In i (treeIds c) -> In i (flat_map treeIds (children r)).
Proof. intros Hc Hi. apply in_flat_map. eauto. Qed.

Lemma NoDup_app_disjoint (A : Type) (l l' : list A) (a : A) :
  NoDup (l ++ l') -> In a l -> In a l' -> False.
Proof.
  induction l as [| x l IH]; simpl; [tauto |].
  intros H Hin Hin'. apply NoDup_cons_iff in H. destruct H as (Hx & H).
  destruct Hin as [-> | Hin]; [| auto].
  apply Hx, in_or_app. right. exact Hin'.
Qed.

Lemma NoDup_treeIds_member (l : list Reflection) (a : Reflection) :
  NoDup (flat_map treeIds l) -> In a l -> NoDup (treeIds a).
Proof.
  induction l as [| x l IH]; simpl; [tauto |].
  intros H [-> | Hin].
  - eapply NoDup_app_remove_r. exact H.
  - apply IH; [eapply NoDup_app_remove_l; exact H | exact Hin].
Qed.

(** With ids that occur once, two children that share an id are one. *)
Lemma NoDup_treeIds_same (l : list Reflection) (a b : Reflection) (i : nat) :
  NoDup (flat_map treeIds l) ->
  In a l -> In b l -> In i (treeIds a) -> In i (treeIds b) -> a = b.
Proof.
  induction l as [| x l IH]; simpl; [tauto |].
  intros H [-> | Ha] [-> | Hb] Hia Hib.
  - reflexivity.
  - exfalso. apply (@NoDup_app_disjoint _ _ _ i H Hia). apply in_flat_map. eauto.
  - exfalso. apply (@NoDup_app_disjoint _ _ _ i H Hib). apply in_flat_map. eauto.
  - apply IH; [eapply NoDup_app_remove_l; exact H | assumption ..].
Qed.

Lemma getReflectionById_id (i : nat) (t r : Reflection) :
  getReflectionById i t = Some r -> id r = i.
Proof.
  induction t as [t IH] using Reflection_children_ind.
  rewrite Forall_forall in IH. rewrite getReflectionById_unfold.
  destruct (id t =? i) eqn:Hid.
  - intros E. injection E as <-. apply Nat.eqb_eq. exact Hid.
  - intros H. apply firstSome_Some in H. destruct H as (c & Hc & H). eauto.
Qed.

(** The children of a reflection found in a tree have their ids among
    those below the root of the tree. *)
Lemma getReflectionById_children_below (i : nat) (t r d : Reflection) :
  getReflectionById i t = Some r -> In d (children r) ->
  In (id d) (flat_map treeIds (children t)).
Proof.
  intros H Hd. revert H. induction t as [t IH] using Reflection_children_ind.
  rewrite Forall_forall in IH. rewrite getReflectionById_unfold.
  destruct (id t =? i).
  - intros E. injection E as <-. eapply treeIds_child; [exact Hd | apply treeIds_root].
  - intros H. apply firstSome_Some in H. destruct H as (c & Hc & H).
    eapply treeIds_child; [exact Hc |]. rewrite treeIds_unfold. right. auto.
Qed.

Lemma In_getChildrenByKind (r d : Reflection) (k : N) :
  In d (getChildrenByKind r k) -> In d (children r).
Proof. unfold getChildrenByKind. intros H. apply filter_In in H. tauto. Qed.

(** The owner of a direct child of the project.  When every reflection has
    an id of its own, a module of the project has no child with the id of a
    child of the project: a direct child of the project has an owner only in
    a project without modules, and the owner is the project. *)
Lemma getModule_of_child (st : State) (ref : Reflection) (modCtx : nat) :
  UniqueIds (project st) ->
  In ref (children (project st)) ->
  getModule (projectModules st) st ref = Some modCtx ->
  projectModules st = [id (project st)] /\ modCtx = id (project st).
Proof.
  intros Huniq Href Hmod. unfold getModule in Hmod.
  apply find_some in Hmod. destruct Hmod as (Hin & Hown).
  unfold UniqueIds in Huniq. rewrite treeIds_unfold in Huniq.
  apply NoDup_cons_iff in Huniq. destruct Huniq as (Hroot & Hbelow).
  unfold projectModules in *.
  destruct (getChildrenByKind (project st) ReflectionKind.Module) as [| c0 cs] eqn:Hmods.
  - simpl in *. destruct Hin as [<- | []]. tauto.
  - exfalso. change (In modCtx (map id (c0 :: cs))) in Hin.
    apply in_map_iff in Hin. destruct Hin as (c & <- & Hc).
    rewrite <- Hmods in Hc. apply In_getChildrenByKind in Hc.
    destruct (getReflectionById (id c) (project st)) as [r |] eqn:Hr; [| discriminate].
    apply existsb_exists in Hown. destruct Hown as (d & Hd & Hid).
    apply Nat.eqb_eq in Hid. apply In_getChildrenByKind in Hd.
    rewrite getReflectionById_unfold in Hr.
    destruct (id (project st) =? id c) eqn:Hp.
    + apply Nat.eqb_eq in Hp. apply Hroot. rewrite Hp.
      eapply treeIds_child; [exact Hc | apply treeIds_root].
    + apply firstSome_Some in Hr. destruct Hr as (x & Hx & Hr).
      pose proof (@getReflectionById_children_below _ _ _ _ Hr Hd) as Hdx.
      assert (E : ref = x).
      { apply (@NoDup_treeIds_same (children (project st)) ref x (id ref));
          [assumption .. | apply treeIds_root |].
        rewrite treeIds_unfold, <- Hid. right. exact Hdx. }
      subst x. pose proof (@NoDup_treeIds_member _ _ Hbelow Href) as Hn.
      rewrite treeIds_unfold in Hn. apply NoDup_cons_iff in Hn.
      destruct Hn as (Hn & _). apply Hn. rewrite <- Hid. exact Hdx.
Qed.

(** ** Counting the rounds of the loop *)

Lemma symbols_addChildren_mono (scope : nat) (items : list Reflection) (r : Reflection) :
  incl (reflection_symbols r) (reflection_symbols (addChildren scope items r)).
Proof.
  unfold addChildren. induction r as [r IH] using Reflection_children_ind.
  rewrite Forall_forall in IH. intros s Hs.
  rewrite updateReflection_unfold. destruct (id r =? scope).
  - destruct (isContainerReflection r); [| exact Hs].
    apply symbols_withChildren. rewrite flat_map_app, in_app_iff.
    apply symbols_split in Hs. tauto.
  - apply symbols_withChildren. apply symbols_split in Hs.
    destruct Hs as [Hs | Hs]; [| tauto].
    left. apply in_flat_map in Hs. destruct Hs as (c & Hc & Hs).
    apply in_flat_map. exists (updateReflection scope
      (fun s0 => if isContainerReflection s0
                 then withChildren s0 (children s0 ++ items) else s0) c).
    split; [apply in_map; exact Hc | apply IH; assumption].
Qed.

Lemma distinct_incl (l l' : list Symbol) : incl l l' -> distinct l <= distinct l'.
Proof.
  intros H. unfold distinct. apply NoDup_incl_length; [apply NoDup_nodup |].
  intros s Hs. apply nodup_In. apply H. apply nodup_In in Hs. exact Hs.
Qed.

Section RoundCount.

Variable findReflectionByName : Reflection -> string -> option Reflection.
Variable symbolDeclarations : Symbol -> nat -> list Reflection.
Variable internalNamespace : string.
Variable noMissingExports : bool.
Variable modules : list nat.
Variable currentModule : nat.

#[local] Abbreviation round :=
  (resolveRound findReflectionByName symbolDeclarations internalNamespace
     noMissingExports modules currentModule).
#[local] Abbreviation loop :=
  (resolveLoop findReflectionByName symbolDeclarations internalNamespace
     noMissingExports modules currentModule).
#[local] Abbreviation Reached :=
  (RoundReached findReflectionByName symbolDeclarations internalNamespace
     noMissingExports modules currentModule).

(** The driver adds to the tree and, while the loop runs, takes nothing
    from it: the symbols of the tree stay in it. *)
Lemma symbols_resolveRound (held : list Symbol) (rs : Resolution)
  (missing : SymbolSet.t) :
  incl held (reflection_symbols (project (state rs))) ->
  Ends (fun p => incl held (reflection_symbols (project (state (fst p)))))
    (fun st => incl held (reflection_symbols (project st))) (round rs missing).
Proof.
  apply (@resolveRound_invariant findReflectionByName symbolDeclarations
           internalNamespace noMissingExports modules currentModule
           (fun rs => incl held (reflection_symbols (project (state rs))))
           (fun st => incl held (reflection_symbols (project st)))).
  - intros rs' m H. exact H.
  - intros rs' m ref modCtx H _ _ _. exact H.
  - intros _ rs' H.
    apply (@Ends_createdState internalNamespace currentModule
             (fun st => incl held (reflection_symbols (project st)))).
    destruct (internalContext rs') as [ns |] eqn:Hmemo.
    + rewrite (createdState_later _ _ _ Hmemo). exact H.
    + destruct (createdState_first internalNamespace currentModule rs' Hmemo)
        as (_ & -> & _).
      eapply incl_tran; [exact H | apply symbols_addChildren_mono].
  - intros _ rs' ns m H _ _. unfold setState. cbn [state].
    rewrite project_convertSymbol.
    eapply incl_tran; [exact H | apply symbols_addChildren_mono].
Qed.

(** The candidates a round returns are symbols of the tree it leaves. *)
Lemma resolveRound_candidates (rs rs' : Resolution) (missing missing' : SymbolSet.t) :
  round rs missing = Returned (rs', missing') ->
  incl missing (reflection_symbols (project (state rs))) ->
  incl missing' (reflection_symbols (project (state rs'))).
Proof.
  intros Hround Hin.
  pose proof (@symbols_resolveRound missing rs missing Hin) as Hgrow.
  rewrite Hround in Hgrow. simpl in Hgrow.
  apply (@resolveRound_within findReflectionByName symbolDeclarations
           internalNamespace noMissingExports modules currentModule
           (reflection_symbols (project (state rs'))) rs rs' missing missing' Hround).
  - apply incl_refl.
  - exact Hgrow.
Qed.

Section FromStart.

Variable rs0 : Resolution.
Variable missing0 : SymbolSet.t.

Hypothesis distinct0 : NoDup missing0.
Hypothesis untried0 : forall s, In s missing0 -> ~ In s (tried rs0).
Hypothesis some0 : missing0 <> [].
Hypothesis tried0 : tried rs0 = SymbolSet.empty.
Hypothesis held0 : incl missing0 (reflection_symbols (project (state rs0))).

(** When round [k] begins, the symbols tried and the candidates are
    distinct symbols of the tree, at least [k] of them. *)
Lemma RoundReached_count (k : nat) (rs : Resolution) (missing : SymbolSet.t) :
  Reached rs0 missing0 k rs missing ->
  NoDup (tried rs ++ missing)
  /\ incl (tried rs ++ missing) (reflection_symbols (project (state rs)))
  /\ k <= List.length (tried rs ++ missing).
Proof.
  intros H. induction H as [| k rs1 rs2 m1 m2 H IH Hround Hsize].
  - rewrite tried0. simpl. split; [exact distinct0 |]. split; [exact held0 |].
    destruct missing0; [congruence | simpl; lia].
  - destruct IH as (Hnd & Hin & Hk).
    destruct (@RoundReached_fresh _ _ _ _ _ _ _ _ _ _ _ distinct0 untried0 some0 H)
      as (Hnd1 & Hnew1 & _ & _).
    destruct (@resolveRound_fresh _ _ _ _ _ _ _ _ _ _ Hround Hnd1 Hnew1)
      as (Ht & Hnd2).
    destruct (@tried_resolveRound _ _ _ _ _ _ _ _ _ _ Hround) as (_ & Hnew2).
    pose proof (@symbols_resolveRound _ rs1 m1 Hin) as Hgrow.
    rewrite Hround in Hgrow. simpl in Hgrow.
    assert (Hm2 : incl m2 (reflection_symbols (project (state rs2)))).
    { apply (@resolveRound_candidates rs1 rs2 m1 m2 Hround).
      intros s Hs. apply Hin, in_or_app. tauto. }
    split; [| split].
    + apply NoDup_app; [rewrite Ht; exact Hnd | exact Hnd2 |].
      intros s Hs Hs'. apply (Hnew2 s Hs'). exact Hs.
    + apply incl_app; [rewrite Ht; exact Hgrow | exact Hm2].
    + rewrite length_app, Ht. destruct m2; [simpl in Hsize; lia |]. simpl. lia.
Qed.

(** The loop ends with its last round: one of the rounds it began, which
    returns no candidates or throws. *)
Lemma resolveLoop_last_round (fuel : nat) :
  forall k rs missing out,
    Reached rs0 missing0 k rs missing ->
    loop fuel rs missing = Some out ->
    exists n rs1 missing1,
      Reached rs0 missing0 n rs1 missing1
      /\ n < k + fuel
      /\ Ends (fun rs' => round rs1 missing1 = Returned (rs', SymbolSet.empty))
           (fun st => round rs1 missing1 = Thrown st) out.
Proof.
  induction fuel as [| fuel IH]; intros k rs missing out Hk; simpl; [discriminate |].
  destruct (round rs missing) as [[rs1 missing1] | st] eqn:Hround.
  - destruct missing1 as [| s rest] eqn:Hm1.
    + simpl. intros E. injection E as <-.
      exists k, rs, missing. split; [exact Hk |]. split; [lia | exact Hround].
    + change (0 <? SymbolSet.size (s :: rest)) with true. cbv iota. intros Hloop.
      destruct (IH (S k) rs1 (s :: rest) out) as (n & rs2 & m2 & Hn & Hlt & Hend).
      * eapply reached_next; [exact Hk | exact Hround | simpl; lia].
      * exact Hloop.
      * exists n, rs2, m2. split; [exact Hn |]. split; [lia | exact Hend].
  - intros E. injection E as <-.
    exists k, rs, missing. split; [exact Hk |]. split; [lia | exact Hround].
Qed.

(** The rounds of the loop are at most the distinct symbols of the tree
    it ends with. *)
Lemma resolveLoop_rounds (fuel : nat) (out : Outcome Resolution) :
  loop fuel rs0 missing0 = Some out ->
  exists n rs missing,
    Reached rs0 missing0 n rs missing
    /\ n <= fuel
    /\ Ends (fun rs' => round rs missing = Returned (rs', SymbolSet.empty))
         (fun st => round rs missing = Thrown st) out
    /\ n <= distinct (reflection_symbols (project (state rs)))
    /\ n <= distinct (reflection_symbols (project (endState out))).
Proof.
  intros Hloop.
  destruct (@resolveLoop_last_round fuel 1 rs0 missing0 out (reached_first _ _ _ _ _ _ _ _)
              Hloop) as (n & rs & missing & Hn & Hlt & Hend).
  exists n, rs, missing. split; [exact Hn |]. split; [lia |]. split; [exact Hend |].
  destruct (RoundReached_count Hn) as (Hnd & Hin & Hlen).
  assert (Hbound : n <= distinct (reflection_symbols (project (state rs)))).
  { eapply Nat.le_trans; [exact Hlen |]. apply length_within; assumption. }
  split; [exact Hbound |].
  eapply Nat.le_trans; [exact Hbound |]. apply distinct_incl.
  pose proof (@symbols_resolveRound _ rs missing (incl_refl _)) as Hgrow.
  destruct out as [rs' | st]; simpl in Hend; rewrite Hend in Hgrow; exact Hgrow.
Qed.

End FromStart.

End RoundCount.

(** * The properties of the specification *)

(** C5.  [discoverMissingExports] always returns, and what it returns is
    exactly the set of symbols carried by the reference types without a
    resolved reflection that are reachable from the root through the
    traversed fields; visiting an inline reflection type only appends its
    declaration to the work list and leaves the result set alone. *)
Theorem discoverMissingExports_exact (bindings : list (Symbol * nat)) (root : Reflection) :
  discoverLoop bindings (reflection_size root) root (mkCollector [] SymbolSet.empty)
  = Some (discoverMissingExports bindings root)
  /\ NoDup (discoverMissingExports bindings root)
  /\ (forall s,
         In s (discoverMissingExports bindings root)
         <-> MissingReference bindings root s)
  /\ (forall declaration c,
         visit bindings (ReflectionType declaration) c
         = mkCollector (queue c ++ [declaration]) (missing c)).
Proof.
  split; [apply discoverLoop_total |].
  split; [apply discoverMissingExports_NoDup |].
  split; [apply discoverMissingExports_spec |].
  reflexivity.
Qed.

(** C10.  The [reference] callback leaves the collector as it is for a
    reference type that has neither a reflection nor a symbol, and every
    symbol [discoverMissingExports] reports is carried by a reachable
    reference type that has no reflection. *)
Theorem reference_without_symbol_omitted (bindings : list (Symbol * nat))
  (root : Reflection) :
  (forall target c,
      reflection bindings target = None -> getSymbol target = None ->
      visitor_reference bindings target c = c)
  /\ (forall s,
         In s (discoverMissingExports bindings root) ->
         exists r t target typeArguments,
           Traversed root r
           /\ In t (visitedTypes r)
           /\ TypeContains t (ReferenceType target typeArguments)
           /\ reflection bindings target = None
           /\ getSymbol target = Some s).
Proof.
  split.
  - intros target c Hr Hs. unfold visitor_reference. rewrite Hr, Hs. reflexivity.
  - intros s Hs. apply discoverMissingExports_spec in Hs.
    destruct Hs as (r & Hr & t & target & args & H). exists r, t, target, args. tauto.
Qed.

(** A union of a broken reference and a reference to [T]: only [T] is
    reported, and it comes from a reference type carrying it. *)
Lemma reference_without_symbol_omitted_witness :
  discoverMissingExports [] Examples.brokenAndT = [Examples.symT]
  /\ visitor_reference [] TargetBroken (mkCollector [] []) = mkCollector [] []
  /\ exists r t target typeArguments,
      Traversed Examples.brokenAndT r
      /\ In t (visitedTypes r)
      /\ TypeContains t (ReferenceType target typeArguments)
      /\ reflection [] target = None
      /\ getSymbol target = Some Examples.symT.
Proof.
  split; [reflexivity |].
  destruct (reference_without_symbol_omitted [] Examples.brokenAndT) as (Hskip & Hfrom).
  split.
  - apply Hskip; reflexivity.
  - apply Hfrom. vm_compute. left. reflexivity.
Defined.

Section SymbolCases.

Variable findReflectionByName : Reflection -> string -> option Reflection.
Variable symbolDeclarations : Symbol -> nat -> list Reflection.
Variable internalNamespace : string.
Variable noMissingExports : bool.
Variable modules : list nat.
Variable currentModule : nat.

#[local] Abbreviation resolve :=
  (resolveSymbol findReflectionByName symbolDeclarations internalNamespace
     noMissingExports modules currentModule).

(** The module [getModule] returns is one of [modules] and has a direct
    child of the kind and the id of the reflection. *)
Lemma getModule_owner (st : State) (ref : Reflection) (modCtx : nat) :
  getModule modules st ref = Some modCtx ->
  In modCtx modules
  /\ exists r d,
      getReflectionById modCtx (project st) = Some r
      /\ In d (getChildrenByKind r (kind ref))
      /\ id d = id ref.
Proof.
  unfold getModule. intros H. apply find_some in H. destruct H as (Hin & H).
  split; [assumption |].
  destruct (getReflectionById modCtx (project st)) as [r |]; [| discriminate].
  apply existsb_exists in H. destruct H as (d & Hd & Hid).
  apply Nat.eqb_eq in Hid. eauto.
Qed.


(** A missing symbol named [default] is marked tried and nothing else:
    no lookup, no registration, no namespace, no conversion. *)
Lemma default_symbol_skipped (rs : Resolution) (m : Symbol) :
  symbol_name m = "default"%string ->
  resolve rs m
  = Returned (mkResolution (state rs) (internalContext rs)
                (SymbolSet.add m (tried rs))).
Proof.
  intros Hname. unfold resolveSymbol. rewrite Hname. reflexivity.
Qed.

(** C9.  A missing symbol whose name finds a reflection that no module
    owns, that is, of which no module has a direct child of the same kind
    and id, is marked tried and dropped: the state, with its bindings, its
    tree and its log of calls, and the memo of the internal namespace stay
    as they are. *)
Theorem unowned_reflection_dropped (rs : Resolution) (m : Symbol) (ref : Reflection) :
  String.eqb (symbol_name m) "default" = false ->
  findReflectionByName (project (state rs)) (symbol_name m) = Some ref ->
  getModule modules (state rs) ref = None ->
  (forall owner r d,
      In owner modules ->
      getReflectionById owner (project (state rs)) = Some r ->
      In d (getChildrenByKind r (kind ref)) ->
      id d <> id ref)
  /\ resolve rs m
     = Returned (mkResolution (state rs) (internalContext rs)
                   (SymbolSet.add m (tried rs))).
Proof.
  intros Hname Hfind Hmod. split.
  - intros owner r d Hin Hr Hd Hid. unfold getModule in Hmod.
    pose proof (find_none _ _ Hmod owner Hin) as H. cbv beta in H.
    rewrite Hr in H.
    assert (Hex : existsb (fun d0 => id d0 =? id ref) (getChildrenByKind r (kind ref))
                  = true).
    { apply existsb_exists. exists d. split; [exact Hd |]. apply Nat.eqb_eq. exact Hid. }
    rewrite Hex in H. discriminate.
  - unfold resolveSymbol. simpl. rewrite Hname, Hfind, Hmod. reflexivity.
Qed.

End SymbolCases.


(** In module [N] the name [N] finds the module itself, a child of the
    project that no module has as a child: the symbol is dropped. *)
Lemma unowned_reflection_dropped_witness :
  let rs := mkResolution Examples.stateN None [] in
  findChildByName Examples.projectN "N" = Some Examples.moduleN
  /\ resolveSymbol findChildByName Examples.declarations "internal" false [1] 1 rs
       Examples.symN
     = Returned (mkResolution Examples.stateN None [Examples.symN]).
Proof.
  intros rs. split; [reflexivity |].
  destruct (@unowned_reflection_dropped findChildByName Examples.declarations "internal"
              false [1] 1 rs Examples.symN Examples.moduleN
              eq_refl eq_refl eq_refl) as (_ & H).
  exact H.
Defined.
(** C2 as stated fails: the only missing symbol of module [M] is named
    [default] and is skipped, no symbol is converted, and the internal
    namespace is created all the same. *)
Lemma namespace_created_only_on_need_counterexample : ~ NamespaceCreatedOnlyOnNeed.
Proof.
  intros H.
  destruct (H findChildByName Examples.declarations "internal"%string false [1] 1 5
              (Examples.stateM (Examples.unresolved Examples.symDefault)) _
              ltac:(vm_compute; reflexivity)
              1 ReflectionKind.Namespace "internal"%string 3)
    as [Hold | (m & Hm)].
  - vm_compute. tauto.
  - exact Hold.
  - vm_compute in Hm.
    repeat (destruct Hm as [Hm | Hm]; [discriminate Hm |]). exact Hm.
Qed.

(** C2, as the code has it.  Processing one module creates the internal
    namespace at most once: exactly once when the collector finds a missing
    symbol in the module, whether or not any symbol is then converted, and
    not at all when it finds none; this holds of the log the module leaves
    when it returns and when it ends with an exception. *)
Theorem namespace_created_once_per_module
  (findReflectionByName : Reflection -> string -> option Reflection)
  (symbolDeclarations : Symbol -> nat -> list Reflection) (internalNamespace : string)
  (noMissingExports : bool) (modules : list nat) (currentModule fuel : nat)
  (st : State) (out : Outcome State) :
  resolveModule findReflectionByName symbolDeclarations internalNamespace
    noMissingExports modules currentModule fuel st = Some out ->
  creations (calls (outcomeState out))
  = creations (calls st)
    + (if SymbolSet.size (discoverMissingExportsOf st currentModule) =? 0 then 0 else 1).
Proof. apply creations_resolveModule. Qed.

(** Module [M], whose missing symbol is skipped: one creation; module [B],
    where nothing is missing: none. *)
Lemma namespace_created_once_per_module_witness :
  (exists out,
      resolveModule findChildByName Examples.declarations "internal" false [1] 1 5
        (Examples.stateM (Examples.unresolved Examples.symDefault)) = Some out
      /\ creations (calls (outcomeState out)) = 1)
  /\ (exists out,
         resolveModule findChildByName Examples.declarations "internal" false [1; 2] 2 5
           Examples.stateAB = Some out
         /\ creations (calls (outcomeState out)) = 0).
Proof.
  split; eexists; (split; [vm_compute; reflexivity |]).
  - exact (@namespace_created_once_per_module findChildByName Examples.declarations
             "internal" false [1] 1 5
             (Examples.stateM (Examples.unresolved Examples.symDefault)) _
             ltac:(vm_compute; reflexivity)).
  - exact (@namespace_created_once_per_module findChildByName Examples.declarations
             "internal" false [1; 2] 2 5 Examples.stateAB _
             ltac:(vm_compute; reflexivity)).
Defined.

(** C3 as stated fails: the tree of project [M] holds one symbol, [U]; the
    declaration synthesized for [U] names [V], and the loop over module [M]
    needs a second round. *)
Lemma rounds_bounded_by_tree_symbols_counterexample : ~ RoundsBoundedByTreeSymbols.
Proof.
  intros H.
  destruct (H findChildByName Examples.declarations "internal"%string false [1] 1
              (Examples.stateM (Examples.unresolved Examples.symU))
              ltac:(vm_compute; discriminate)) as (out & Hout).
  vm_compute in Hout. discriminate Hout.
Qed.

(** C3, as the code has it.  Take the loop over a module in which the
    collector finds missing symbols.  When the symbols of the tree and of
    the declarations the compiler produces lie in a finite universe, the loop
    ends, by returning or with an exception, within as many rounds as the
    universe has distinct symbols, and so do the processing of the module and
    the whole phase.  Whenever the loop ends, it ends with the last of the
    rounds it began, and these are at most as many as the distinct symbols of
    the tree it ends with.  Every round it begins is given distinct symbols
    that are not in [tried]; the round appends them to [tried] and returns
    candidates none of which is in [tried]: a symbol is processed once. *)
Theorem fixpoint_loop_terminates
  (findReflectionByName : Reflection -> string -> option Reflection)
  (symbolDeclarations : Symbol -> nat -> list Reflection) (internalNamespace : string)
  (noMissingExports : bool) (modules : list nat) (currentModule : nat)
  (universe : list Symbol) (st : State) :
  (forall m i r, In r (symbolDeclarations m i) -> incl (reflection_symbols r) universe) ->
  incl (reflection_symbols (project st)) universe ->
  discoverMissingExportsOf st currentModule <> [] ->
  (exists out,
      resolveLoop findReflectionByName symbolDeclarations internalNamespace
        noMissingExports modules currentModule (distinct universe)
        (mkResolution st None SymbolSet.empty)
        (discoverMissingExportsOf st currentModule) = Some out)
  /\ (forall fuel out,
         resolveLoop findReflectionByName symbolDeclarations internalNamespace
           noMissingExports modules currentModule fuel
           (mkResolution st None SymbolSet.empty)
           (discoverMissingExportsOf st currentModule) = Some out ->
         exists n rs missing,
           RoundReached findReflectionByName symbolDeclarations internalNamespace
             noMissingExports modules currentModule
             (mkResolution st None SymbolSet.empty)
             (discoverMissingExportsOf st currentModule) n rs missing
           /\ n <= fuel
           /\ Ends (fun rs' =>
                      resolveRound findReflectionByName symbolDeclarations
                        internalNamespace noMissingExports modules currentModule
                        rs missing = Returned (rs', SymbolSet.empty))
                (fun st' =>
                   resolveRound findReflectionByName symbolDeclarations
                     internalNamespace noMissingExports modules currentModule
                     rs missing = Thrown st') out
           /\ n <= distinct (reflection_symbols (project (endState out))))
  /\ (forall n rs missing,
         RoundReached findReflectionByName symbolDeclarations internalNamespace
           noMissingExports modules currentModule
           (mkResolution st None SymbolSet.empty)
           (discoverMissingExportsOf st currentModule) n rs missing ->
         NoDup missing
         /\ missing <> []
         /\ (forall s, In s missing -> ~ In s (tried rs))
         /\ n <= distinct (reflection_symbols (project (state rs)))
         /\ forall rs' missing',
             resolveRound findReflectionByName symbolDeclarations internalNamespace
               noMissingExports modules currentModule rs missing
             = Returned (rs', missing') ->
             tried rs' = tried rs ++ missing
             /\ NoDup missing'
             /\ (forall s, In s missing' -> ~ In s (tried rs')))
  /\ (exists out,
         resolveModule findReflectionByName symbolDeclarations internalNamespace
           noMissingExports modules currentModule (distinct universe) st = Some out)
  /\ (exists out,
         onResolveBegin findReflectionByName symbolDeclarations internalNamespace
           noMissingExports (distinct universe) st = Some out).
Proof.
  intros Hdecl Hst Hne.
  assert (Hnd : NoDup (discoverMissingExportsOf st currentModule))
    by apply discoverMissingExportsOf_NoDup.
  assert (Hnew : forall s,
             In s (discoverMissingExportsOf st currentModule) ->
             ~ In s (tried (mkResolution st None SymbolSet.empty)))
    by (intros s _ []).
  assert (Hheld : incl (discoverMissingExportsOf st currentModule)
                    (reflection_symbols (project (state (mkResolution st None
                                                           SymbolSet.empty))))).
  { apply discoverMissingExportsOf_within. apply incl_refl. }
  split; [| split; [| split; [| split]]].
  - destruct (@resolveLoop_ends findReflectionByName symbolDeclarations internalNamespace
                noMissingExports modules currentModule universe Hdecl
                (distinct universe) (mkResolution st None SymbolSet.empty)
                (discoverMissingExportsOf st currentModule))
      as (out & Hout & _); simpl.
    + exact Hst.
    + constructor.
    + exact Hnd.
    + intros s [].
    + apply discoverMissingExportsOf_within. exact Hst.
    + tauto.
    + exact Hne.
    + lia.
    + eauto.
  - intros fuel out Hloop.
    destruct (@resolveLoop_rounds findReflectionByName symbolDeclarations
                internalNamespace noMissingExports modules currentModule
                (mkResolution st None SymbolSet.empty)
                (discoverMissingExportsOf st currentModule)
                Hnd Hnew Hne eq_refl Hheld fuel out Hloop)
      as (n & rs & missing & H1 & H2 & H3 & _ & H4).
    exists n, rs, missing. tauto.
  - intros n rs missing Hn.
    destruct (@RoundReached_fresh findReflectionByName symbolDeclarations
                internalNamespace noMissingExports modules currentModule
                _ _ _ _ _ Hnd Hnew Hne Hn) as (H1 & H2 & H3 & _).
    destruct (@RoundReached_count findReflectionByName symbolDeclarations
                internalNamespace noMissingExports modules currentModule
                (mkResolution st None SymbolSet.empty)
                (discoverMissingExportsOf st currentModule)
                Hnd Hnew Hne eq_refl Hheld n rs missing Hn) as (H4 & H5 & H6).
    split; [exact H1 |]. split; [exact H3 |]. split; [exact H2 |]. split.
    + eapply Nat.le_trans; [exact H6 |]. apply length_within; assumption.
    + intros rs' missing' Hround.
      destruct (@resolveRound_fresh _ _ _ _ _ _ _ _ _ _ Hround H1 H2) as (Ht & Hnd').
      destruct (@tried_resolveRound _ _ _ _ _ _ _ _ _ _ Hround) as (_ & Hnew').
      auto.
  - destruct (@resolveModule_ends findReflectionByName symbolDeclarations
                internalNamespace noMissingExports modules currentModule universe
                Hdecl st Hst) as (out & H & _).
    eauto.
  - apply onResolveBegin_ends; assumption.
Qed.

(** Module [M] names [U], whose declaration names [V]: two symbols, two
    rounds, the second of which is given [V] alone, and the tree at the end
    holds the two symbols. *)
Lemma fixpoint_loop_terminates_witness :
  let st := Examples.stateM (Examples.unresolved Examples.symU) in
  distinct [Examples.symU; Examples.symV] = 2
  /\ discoverMissingExportsOf st 1 = [Examples.symU]
  /\ (exists out,
         resolveLoop findChildByName Examples.declarations "internal" false [1] 1 2
           (mkResolution st None []) [Examples.symU] = Some out)
  /\ (exists rs,
         RoundReached findChildByName Examples.declarations "internal" false [1] 1
           (mkResolution st None []) [Examples.symU] 2 rs [Examples.symV]
         /\ 2 <= distinct (reflection_symbols (project (state rs))))
  /\ (exists out,
         onResolveBegin findChildByName Examples.declarations "internal" false 2 st
         = Some out).
Proof.
  intros st.
  assert (Hdecl : forall m i r,
             In r (Examples.declarations m i) ->
             incl (reflection_symbols r) [Examples.symU; Examples.symV]).
  { intros m i r Hr. unfold Examples.declarations in Hr.
    destruct (Symbol_eq_dec m Examples.symU); destruct Hr as [<- | []];
      intros s Hs; simpl in Hs; simpl; tauto. }
  assert (Htree : incl (reflection_symbols (project st)) [Examples.symU; Examples.symV]).
  { intros s Hs. vm_compute in Hs. simpl. tauto. }
  destruct (@fixpoint_loop_terminates findChildByName Examples.declarations "internal"
              false [1] 1 [Examples.symU; Examples.symV] st Hdecl Htree
              ltac:(vm_compute; discriminate))
    as (Hloop & _ & Hrounds & _ & Hrun).
  split; [reflexivity |]. split; [reflexivity |]. split; [exact Hloop |].
  split; [| exact Hrun].
  eexists. split.
  - eapply reached_next; [apply reached_first | vm_compute; reflexivity | simpl; lia].
  - refine (proj1 (proj2 (proj2 (proj2 (Hrounds 2 _ [Examples.symV] _))))).
    eapply reached_next; [apply reached_first | vm_compute; reflexivity | simpl; lia].
Defined.

(** C4.  When the processing of a module returns, the internal namespace
    created for it has been removed if it had no children: each creation the
    module added to the log is that of its internal namespace, and that
    reflection is no longer found in the tree or has a child.  When ids come
    from the counter, the same holds of the tree with which the phase returns
    for the namespaces of all modules: none of them is left in it without
    children. *)
Theorem empty_internal_namespace_removed
  (findReflectionByName : Reflection -> string -> option Reflection)
  (symbolDeclarations : Symbol -> nat -> list Reflection) (internalNamespace : string)
  (noMissingExports : bool) :
  (forall modules currentModule fuel st st',
      id (project st) < nextId st ->
      resolveModule findReflectionByName symbolDeclarations internalNamespace
        noMissingExports modules currentModule fuel st = Some (Returned st') ->
      forall scope k n i,
        In (CreateDeclarationReflection scope k n i) (calls st') ->
        In (CreateDeclarationReflection scope k n i) (calls st)
        \/ (scope = currentModule /\ k = ReflectionKind.Namespace
            /\ n = internalNamespace /\ NotEmptyIn (project st') i))
  /\ (forall fuel st st',
         NumbersFromCounter symbolDeclarations ->
         idsBelow (nextId st) (project st) = true ->
         onResolveBegin findReflectionByName symbolDeclarations internalNamespace
           noMissingExports fuel st = Some (Returned st') ->
         forall scope k n i,
           In (CreateDeclarationReflection scope k n i) (calls st') ->
           In (CreateDeclarationReflection scope k n i) (calls st)
           \/ (In scope (projectModules st) /\ k = ReflectionKind.Namespace
               /\ n = internalNamespace /\ NotEmptyIn (project st') i)).
Proof.
  split.
  - intros modules currentModule fuel st st' Hroot Hrun scope k n i Hc.
    destruct (@namespace_after_resolveModule findReflectionByName symbolDeclarations
                internalNamespace noMissingExports modules currentModule fuel st st'
                Hroot Hrun scope k n i Hc) as [Hold | H]; tauto.
  - intros fuel st st' Hnum Hids. unfold onResolveBegin.
    destruct (resolveModules _ _ _ _ _ _ _ _) as [[st1 | st1] |] eqn:Hrun;
      [| discriminate | discriminate].
    intros E. injection E as <-. intros scope k n i Hc.
    apply (@ModulesDone_resolveModules findReflectionByName symbolDeclarations
             internalNamespace noMissingExports (projectModules st) Hnum fuel
             (projectModules st) (incl_refl _) st st1 Hids) in Hrun.
    destruct Hrun as (_ & _ & _ & Hcalls).
    destruct (Hcalls scope k n i Hc) as [Hold | H]; [tauto |].
    right. simpl. tauto.
Qed.

(** Project [M] with the symbol [default]: the namespace of [M], id 3,
    stays empty and is gone at the end.  Project [M] with the symbol [U]: the
    namespace, id 3, holds the declarations of [U] and [V] at the end. *)
Lemma empty_internal_namespace_removed_witness :
  (exists st',
      onResolveBegin findChildByName Examples.declarations "internal" false 2
        (Examples.stateM (Examples.unresolved Examples.symDefault))
      = Some (Returned st')
      /\ In (CreateDeclarationReflection 1 ReflectionKind.Namespace "internal" 3)
           (calls st')
      /\ getReflectionById 3 (project st') = None)
  /\ (exists st',
         onResolveBegin findChildByName Examples.declarations "internal" false 2
           (Examples.stateM (Examples.unresolved Examples.symU)) = Some (Returned st')
         /\ In (CreateDeclarationReflection 1 ReflectionKind.Namespace "internal" 3)
              (calls st')
         /\ NotEmptyIn (project st') 3
         /\ exists r, getReflectionById 3 (project st') = Some r).
Proof.
  assert (Hnum : NumbersFromCounter Examples.declarations).
  { intros m n r Hr. unfold Examples.declarations in *.
    destruct (Symbol_eq_dec m Examples.symU); destruct Hr as [<- | []]; split;
      rewrite ?idsFrom_unfold, ?idsBelow_unfold; simpl;
      rewrite ?Nat.leb_refl, ?andb_true_r; try reflexivity; apply Nat.ltb_lt; lia. }
  destruct (@empty_internal_namespace_removed findChildByName Examples.declarations
              "internal" false) as (_ & Hrun).
  split.
  - eexists. split; [vm_compute; reflexivity |]. split; [vm_compute; tauto |].
    reflexivity.
  - eexists. split; [vm_compute; reflexivity |]. split; [vm_compute; tauto |].
    split.
    + destruct (Hrun 2 (Examples.stateM (Examples.unresolved Examples.symU)) _
                  Hnum eq_refl ltac:(vm_compute; reflexivity)
                  1 ReflectionKind.Namespace "internal"%string 3
                  ltac:(vm_compute; tauto)) as [[] | (_ & _ & _ & H)].
      exact H.
    + eexists. vm_compute. reflexivity.
Defined.
(** C6.  On a tree in which every symbol reference reachable from the
    modules has a reflection, as a first run leaves it when it resolves
    everything, the driver changes nothing: the collector returns the empty
    set for every module, every module is skipped, and the phase returns the
    state it was given, with [knownPrograms] cleared. *)
Theorem resolved_tree_untouched
  (findReflectionByName : Reflection -> string -> option Reflection)
  (symbolDeclarations : Symbol -> nat -> list Reflection) (internalNamespace : string)
  (noMissingExports : bool) (fuel : nat) (st : State) :
  FullyResolved st (projectModules st) ->
  (forall m, In m (projectModules st) ->
             discoverMissingExportsOf st m = SymbolSet.empty
             /\ resolveModule findReflectionByName symbolDeclarations internalNamespace
                  noMissingExports (projectModules st) m fuel st = Some (Returned st))
  /\ onResolveBegin findReflectionByName symbolDeclarations internalNamespace
       noMissingExports fuel st = Some (Returned (setKnownPrograms [] st)).
Proof.
  intros H. split.
  - intros m Hm.
    pose proof (@discoverMissingExportsOf_resolved st (projectModules st) m H Hm) as E.
    split; [exact E |]. unfold resolveModule. rewrite E. reflexivity.
  - unfold onResolveBegin.
    rewrite resolveModules_resolved; [reflexivity | exact H | apply incl_refl].
Qed.

(** The first run over module [M] converts [U] and [V]; the second run
    over its result changes nothing. *)
Lemma resolved_tree_untouched_witness :
  exists st1,
    onResolveBegin findChildByName Examples.declarations "internal" false 2
      (Examples.stateM (Examples.unresolved Examples.symU)) = Some (Returned st1)
    /\ calls st1 <> []
    /\ onResolveBegin findChildByName Examples.declarations "internal" false 2 st1
       = Some (Returned (setKnownPrograms [] st1)).
Proof.
  eexists. split; [vm_compute; reflexivity |]. split; [discriminate |].
  apply resolved_tree_untouched.
  intros m r s Hm Hr Hs.
  vm_compute in Hm. destruct Hm as [<- | []].
  vm_compute in Hr. injection Hr as <-.
  apply discoverMissingExports_spec in Hs. vm_compute in Hs. exact Hs.
Defined.

(** C7.  With [noMissingExports] set, a missing symbol whose name finds no
    reflection is marked tried and nothing else; the phase ends after one
    round per module; however it ends, no symbol is converted and such a
    symbol has no binding afterwards if it had none before; when the phase
    returns, the tree is the tree at the start, so no module has an internal
    namespace it did not have; and the phase returns when the conversion
    recorded a program for each module. *)
Theorem no_synthesis_leaves_symbol_unresolved
  (findReflectionByName : Reflection -> string -> option Reflection)
  (symbolDeclarations : Symbol -> nat -> list Reflection) (internalNamespace : string)
  (fuel : nat) (st : State) :
  idsBelow (nextId st) (project st) = true ->
  (forall modules currentModule rs m,
      findReflectionByName (project (state rs)) (symbol_name m) = None ->
      resolveSymbol findReflectionByName symbolDeclarations internalNamespace true
        modules currentModule rs m
      = Returned (mkResolution (state rs) (internalContext rs)
                    (SymbolSet.add m (tried rs))))
  /\ exists out,
      onResolveBegin findReflectionByName symbolDeclarations internalNamespace true
        (S fuel) st = Some out
      /\ (forall scope m,
             In (ConvertSymbol scope m) (calls (outcomeState out)) ->
             In (ConvertSymbol scope m) (calls st))
      /\ (forall m,
             findReflectionByName (project st) (symbol_name m) = None ->
             getReflectionFromSymbol (symbolToReflectionIdMap st) m = None ->
             getReflectionFromSymbol (symbolToReflectionIdMap (outcomeState out)) m
             = None)
      /\ (forall st', out = Returned st' -> project st' = project st)
      /\ (ProgramsRecorded st (projectModules st) -> exists st', out = Returned st').
Proof.
  intros Hids. split.
  - intros modules currentModule rs m Hfind. unfold resolveSymbol. simpl.
    rewrite Hfind. destruct (String.eqb (symbol_name m) "default"); reflexivity.
  - destruct (@onResolveBegin_without_synthesis findReflectionByName symbolDeclarations
                internalNamespace fuel st Hids) as (out & Hrun & Hend & Hret).
    exists out. split; [exact Hrun |].
    assert (Hun : Unsynthesized findReflectionByName st (outcomeState out)).
    { destruct out as [st' | st']; simpl in *;
        [apply TreeUnchanged_Unsynthesized |]; exact Hend. }
    destruct Hun as (Hconv & Hb).
    split; [exact Hconv |]. split; [exact Hb |]. split; [| exact Hret].
    intros st' ->. destruct Hend as (Hp & _). exact Hp.
Qed.

(** Module [M] names the undocumented [U], and a program was recorded for
    [M]: with [noMissingExports] the phase returns, the tree stays as it is
    and [U] stays without a binding. *)
Lemma no_synthesis_leaves_symbol_unresolved_witness :
  exists st',
    onResolveBegin findChildByName Examples.declarations "internal" true 1
      (Examples.stateM (Examples.unresolved Examples.symU)) = Some (Returned st')
    /\ project st' = Examples.projectM (Examples.unresolved Examples.symU)
    /\ getReflectionFromSymbol (symbolToReflectionIdMap st') Examples.symU = None.
Proof.
  destruct (@no_synthesis_leaves_symbol_unresolved findChildByName Examples.declarations
              "internal" 0 (Examples.stateM (Examples.unresolved Examples.symU))
              eq_refl) as (_ & out & Hrun & _ & Hb & Htree & Hret).
  destruct Hret as (st' & ->).
  { intros i Hi. vm_compute in Hi. destruct Hi as [<- | []]. discriminate. }
  exists st'. split; [exact Hrun |]. split; [apply Htree; reflexivity |].
  apply (Hb Examples.symU); reflexivity.
Defined.

(** C8.  A missing symbol named [default] is marked tried and nothing
    else, before any lookup; in a whole phase, however it ends, no call
    registers or converts a symbol of that name, and such a symbol has no
    binding afterwards if it had none before. *)
Theorem default_export_left_unresolved
  (findReflectionByName : Reflection -> string -> option Reflection)
  (symbolDeclarations : Symbol -> nat -> list Reflection) (internalNamespace : string)
  (noMissingExports : bool) (fuel : nat) (st : State) (out : Outcome State) :
  onResolveBegin findReflectionByName symbolDeclarations internalNamespace
    noMissingExports fuel st = Some out ->
  (forall modules currentModule rs m,
      symbol_name m = "default"%string ->
      resolveSymbol findReflectionByName symbolDeclarations internalNamespace
        noMissingExports modules currentModule rs m
      = Returned (mkResolution (state rs) (internalContext rs)
                    (SymbolSet.add m (tried rs))))
  /\ (forall scope r m,
         symbol_name m = "default"%string ->
         In (RegisterReflection scope r m) (calls (outcomeState out)) ->
         In (RegisterReflection scope r m) (calls st))
  /\ (forall scope m,
         symbol_name m = "default"%string ->
         In (ConvertSymbol scope m) (calls (outcomeState out)) ->
         In (ConvertSymbol scope m) (calls st))
  /\ (forall m,
         symbol_name m = "default"%string ->
         getReflectionFromSymbol (symbolToReflectionIdMap st) m = None ->
         getReflectionFromSymbol (symbolToReflectionIdMap (outcomeState out)) m = None).
Proof.
  intros Hrun. apply DefaultUntouched_onResolveBegin in Hrun.
  destruct Hrun as (Hcalls & Hb).
  split; [| split; [| split]].
  - intros modules currentModule rs m Hname. apply default_symbol_skipped. exact Hname.
  - intros scope r m Hname Hin. destruct (Hcalls _ Hin) as [H | H]; [exact H |].
    simpl in H. contradiction.
  - intros scope m Hname Hin. destruct (Hcalls _ Hin) as [H | H]; [exact H |].
    simpl in H. contradiction.
  - exact Hb.
Qed.

(** Module [M] names a symbol called [default]: the namespace is created
    and removed, and the symbol gets no binding. *)
Lemma default_export_left_unresolved_witness :
  exists st',
    onResolveBegin findChildByName Examples.declarations "internal" false 2
      (Examples.stateM (Examples.unresolved Examples.symDefault)) = Some (Returned st')
    /\ getReflectionFromSymbol (symbolToReflectionIdMap st') Examples.symDefault = None
    /\ ~ In (ConvertSymbol 3 Examples.symDefault) (calls st').
Proof.
  eexists. split; [vm_compute; reflexivity |].
  destruct (@default_export_left_unresolved findChildByName Examples.declarations
              "internal" false 2
              (Examples.stateM (Examples.unresolved Examples.symDefault)) _
              ltac:(vm_compute; reflexivity)) as (_ & _ & Hconv & Hb).
  split.
  - apply Hb; reflexivity.
  - intros Hin. apply (Hconv 3 Examples.symDefault eq_refl) in Hin. exact Hin.
Defined.

(** * Further properties of the code *)

(** ** The collector and the table of bindings *)

(** A reported symbol is one that a reachable reference names and that the
    table does not bind: what is reachable does not depend on the table. *)
Lemma MissingReference_Referenced (bindings : list (Symbol * nat)) (root : Reflection)
  (s : Symbol) :
  MissingReference bindings root s
  <-> Referenced root s /\ getReflectionFromSymbol bindings s = None.
Proof.
  split.
  - intros (r & Hr & t & target & args & Ht & Hc & Hnone & Hsym).
    destruct target as [i | s' |]; simpl in Hsym; try discriminate.
    injection Hsym as ->. simpl in Hnone.
    split; [| exact Hnone]. exists r, t, args. auto.
  - intros ((r & t & args & Hr & Ht & Hc) & Hnone).
    exists r. split; [exact Hr |].
    exists t, (TargetSymbol s), args. auto.
Qed.

Lemma getReflectionFromSymbol_bindSymbol (b : list (Symbol * nat)) (s x : Symbol) (i : nat) :
  getReflectionFromSymbol (bindSymbol b s i) x = None
  <-> getReflectionFromSymbol b x = None /\ x <> s.
Proof.
  unfold bindSymbol.
  destruct (getReflectionFromSymbol b s) as [j |] eqn:Hs.
  - split; [| tauto]. intros H. split; [exact H |]. intros ->. congruence.
  - rewrite getReflectionFromSymbol_app. simpl.
    destruct (getReflectionFromSymbol b x) as [j |] eqn:Hx.
    + split; [discriminate | intros (H & _); discriminate].
    + destruct (Symbol_eq_dec x s) as [-> | Hne].
      * split; [discriminate | intros (_ & H); contradiction].
      * tauto.
Qed.

(** X1.  Binding a symbol removes that symbol, and no other, from what the
    collector reports: from any root, the symbols reported with the table
    that [registerReflection] leaves are those reported before, without the
    registered one. *)
Theorem registration_removes_symbol (bindings : list (Symbol * nat)) (root : Reflection)
  (s : Symbol) (i : nat) (x : Symbol) :
  In x (discoverMissingExports (bindSymbol bindings s i) root)
  <-> In x (discoverMissingExports bindings root) /\ x <> s.
Proof.
  rewrite !discoverMissingExports_spec, !MissingReference_Referenced.
  rewrite getReflectionFromSymbol_bindSymbol. tauto.
Qed.

(** X2.  The collector does not follow the [extendedBy] and
    [implementedBy] back references: its result does not change with those
    two arrays of the root, and every symbol it reports occurs in the tree
    outside the back references, at any depth. *)
Theorem back_references_not_followed (bindings : list (Symbol * nat)) (root : Reflection) :
  (forall eb ib,
      discoverMissingExports bindings (withBackReferences root eb ib)
      = discoverMissingExports bindings root)
  /\ incl (discoverMissingExports bindings root) (reflection_symbols root).
Proof.
  split.
  - intros eb ib. destruct root. reflexivity.
  - apply symbols_discoverMissingExports.
Qed.

(** X3.  The work list computes what a descent through the tree would:
    the symbols found from a reflection are those of the unresolved
    references in its own visited types, and those found from each
    reflection it pushes on the queue. *)
Theorem discoverMissingExports_by_parts (bindings : list (Symbol * nat)) (r : Reflection)
  (s : Symbol) :
  In s (discoverMissingExports bindings r)
  <-> UnresolvedIn bindings r s
      \/ exists x, Enqueued r x /\ In s (discoverMissingExports bindings x).
Proof.
  rewrite discoverMissingExports_spec, MissingReference_head.
  split; (intros [H | (x & Hx & H)]; [left; exact H | right; exists x; split; [exact Hx |]]).
  - apply discoverMissingExports_spec. exact H.
  - apply discoverMissingExports_spec in H. exact H.
Qed.

(** ** The creation listener of [load] *)

Lemma kindOf_lor (r : Reflection) (a b : N) :
  kindOf r (N.lor a b) = kindOf r a || kindOf r b.
Proof.
  unfold kindOf. rewrite N.land_lor_distr_r.
  destruct (N.eqb_spec (N.land (kind r) a) 0) as [Ha | Ha],
           (N.eqb_spec (N.land (kind r) b) 0) as [Hb | Hb]; simpl.
  - rewrite Ha, Hb. reflexivity.
  - rewrite Ha. simpl. apply negb_true_iff, N.eqb_neq. exact Hb.
  - apply negb_true_iff, N.eqb_neq. intros H. apply N.lor_eq_0_iff in H. tauto.
  - apply negb_true_iff, N.eqb_neq. intros H. apply N.lor_eq_0_iff in H. tauto.
Qed.

(** The listener as [finalizeDeclarationReflection] fires it during the
    resolution phase, with a program active, is the listener of [load] on
    the project scope. *)
Lemma knownPrograms_onCreateDeclaration (st : State) (p : Program) :
  program st = Some p ->
  onCreateDeclaration st
  = Returned (setKnownPrograms (recordProgram (project st) p (knownPrograms st)) st).
Proof.
  intros Hp. unfold onCreateDeclaration, recordProgram. rewrite Hp.
  destruct (kindOf (project st) _); [reflexivity |].
  rewrite setKnownPrograms_same. reflexivity.
Qed.

(** X4.  The creation listener keeps, for each scope that is a project or
    a module, the program of the last declaration created in it, and keeps
    nothing for a scope of another kind: reading [knownPrograms] after the
    event gives the program of the event at such a scope and what it gave
    before anywhere else. *)
Theorem recordProgram_lookup (scope : Reflection) (p : Program) (k : list (nat * Program))
  (j : nat) :
  knownPrograms_get (recordProgram scope p k) j
  = if (kindOf scope ReflectionKind.Project || kindOf scope ReflectionKind.Module)
       && (id scope =? j)
    then Some p
    else knownPrograms_get k j.
Proof.
  unfold recordProgram. rewrite kindOf_lor.
  destruct (kindOf scope ReflectionKind.Project || kindOf scope ReflectionKind.Module).
  - rewrite knownPrograms_get_set. reflexivity.
  - reflexivity.
Qed.

(** X5.  The program the listener recorded at a project or module scope
    is the one [createInternalContext] makes active before it creates the
    internal namespace of that module: the call returns, the log shows
    [setActiveProgram] with that program, then the creation and the
    finalization, and the program stays active afterwards. *)
Theorem recorded_program_is_activated (internalNamespace : string) (currentModule : nat)
  (scope : Reflection) (p : Program) (k : list (nat * Program)) (rs : Resolution) :
  kindOf scope (N.lor ReflectionKind.Project ReflectionKind.Module) = true ->
  id scope = currentModule ->
  knownPrograms (state rs) = recordProgram scope p k ->
  internalContext rs = None ->
  exists rs',
    createInternalContext internalNamespace currentModule rs
    = Returned (nextId (state rs), rs')
    /\ calls (state rs')
       = calls (state rs)
         ++ [SetActiveProgram (Some p);
             CreateDeclarationReflection currentModule ReflectionKind.Namespace
               internalNamespace (nextId (state rs));
             FinalizeDeclarationReflection (nextId (state rs))]
    /\ program (state rs') = Some p.
Proof.
  intros Hkind Hid Hknown Hmemo.
  assert (Hget : knownPrograms_get (knownPrograms (state rs)) currentModule = Some p).
  { rewrite Hknown. unfold recordProgram.
    rewrite Hkind, knownPrograms_get_set, Hid, Nat.eqb_refl. reflexivity. }
  destruct (createInternalContext_first internalNamespace currentModule rs Hmemo)
    as (st1 & Hcalls & _ & _ & _ & Hprog & _ & [(k1 & E & _) | (_ & Hnone & _)]).
  - eexists. split; [exact E |]. simpl. rewrite Hcalls, Hprog, Hget. tauto.
  - congruence.
Qed.

(** Program 9 is recorded for module [A] of the two-module project and made
    active when the namespace of [A] is created. *)
Lemma recorded_program_is_activated_witness :
  exists rs',
    createInternalContext "internal" 1
      (mkResolution
         (Examples.start Examples.projectAB 5 (recordProgram Examples.moduleA 9 []))
         None [])
    = Returned (5, rs')
    /\ program (state rs') = Some 9.
Proof.
  destruct (@recorded_program_is_activated "internal" 1 Examples.moduleA 9 []
              (mkResolution
                 (Examples.start Examples.projectAB 5
                    (recordProgram Examples.moduleA 9 [])) None [])
              eq_refl eq_refl eq_refl eq_refl) as (rs' & E & _ & Hp).
  exists rs'. split; [exact E | exact Hp].
Defined.

(** ** One symbol of the driver's loop *)

Lemma getReflectionFromSymbol_bindSymbol_same (b : list (Symbol * nat)) (m : Symbol)
  (i : nat) :
  getReflectionFromSymbol (bindSymbol b m i) m <> None.
Proof.
  intros H. apply getReflectionFromSymbol_bindSymbol in H. destruct H as (_ & H).
  apply H. reflexivity.
Qed.

Lemma getReflectionFromSymbol_bindSymbol_kept (b : list (Symbol * nat)) (m s : Symbol)
  (i : nat) :
  getReflectionFromSymbol b s <> None ->
  getReflectionFromSymbol (bindSymbol b m i) s <> None.
Proof.
  intros H H'. apply getReflectionFromSymbol_bindSymbol in H'. tauto.
Qed.

Lemma bound_not_reported (bindings : list (Symbol * nat)) (root : Reflection) (m : Symbol) :
  getReflectionFromSymbol bindings m <> None ->
  ~ In m (discoverMissingExports bindings root).
Proof.
  intros Hb Hin. apply discoverMissingExports_spec, MissingReference_Referenced in Hin.
  tauto.
Qed.

(** The new reflection is found under a scope that is a container of a
    tree numbered below its id. *)
Lemma getReflectionById_addChildren_new (n scope : nat) (x : Reflection) :
  id x = n ->
  forall t s,
    idsBelow n t = true ->
    getReflectionById scope t = Some s ->
    isContainerReflection s = true ->
    getReflectionById n (addChildren scope [x] t) = Some x.
Proof.
  intros Hx t. induction t as [t IH] using Reflection_children_ind.
  intros s Hids Hfind Hcont.
  pose proof (@idsBelow_id _ _ Hids) as Hne.
  unfold addChildren in *. rewrite updateReflection_unfold.
  rewrite getReflectionById_unfold in Hfind.
  destruct (id t =? scope) eqn:Hscope.
  - injection Hfind as <-. rewrite Hcont.
    rewrite getReflectionById_unfold, id_withChildren, children_withChildren.
    apply Nat.eqb_neq in Hne. rewrite Hne, firstSome_app.
    rewrite firstSome_None.
    + simpl. rewrite getReflectionById_unfold, Hx, Nat.eqb_refl. reflexivity.
    + intros c Hc. apply getReflectionById_fresh.
      eapply idsBelow_children; eassumption.
  - rewrite getReflectionById_unfold, id_withChildren, children_withChildren.
    apply Nat.eqb_neq in Hne. rewrite Hne.
    assert (Hcs : forall c, In c (children t) -> idsBelow n c = true).
    { intros c Hc. eapply idsBelow_children; eassumption. }
    clear Hids Hne Hscope.
    induction (children t) as [| c cs IHcs]; simpl in *; [discriminate |].
    inversion IH as [| ? ? IHc IHrest]; subst.
    destruct (getReflectionById scope c) as [s' |] eqn:Hc.
    + injection Hfind as ->. erewrite IHc; eauto.
    + rewrite updateReflection_absent by exact Hc.
      rewrite getReflectionById_fresh by auto.
      apply IHcs; auto.
Qed.

Section OneSymbol.

Variable findReflectionByName : Reflection -> string -> option Reflection.
Variable symbolDeclarations : Symbol -> nat -> list Reflection.
Variable internalNamespace : string.
Variable noMissingExports : bool.
Variable modules : list nat.
Variable currentModule : nat.

#[local] Abbreviation create := (createInternalContext internalNamespace currentModule).
#[local] Abbreviation resolve :=
  (resolveSymbol findReflectionByName symbolDeclarations internalNamespace
     noMissingExports modules currentModule).
#[local] Abbreviation loop :=
  (resolveLoop findReflectionByName symbolDeclarations internalNamespace
     noMissingExports modules currentModule).

(** X6.  The first symbol of a module that is converted: its name finds
    nothing, synthesis is enabled, no namespace exists yet and a program
    was recorded for the module.  The driver activates that program,
    creates the internal namespace under the module with the configured
    name and the next id, finalizes it and converts the symbol in its
    scope; in a tree numbered below the counter where the module is a
    container, the namespace then holds exactly the declarations of the
    symbol. *)
Theorem synthesized_into_internal_namespace (rs : Resolution) (m : Symbol)
  (container : Reflection) (p : Program) :
  String.eqb (symbol_name m) "default" = false ->
  findReflectionByName (project (state rs)) (symbol_name m) = None ->
  noMissingExports = false ->
  internalContext rs = None ->
  knownPrograms_get (knownPrograms (state rs)) currentModule = Some p ->
  idsBelow (nextId (state rs)) (project (state rs)) = true ->
  getReflectionById currentModule (project (state rs)) = Some container ->
  isContainerReflection container = true ->
  exists rs',
    resolve rs m = Returned rs'
    /\ internalContext rs' = Some (nextId (state rs))
    /\ calls (state rs')
       = calls (state rs)
         ++ [SetActiveProgram (Some p);
             CreateDeclarationReflection currentModule ReflectionKind.Namespace
               internalNamespace (nextId (state rs));
             FinalizeDeclarationReflection (nextId (state rs));
             ConvertSymbol (nextId (state rs)) m]
    /\ getReflectionById (nextId (state rs)) (project (state rs'))
       = Some (withChildren
                 (newDeclarationReflection (nextId (state rs)) internalNamespace
                    ReflectionKind.Namespace)
                 (symbolDeclarations m (S (nextId (state rs))))).
Proof.
  intros Hname Hfind Hno Hmemo Hrec Hids Hmod Hcont.
  unfold resolveSymbol. simpl. rewrite Hname, Hfind, Hno.
  set (rs1 := mkResolution (state rs) (internalContext rs)
                (SymbolSet.add m (tried rs))).
  destruct (createInternalContext_first internalNamespace currentModule rs1 Hmemo)
    as (st1 & Hcalls & Hproj & Hnext & _ & _ & _ & [(k & E & _) | (_ & Hnone & _)]);
    [| simpl in Hnone; congruence].
  rewrite E. simpl in Hcalls, Hproj, Hnext. rewrite Hrec in Hcalls.
  eexists. split; [reflexivity |]. unfold setState. cbn [state internalContext].
  split; [reflexivity |]. split.
  - rewrite calls_convertSymbol. cbn [calls setKnownPrograms].
    rewrite Hcalls, <- app_assoc. reflexivity.
  - rewrite project_convertSymbol. cbn [project nextId setKnownPrograms].
    rewrite Hnext, Hproj.
    unfold addChildren at 1.
    rewrite (@getReflectionById_updateReflection _ _ _
               (newDeclarationReflection (nextId (state rs)) internalNamespace
                  ReflectionKind.Namespace)).
    + reflexivity.
    + intros y. destruct (isContainerReflection y); [apply id_withChildren | reflexivity].
    + eapply getReflectionById_addChildren_new; eauto.
Qed.

(** X7.  Right after the step of the loop that registers a symbol, or
    converts it into at least one declaration, the symbol has a binding, so
    [discoverMissingExports] run on the bindings that step leaves does not
    report it, from any root; and the step returns when a program was
    recorded for the module. *)
Theorem handled_symbol_bound_after_step (rs : Resolution) (m : Symbol) :
  String.eqb (symbol_name m) "default" = false ->
  (forall ref,
      findReflectionByName (project (state rs)) (symbol_name m) = Some ref ->
      getModule modules (state rs) ref <> None) ->
  (findReflectionByName (project (state rs)) (symbol_name m) = None ->
   noMissingExports = false /\ forall n, symbolDeclarations m n <> []) ->
  (forall rs',
      resolve rs m = Returned rs' ->
      getReflectionFromSymbol (symbolToReflectionIdMap (state rs')) m <> None
      /\ forall root,
          ~ In m (discoverMissingExports (symbolToReflectionIdMap (state rs')) root))
  /\ (knownPrograms_get (knownPrograms (state rs)) currentModule <> None ->
      exists rs', resolve rs m = Returned rs').
Proof.
  intros Hname Howned Hconv. split.
  - intros rs' Hstep.
    assert (Hb : getReflectionFromSymbol (symbolToReflectionIdMap (state rs')) m
                 <> None).
    { revert Hstep. unfold resolveSymbol. simpl. rewrite Hname.
      destruct (findReflectionByName (project (state rs)) (symbol_name m))
        as [ref |] eqn:Hfind.
      - specialize (Howned ref eq_refl).
        destruct (getModule modules (state rs) ref) as [modCtx |]; [| congruence].
        intros E. injection E as <-. simpl.
        apply getReflectionFromSymbol_bindSymbol_same.
      - destruct (Hconv eq_refl) as (-> & Hdecls).
        match goal with
        | |- context [createInternalContext ?a ?b ?c] =>
            destruct (createInternalContext a b c) as [[ns rs2] | st2];
            [| discriminate]
        end.
        intros E. injection E as <-. unfold setState. cbn [state].
        rewrite bindings_convertSymbol.
        specialize (Hdecls (nextId (state rs2))).
        destruct (symbolDeclarations m (nextId (state rs2))) as [| d ds];
          [congruence |].
        apply getReflectionFromSymbol_bindSymbol_same. }
    split; [exact Hb |].
    intros root. apply bound_not_reported. exact Hb.
  - intros Hrec. unfold resolveSymbol. simpl. rewrite Hname.
    destruct (findReflectionByName (project (state rs)) (symbol_name m))
      as [ref |] eqn:Hfind.
    + destruct (getModule modules (state rs) ref); eauto.
    + destruct noMissingExports; [eauto |].
      destruct (@createInternalContext_recorded internalNamespace currentModule
                  (mkResolution (state rs) (internalContext rs)
                     (SymbolSet.add m (tried rs))) Hrec) as (ns & rs2 & E).
      rewrite E. eauto.
Qed.

(** X8.  Aliasing goes by name alone: two different symbols of the
    same name, when the name finds a reflection that a module owns, are
    both registered against that one reflection, under the same module. *)
Theorem same_name_same_alias (rs : Resolution) (m1 m2 : Symbol) (ref : Reflection)
  (modCtx : nat) :
  String.eqb (symbol_name m1) "default" = false ->
  symbol_name m2 = symbol_name m1 ->
  m1 <> m2 ->
  findReflectionByName (project (state rs)) (symbol_name m1) = Some ref ->
  getModule modules (state rs) ref = Some modCtx ->
  exists rs1 rs2,
    resolve rs m1 = Returned rs1
    /\ resolve rs1 m2 = Returned rs2
    /\ calls (state rs2)
       = calls (state rs)
         ++ [RegisterReflection modCtx (id ref) m1;
             RegisterReflection modCtx (id ref) m2]
    /\ (getReflectionFromSymbol (symbolToReflectionIdMap (state rs)) m1 = None ->
        getReflectionFromSymbol (symbolToReflectionIdMap (state rs)) m2 = None ->
        getReflectionFromSymbol (symbolToReflectionIdMap (state rs2)) m1
        = Some (id ref)
        /\ getReflectionFromSymbol (symbolToReflectionIdMap (state rs2)) m2
           = Some (id ref)).
Proof.
  intros Hname Hsame Hne Hfind Hmod.
  assert (E1 : resolve rs m1
               = Returned (mkResolution (registerReflection modCtx ref m1 (state rs))
                             (internalContext rs) (SymbolSet.add m1 (tried rs)))).
  { unfold resolveSymbol. simpl. rewrite Hname, Hfind, Hmod. reflexivity. }
  assert (E2 : resolve (mkResolution (registerReflection modCtx ref m1 (state rs))
                          (internalContext rs) (SymbolSet.add m1 (tried rs))) m2
               = Returned
                   (mkResolution
                      (registerReflection modCtx ref m2
                         (registerReflection modCtx ref m1 (state rs)))
                      (internalContext rs)
                      (SymbolSet.add m2 (SymbolSet.add m1 (tried rs))))).
  { unfold resolveSymbol. cbn [state internalContext tried].
    rewrite Hsame, Hname.
    change (project (registerReflection modCtx ref m1 (state rs)))
      with (project (state rs)).
    rewrite Hfind.
    change (getModule modules (registerReflection modCtx ref m1 (state rs)) ref)
      with (getModule modules (state rs) ref).
    rewrite Hmod. reflexivity. }
  eexists. eexists. split; [exact E1 |]. split; [exact E2 |]. split.
  - simpl. rewrite <- app_assoc. reflexivity.
  - intros Hb1 Hb2. simpl. unfold bindSymbol at 2 4. rewrite Hb1.
    assert (Hb2' : getReflectionFromSymbol
                     (symbolToReflectionIdMap (state rs) ++ [(m1, id ref)]) m2 = None).
    { rewrite getReflectionFromSymbol_app, Hb2. simpl.
      destruct (Symbol_eq_dec m2 m1); [congruence | reflexivity]. }
    unfold bindSymbol. rewrite Hb2'.
    rewrite !getReflectionFromSymbol_app, Hb1, Hb2. simpl.
    destruct (Symbol_eq_dec m1 m1); [| congruence].
    destruct (Symbol_eq_dec m2 m1); [congruence |].
    destruct (Symbol_eq_dec m2 m2); [| congruence].
    split; reflexivity.
Qed.

End OneSymbol.

(** Module [M] names the undocumented [U]: the namespace gets the id 3 and
    holds the type alias the compiler makes of [U]. *)
Lemma synthesized_into_internal_namespace_witness :
  exists rs',
    resolveSymbol findChildByName Examples.declarations "internal" false [1] 1
      (mkResolution (Examples.stateM (Examples.unresolved Examples.symU)) None [])
      Examples.symU = Returned rs'
    /\ getReflectionById 3 (project (state rs'))
       = Some (Examples.container DeclarationClass 3 "internal" ReflectionKind.Namespace
                 [Examples.typed 4 "U" ReflectionKind.TypeAlias
                    (Examples.unresolved Examples.symV)]).
Proof.
  destruct (@synthesized_into_internal_namespace findChildByName Examples.declarations
              "internal" false [1] 1
              (mkResolution (Examples.stateM (Examples.unresolved Examples.symU)) None [])
              Examples.symU (Examples.moduleM (Examples.unresolved Examples.symU)) 7
              eq_refl eq_refl eq_refl eq_refl eq_refl eq_refl eq_refl eq_refl)
    as (rs' & E & _ & _ & H).
  exists rs'. split; [exact E | exact H].
Defined.

(** The project of one package names [T], which it declares: once [T] is
    registered the collector does not report it from the project. *)
Lemma handled_symbol_bound_after_step_witness :
  exists rs',
    resolveSymbol findChildByName Examples.declarations "internal" false [0] 0
      (mkResolution Examples.stateS None []) Examples.symT = Returned rs'
    /\ ~ In Examples.symT
          (discoverMissingExports (symbolToReflectionIdMap (state rs'))
             Examples.projectS).
Proof.
  destruct (@handled_symbol_bound_after_step findChildByName Examples.declarations
              "internal" false [0] 0 (mkResolution Examples.stateS None [])
              Examples.symT) as (Hbound & Hret).
  - reflexivity.
  - intros ref H. vm_compute in H. injection H as <-. vm_compute. discriminate.
  - intros H. vm_compute in H. discriminate.
  - destruct Hret as (rs' & E); [vm_compute; discriminate |].
    exists rs'. split; [exact E |]. apply (Hbound rs' E).
Defined.

(** Two symbols named [T] in the project of one package: both end up
    bound to the declaration [T]. *)
Lemma same_name_same_alias_witness :
  exists rs1 rs2,
    resolveSymbol findChildByName Examples.declarations "internal" false [0] 0
      (mkResolution Examples.stateS None []) Examples.symT = Returned rs1
    /\ resolveSymbol findChildByName Examples.declarations "internal" false [0] 0
         rs1 (mkSymbol 200 "T") = Returned rs2
    /\ calls (state rs2)
       = [RegisterReflection 0 1 Examples.symT; RegisterReflection 0 1 (mkSymbol 200 "T")].
Proof.
  destruct (@same_name_same_alias findChildByName Examples.declarations "internal" false
              [0] 0 (mkResolution Examples.stateS None []) Examples.symT
              (mkSymbol 200 "T") Examples.aliasT 0
              eq_refl eq_refl ltac:(discriminate) eq_refl eq_refl)
    as (rs1 & rs2 & E1 & E2 & Hcalls & _).
  exists rs1, rs2. split; [exact E1 |]. split; [exact E2 | exact Hcalls].
Defined.

Section Synthesis.

Variable findReflectionByName : Reflection -> string -> option Reflection.
Variable symbolDeclarations : Symbol -> nat -> list Reflection.
Variable internalNamespace : string.
Variable modules : list nat.
Variable currentModule : nat.

#[local] Abbreviation create := (createInternalContext internalNamespace currentModule).
#[local] Abbreviation resolveAll :=
  (resolveSymbols findReflectionByName symbolDeclarations internalNamespace
     false modules currentModule).
#[local] Abbreviation loop :=
  (resolveLoop findReflectionByName symbolDeclarations internalNamespace
     false modules currentModule).

(** X9.  The loop over one module stops only at a fixed point: when it
    returns with synthesis enabled, the internal namespace exists, every
    symbol the collector still reports under it has been tried, and so has
    every symbol the loop was started with. *)
Theorem resolveLoop_stops_at_fixed_point (fuel : nat) :
  forall (rs : Resolution) (missing : SymbolSet.t) (rs' : Resolution),
    loop fuel rs missing = Some (Returned rs') ->
    incl (tried rs) (tried rs')
    /\ incl missing (tried rs')
    /\ exists ns,
        internalContext rs' = Some ns
        /\ incl (discoverMissingExportsOf (state rs') ns) (tried rs').
Proof.
  induction fuel as [| fuel IH]; intros rs missing rs'; simpl; [discriminate |].
  unfold resolveRound.
  destruct (resolveAll missing rs) as [rs1 | st1] eqn:Hall; [| discriminate].
  pose proof (@tried_resolveSymbols _ _ _ _ _ _ _ _ _ Hall) as Ht1.
  assert (H0 : incl (tried rs) (tried rs1)).
  { intros s Hs. rewrite Ht1. apply addAll_In. tauto. }
  assert (H1 : incl missing (tried rs1)).
  { intros s Hs. rewrite Ht1. apply addAll_In. tauto. }
  destruct (create rs1) as [[ns rs2] | st2] eqn:Hc; [| discriminate].
  pose proof (@createInternalContext_memo _ _ _ _ _ Hc) as Hm.
  pose proof (@tried_createInternalContext _ _ _ _ _ Hc) as Ht.
  rewrite <- Ht in H0, H1.
  match goal with |- context [0 <? ?n] => destruct (0 <? n) eqn:Hsize end; intros E.
  - destruct (IH _ _ _ E) as (Hmono & _ & Hfix).
    split; [| split; [| exact Hfix]]; intros s Hs; apply Hmono; auto.
  - injection E as <-. split; [exact H0 |]. split; [exact H1 |].
    exists ns. split; [exact Hm |].
    intros s Hs. destruct (in_dec Symbol_eq_dec s (tried rs2)) as [Hin | Hout];
      [exact Hin |].
    exfalso. apply Nat.ltb_ge in Hsize.
    assert (Hd : In s (deleteTried (tried rs2)
                         (discoverMissingExportsOf (state rs2) ns))).
    { apply deleteTried_In. tauto. }
    destruct (deleteTried (tried rs2) (discoverMissingExportsOf (state rs2) ns));
      [destruct Hd | simpl in Hsize; lia].
Qed.

End Synthesis.

(** Module [M] names [U], whose declaration names [V]: the loop returns
    after two rounds, with both symbols tried and nothing left to find under
    the namespace. *)
Lemma resolveLoop_stops_at_fixed_point_witness :
  exists rs',
    resolveLoop findChildByName Examples.declarations "internal" false [1] 1 3
      (mkResolution (Examples.stateM (Examples.unresolved Examples.symU)) None [])
      [Examples.symU] = Some (Returned rs')
    /\ In Examples.symU (tried rs')
    /\ exists ns,
        internalContext rs' = Some ns
        /\ incl (discoverMissingExportsOf (state rs') ns) (tried rs').
Proof.
  eexists. split; [vm_compute; reflexivity |].
  destruct (@resolveLoop_stops_at_fixed_point findChildByName Examples.declarations
              "internal" [1] 1 3
              (mkResolution (Examples.stateM (Examples.unresolved Examples.symU)) None [])
              [Examples.symU] _ ltac:(vm_compute; reflexivity))
    as (_ & Hin & Hfix).
  split; [apply Hin; left; reflexivity | exact Hfix].
Defined.

(** ** The calls of one module and of a whole phase *)

Lemma handledSymbols_app (l l' : list Call) :
  handledSymbols (l ++ l') = handledSymbols l ++ handledSymbols l'.
Proof. apply flat_map_app. Qed.

Lemma conversions_app (l l' : list Call) :
  conversions (l ++ l') = conversions l + conversions l'.
Proof. unfold conversions. rewrite filter_app, length_app. reflexivity. Qed.

Lemma NoDup_snoc (A : Type) (l : list A) (a : A) :
  NoDup l -> ~ In a l -> NoDup (l ++ [a]).
Proof.
  intros Hl Ha. apply NoDup_app; [exact Hl | repeat constructor; intros [] | ].
  intros x Hx [<- | []]. contradiction.
Qed.

Section ModuleCalls.

Variable findReflectionByName : Reflection -> string -> option Reflection.
Variable symbolDeclarations : Symbol -> nat -> list Reflection.
Variable internalNamespace : string.
Variable noMissingExports : bool.
Variable modules : list nat.
Variable currentModule : nat.
Variable st0 : State.

#[local] Abbreviation create := (createInternalContext internalNamespace currentModule).
#[local] Abbreviation resolve :=
  (resolveSymbol findReflectionByName symbolDeclarations internalNamespace
     noMissingExports modules currentModule).
#[local] Abbreviation loop :=
  (resolveLoop findReflectionByName symbolDeclarations internalNamespace
     noMissingExports modules currentModule).
#[local] Abbreviation Trace :=
  (ModuleTrace internalNamespace modules currentModule st0).

Lemma ModuleTrace_seen (seen seen' : SymbolSet.t) (st : State) (ns : option nat) :
  incl seen seen' -> Trace seen st ns -> Trace seen' st ns.
Proof.
  intros Hincl (new & H1 & H2 & H3 & H). exists new.
  split; [exact H1 |]. split; [exact H2 |]. split; [| exact H].
  intros s Hs. auto.
Qed.

(** A step that adds calls which handle no symbol and keeps the memo. *)
Lemma ModuleTrace_other (seen : SymbolSet.t) (st st' : State) (ns : option nat)
  (l : list Call) :
  calls st' = calls st ++ l ->
  handledSymbols l = [] ->
  (forall scope r m, ~ In (RegisterReflection scope r m) l) ->
  (forall scope m, ~ In (ConvertSymbol scope m) l) ->
  Trace seen st ns -> Trace seen st' ns.
Proof.
  intros Hcalls Hl Hreg Hconv (new & H1 & H2 & H3 & H4 & H5 & H6).
  exists (new ++ l).
  split; [rewrite Hcalls, H1, app_assoc; reflexivity |].
  rewrite handledSymbols_app, Hl, app_nil_r.
  split; [exact H2 |]. split; [exact H3 |].
  split; [| split].
  - intros scope m Hin. apply in_app_iff in Hin. destruct Hin as [Hin | Hin].
    + eauto.
    + exfalso. eapply Hconv. exact Hin.
  - intros j Hj. apply in_app_iff. left. auto.
  - intros scope r m Hin. apply in_app_iff in Hin. destruct Hin as [Hin | Hin].
    + eauto.
    + exfalso. eapply Hreg. exact Hin.
Qed.

(** The memo after a call of [createInternalContext], however it
    ends. *)
Lemma ModuleTrace_create (seen : SymbolSet.t) (rs : Resolution) :
  Trace seen (state rs) (internalContext rs) ->
  Ends (fun p => Trace seen (state (snd p)) (internalContext (snd p)))
    (fun st => exists ns, Trace seen st ns) (create rs).
Proof.
  intros H. destruct (internalContext rs) as [ns |] eqn:Hmemo.
  - rewrite (createInternalContext_later internalNamespace currentModule rs Hmemo).
    simpl. rewrite Hmemo. exact H.
  - destruct (createInternalContext_first internalNamespace currentModule rs Hmemo)
      as (st1 & Hcalls & _ & _ & _ & _ & _ & Hends).
    assert (HT : Trace seen st1 (Some (nextId (state rs)))).
    { destruct H as (new & H1 & H2 & H3 & H4 & H5 & H6).
      exists (new ++ [SetActiveProgram
                        (knownPrograms_get (knownPrograms (state rs)) currentModule);
                      CreateDeclarationReflection currentModule ReflectionKind.Namespace
                        internalNamespace (nextId (state rs));
                      FinalizeDeclarationReflection (nextId (state rs))]).
      split; [rewrite Hcalls, H1, app_assoc; reflexivity |].
      rewrite handledSymbols_app. simpl. rewrite app_nil_r.
      split; [exact H2 |]. split; [exact H3 |].
      split; [| split].
      + intros scope m Hin. apply in_app_iff in Hin. destruct Hin as [Hin | Hin].
        * apply H4 in Hin. discriminate.
        * simpl in Hin. repeat (destruct Hin as [Hin | Hin]; try discriminate).
          destruct Hin.
      + intros j Hj. injection Hj as <-. apply in_app_iff. right. simpl. auto.
      + intros scope r m Hin. apply in_app_iff in Hin. destruct Hin as [Hin | Hin].
        * eauto.
        * simpl in Hin. repeat (destruct Hin as [Hin | Hin]; try discriminate).
          destruct Hin. }
    destruct Hends as [(k & E & _) | (E & _)]; rewrite E; simpl; [exact HT | eauto].
Qed.

(** A step that registers or converts an unseen symbol. *)
Lemma ModuleTrace_handle (seen : SymbolSet.t) (st st' : State) (ns : option nat)
  (c : Call) (m : Symbol) :
  calls st' = calls st ++ [c] ->
  handledSymbol c = [m] ->
  ~ In m seen ->
  (forall scope m', c = ConvertSymbol scope m' -> ns = Some scope) ->
  (forall scope r m', c = RegisterReflection scope r m' -> In scope modules) ->
  Trace seen st ns -> Trace (SymbolSet.add m seen) st' ns.
Proof.
  intros Hcalls Hc Hm Hconv Hreg (new & H1 & H2 & H3 & H4 & H5 & H6).
  exists (new ++ [c]).
  split; [rewrite Hcalls, H1, app_assoc; reflexivity |].
  rewrite handledSymbols_app. simpl. rewrite Hc, app_nil_r.
  split; [apply NoDup_snoc; auto |].
  split; [| split; [| split]].
  - intros s Hs. apply SymbolSetFacts.add_In. apply in_app_iff in Hs.
    destruct Hs as [Hs | [<- | []]]; auto.
  - intros scope m' Hin. apply in_app_iff in Hin.
    destruct Hin as [Hin | [E | []]]; eauto.
  - intros j Hj. apply in_app_iff. left. auto.
  - intros scope r m' Hin. apply in_app_iff in Hin.
    destruct Hin as [Hin | [E | []]]; eauto.
Qed.

#[local] Abbreviation Traced :=
  (Ends (fun r => Trace (tried r) (state r) (internalContext r))
     (fun st => exists seen ns, Trace seen st ns)).

Lemma ModuleTrace_symbol (rs : Resolution) (m : Symbol) :
  ~ In m (tried rs) ->
  Trace (tried rs) (state rs) (internalContext rs) ->
  Traced (resolve rs m).
Proof.
  intros Hm H.
  assert (Hskip : Trace (SymbolSet.add m (tried rs)) (state rs) (internalContext rs)).
  { eapply ModuleTrace_seen; [| exact H]. intros s Hs.
    apply SymbolSetFacts.add_In. auto. }
  unfold resolveSymbol. cbn [state internalContext tried].
  destruct (String.eqb (symbol_name m) "default"); [exact Hskip |].
  destruct (findReflectionByName (project (state rs)) (symbol_name m)) as [ref |].
  - destruct (getModule modules (state rs) ref) as [modCtx |] eqn:Hmod;
      [| exact Hskip].
    simpl. eapply ModuleTrace_handle; try exact H; try exact Hm.
    + reflexivity.
    + reflexivity.
    + discriminate.
    + intros scope r m' E. injection E as <- _ _.
      apply getModule_owner in Hmod. tauto.
  - destruct noMissingExports; [exact Hskip |].
    set (rs1 := mkResolution (state rs) (internalContext rs)
                  (SymbolSet.add m (tried rs))).
    pose proof (@ModuleTrace_create (tried rs) rs1 H) as H2.
    destruct (create rs1) as [[ns rs2] | st2] eqn:Hc; simpl in H2;
      [| destruct H2 as (ns & H2); simpl; eauto].
    pose proof (@createInternalContext_memo _ _ _ _ _ Hc) as Hmemo.
    pose proof (@tried_createInternalContext _ _ _ _ _ Hc) as Ht.
    simpl. unfold setState. cbn [state internalContext tried]. rewrite Ht.
    eapply ModuleTrace_handle; try exact H2; try exact Hm.
    + apply calls_convertSymbol.
    + reflexivity.
    + intros scope m' E. injection E as <- _. exact Hmemo.
    + discriminate.
Qed.

Lemma ModuleTrace_fold (missing : SymbolSet.t) :
  forall rs,
    Trace (tried rs) (state rs) (internalContext rs) ->
    NoDup missing ->
    (forall s, In s missing -> ~ In s (tried rs)) ->
    Traced (resolveSymbols findReflectionByName symbolDeclarations internalNamespace
              noMissingExports modules currentModule missing rs).
Proof.
  induction missing as [| m missing IH]; intros rs H Hnd Hnew; simpl; [exact H |].
  inversion Hnd as [| ? ? Hm Hnd']; subst.
  pose proof (@ModuleTrace_symbol rs m (Hnew m (or_introl eq_refl)) H) as H1.
  destruct (resolve rs m) as [rs1 | st1] eqn:Hstep; simpl in H1; [| exact H1].
  apply IH.
  - exact H1.
  - exact Hnd'.
  - intros s Hs. rewrite (tried_resolveSymbol _ _ _ _ _ _ _ _ Hstep).
    rewrite SymbolSetFacts.add_In.
    intros [Hin | ->]; [| contradiction].
    apply (Hnew s); [right; exact Hs | exact Hin].
Qed.

Lemma ModuleTrace_loop (fuel : nat) :
  forall rs missing out,
    Trace (tried rs) (state rs) (internalContext rs) ->
    NoDup missing ->
    (forall s, In s missing -> ~ In s (tried rs)) ->
    loop fuel rs missing = Some out ->
    Traced out.
Proof.
  induction fuel as [| fuel IH]; intros rs missing out H Hnd Hnew; simpl;
    [discriminate |].
  pose proof (@ModuleTrace_fold missing rs H Hnd Hnew) as H1.
  unfold resolveRound.
  destruct (resolveSymbols _ _ _ _ _ _ missing rs) as [rs1 | st1];
    simpl in H1; [| intros E; injection E as <-; exact H1].
  destruct noMissingExports eqn:Hno.
  - match goal with |- context [0 <? ?n] => destruct (0 <? n) end; intros E;
      [| injection E as <-; exact H1].
    eapply IH; [exact H1 | | | exact E].
    + apply deleteTried_NoDup. exact Hnd.
    + intros s Hs. apply deleteTried_In in Hs. tauto.
  - pose proof (@ModuleTrace_create _ _ H1) as H2.
    destruct (create rs1) as [[ns rs2] | st2] eqn:Hc; simpl in H2;
      [| intros E; injection E as <-; destruct H2 as (ns & H2); simpl; eauto].
    pose proof (@tried_createInternalContext _ _ _ _ _ Hc) as Ht.
    rewrite <- Ht in H2.
    match goal with |- context [0 <? ?n] => destruct (0 <? n) end; intros E;
      [| injection E as <-; exact H2].
    eapply IH; [exact H2 | | | exact E].
    + apply deleteTried_NoDup, discoverMissingExportsOf_NoDup.
    + intros s Hs. apply deleteTried_In in Hs. tauto.
Qed.

(** The calls one module adds, however it ends. *)
Lemma ModuleTrace_resolveModule (fuel : nat) (out : Outcome State) :
  resolveModule findReflectionByName symbolDeclarations internalNamespace
    noMissingExports modules currentModule fuel st0 = Some out ->
  exists seen ns, Trace seen (outcomeState out) ns.
Proof.
  unfold resolveModule.
  assert (Hstart : Trace SymbolSet.empty st0 None).
  { exists []. rewrite app_nil_r. split; [reflexivity |].
    split; [constructor |]. split; [intros s [] |].
    split; [intros scope m [] |]. split; [discriminate | intros scope r m []]. }
  destruct (SymbolSet.size (discoverMissingExportsOf st0 currentModule) =? 0).
  { intros E. injection E as <-. simpl. eauto. }
  destruct (loop fuel (mkResolution st0 None SymbolSet.empty)
              (discoverMissingExportsOf st0 currentModule)) as [out1 |] eqn:Hloop;
    [| discriminate].
  apply ModuleTrace_loop in Hloop;
    [| exact Hstart | apply discoverMissingExportsOf_NoDup | intros s _ []].
  destruct out1 as [rs1 | st1]; simpl in Hloop;
    [| intros E; injection E as <-; exact Hloop].
  apply ModuleTrace_create in Hloop.
  destruct (create rs1) as [[ns rs2] | st2]; simpl in Hloop;
    [| intros E; injection E as <-; simpl; eauto].
  intros E. injection E as <-.
  exists (tried rs1), (internalContext rs2). simpl.
  destruct (childrenOf (state rs2) ns) as [| child rest].
  - eapply ModuleTrace_other with (st := state rs2)
      (l := [RemoveReflection ns; SetActiveProgram None]); try exact Hloop.
    + simpl. rewrite <- app_assoc. reflexivity.
    + reflexivity.
    + intros scope r m Hin. simpl in Hin.
      repeat (destruct Hin as [Hin | Hin]; try discriminate). destruct Hin.
    + intros scope m Hin. simpl in Hin.
      repeat (destruct Hin as [Hin | Hin]; try discriminate). destruct Hin.
  - eapply ModuleTrace_other with (st := state rs2)
      (l := [SetActiveProgram None]); try exact Hloop.
    + reflexivity.
    + reflexivity.
    + intros scope r m Hin. simpl in Hin.
      repeat (destruct Hin as [Hin | Hin]; try discriminate). destruct Hin.
    + intros scope m Hin. simpl in Hin.
      repeat (destruct Hin as [Hin | Hin]; try discriminate). destruct Hin.
Qed.

(** X10.  While one module is processed no symbol is registered or
    converted twice: the calls the module adds to the log, when it returns
    and when it ends with an exception, handle pairwise different
    symbols. *)
Theorem symbol_handled_once_per_module (fuel : nat) (out : Outcome State) :
  resolveModule findReflectionByName symbolDeclarations internalNamespace
    noMissingExports modules currentModule fuel st0 = Some out ->
  exists new,
    calls (outcomeState out) = calls st0 ++ new /\ NoDup (handledSymbols new).
Proof.
  intros H. apply ModuleTrace_resolveModule in H.
  destruct H as (seen & ns & new & H1 & H2 & _). eauto.
Qed.

End ModuleCalls.

(** Module [M] names [U], whose declaration names [V]: each of the two is
    converted once. *)
Lemma symbol_handled_once_per_module_witness :
  exists st',
    resolveModule findChildByName Examples.declarations "internal" false [1] 1 3
      (Examples.stateM (Examples.unresolved Examples.symU)) = Some (Returned st')
    /\ exists new,
        calls st' = calls (Examples.stateM (Examples.unresolved Examples.symU)) ++ new
        /\ NoDup (handledSymbols new).
Proof.
  eexists. split; [vm_compute; reflexivity |].
  exact (@symbol_handled_once_per_module findChildByName Examples.declarations "internal"
           false [1] 1 (Examples.stateM (Examples.unresolved Examples.symU)) 3 _
           ltac:(vm_compute; reflexivity)).
Defined.

Section PhaseCalls.

Variable findReflectionByName : Reflection -> string -> option Reflection.
Variable symbolDeclarations : Symbol -> nat -> list Reflection.
Variable internalNamespace : string.
Variable noMissingExports : bool.

#[local] Abbreviation run :=
  (onResolveBegin findReflectionByName symbolDeclarations internalNamespace
     noMissingExports).
#[local] Abbreviation runModules :=
  (resolveModules findReflectionByName symbolDeclarations internalNamespace
     noMissingExports).
#[local] Abbreviation runModule :=
  (resolveModule findReflectionByName symbolDeclarations internalNamespace
     noMissingExports).

Lemma calls_resolveModules (fuel : nat) (modules : list nat) (todo : list nat) :
  incl todo modules ->
  forall st out,
    runModules fuel modules todo st = Some out ->
    exists new,
      calls (outcomeState out) = calls st ++ new
      /\ (forall scope m,
            In (ConvertSymbol scope m) new ->
            exists owner,
              In owner modules
              /\ In (CreateDeclarationReflection owner ReflectionKind.Namespace
                       internalNamespace scope) new)
      /\ (forall scope r m, In (RegisterReflection scope r m) new -> In scope modules).
Proof.
  induction todo as [| m todo IH]; intros Hincl st out; simpl.
  - intros E. injection E as <-. exists []. simpl. rewrite app_nil_r.
    split; [reflexivity |]. split; [intros scope m [] | intros scope r m []].
  - destruct (runModule modules m fuel st) as [out1 |] eqn:Hm; [| discriminate].
    apply ModuleTrace_resolveModule in Hm.
    destruct Hm as (seen & ns & new1 & H1 & _ & _ & Hconv1 & Hns1 & Hreg1).
    destruct out1 as [st1 | st1]; simpl in H1.
    2: { intros E. injection E as <-. exists new1. split; [exact H1 |]. split.
         - intros scope s Hin. exists m. split; [apply Hincl; left; reflexivity |].
           apply Hns1. eapply Hconv1. exact Hin.
         - exact Hreg1. }
    intros Hrest.
    apply IH in Hrest; [| intros x Hx; apply Hincl; right; exact Hx].
    destruct Hrest as (new2 & H2 & Hconv2 & Hreg2).
    exists (new1 ++ new2).
    split; [rewrite H2, H1, app_assoc; reflexivity |].
    split.
    + intros scope s Hin. apply in_app_iff in Hin. destruct Hin as [Hin | Hin].
      * exists m. split; [apply Hincl; left; reflexivity |].
        apply in_app_iff. left. apply Hns1. eapply Hconv1. exact Hin.
      * destruct (Hconv2 _ _ Hin) as (owner & Ho & Hc). exists owner.
        split; [exact Ho |]. apply in_app_iff. right. exact Hc.
    + intros scope r s Hin. apply in_app_iff in Hin. destruct Hin as [Hin | Hin]; eauto.
Qed.

(** X11.  A phase only adds calls to the log, and what it adds is
    confined to the modules: a symbol is converted only into a namespace
    that the phase itself created, with the configured name, under one of
    the modules, and a binding is registered only under one of the
    modules; this holds when the phase returns and when it ends with an
    exception. *)
Theorem calls_confined_to_modules (fuel : nat) (st : State) (out : Outcome State) :
  run fuel st = Some out ->
  exists new,
    calls (outcomeState out) = calls st ++ new
    /\ (forall scope m,
          In (ConvertSymbol scope m) new ->
          exists owner,
            In owner (projectModules st)
            /\ In (CreateDeclarationReflection owner ReflectionKind.Namespace
                     internalNamespace scope) new)
    /\ (forall scope r m,
          In (RegisterReflection scope r m) new -> In scope (projectModules st)).
Proof.
  unfold onResolveBegin.
  destruct (runModules fuel (projectModules st) (projectModules st) st)
    as [out1 |] eqn:Hrun; [| discriminate].
  apply calls_resolveModules in Hrun; [| apply incl_refl].
  destruct out1 as [st1 | st1]; intros E; injection E as <-; exact Hrun.
Qed.

Lemma creations_resolveModules (fuel : nat) (modules : list nat) (todo : list nat) :
  forall st out,
    runModules fuel modules todo st = Some out ->
    creations (calls (outcomeState out)) <= creations (calls st) + List.length todo.
Proof.
  induction todo as [| m todo IH]; intros st out; simpl.
  - intros E. injection E as <-. simpl. lia.
  - destruct (runModule modules m fuel st) as [out1 |] eqn:Hm; [| discriminate].
    apply creations_resolveModule in Hm.
    destruct out1 as [st1 | st1]; simpl in Hm.
    + intros Hrest. apply IH in Hrest.
      destruct (SymbolSet.size (discoverMissingExportsOf st m) =? 0); lia.
    + intros E. injection E as <-. simpl.
      destruct (SymbolSet.size (discoverMissingExportsOf st m) =? 0); lia.
Qed.

(** X12.  A phase calls [createDeclarationReflection] at most once for
    each module of the project, however many symbols are missing,
    however many rounds the loops take and however the phase ends. *)
Theorem at_most_one_namespace_per_module (fuel : nat) (st : State)
  (out : Outcome State) :
  run fuel st = Some out ->
  creations (calls (outcomeState out))
  <= creations (calls st) + List.length (projectModules st).
Proof.
  unfold onResolveBegin.
  destruct (runModules fuel (projectModules st) (projectModules st) st)
    as [out1 |] eqn:Hrun; [| discriminate].
  apply creations_resolveModules in Hrun.
  destruct out1 as [st1 | st1]; intros E; injection E as <-; exact Hrun.
Qed.

(** *** A phase that converts nothing *)

Section Unconverted.

Variable modules : list nat.
Variable currentModule : nat.
Variable st0 : State.

#[local] Abbreviation create :=
  (createInternalContext internalNamespace currentModule).
#[local] Abbreviation Clean := (UnconvertedTree internalNamespace currentModule st0).

Lemma UnconvertedTree_create (rs : Resolution) :
  Clean rs -> Ends (fun p => Clean (snd p)) (fun _ => True) (create rs).
Proof.
  intros (Hconv & Hnext & Htree).
  destruct (internalContext rs) as [ns |] eqn:Hmemo.
  - rewrite (createInternalContext_later internalNamespace currentModule rs Hmemo).
    simpl. unfold UnconvertedTree. rewrite Hmemo. auto.
  - destruct (createInternalContext_first internalNamespace currentModule rs Hmemo)
      as (st1 & Hcalls & Hproj & Hn & _ & _ & _ & [(k & E & _) | (E & _)]);
      rewrite E; [| exact I].
    unfold Ends, UnconvertedTree. cbn [snd state internalContext].
    cbn [calls project nextId setKnownPrograms].
    rewrite Hcalls, Hproj, Hn, conversions_app.
    change (conversions [_; _; _]) with 0. rewrite Nat.add_0_r.
    split; [exact Hconv |]. split; [lia |].
    intros E'. destruct (Htree E') as (-> & ->). auto.
Qed.

Lemma UnconvertedTree_loop (fuel : nat) (rs rs' : Resolution) (missing : SymbolSet.t) :
  Clean rs ->
  resolveLoop findReflectionByName symbolDeclarations internalNamespace
    noMissingExports modules currentModule fuel rs missing = Some (Returned rs') ->
  Clean rs'.
Proof.
  intros H Hloop. change (Ends Clean (fun _ => True) (Returned rs')).
  revert H Hloop.
  apply (@resolveLoop_invariant findReflectionByName symbolDeclarations
           internalNamespace noMissingExports modules currentModule Clean
           (fun _ => True)).
  - intros r m H. exact H.
  - intros r m ref modCtx (Hconv & Hnext & Htree) _ _ _.
    unfold UnconvertedTree. simpl. rewrite conversions_app.
    change (conversions [_]) with 0. rewrite Nat.add_0_r. auto.
  - intros _ r H. apply UnconvertedTree_create. exact H.
  - intros _ r ns m (Hconv & Hnext & Htree) _ _.
    unfold UnconvertedTree, setState. cbn [state internalContext].
    rewrite calls_convertSymbol, nextId_convertSymbol, conversions_app.
    change (conversions [_]) with 1.
    split; [lia |]. split; [lia |]. intros E. lia.
Qed.

Lemma unconverted_resolveModule (fuel : nat) (st' : State) :
  runModule modules currentModule fuel st0 = Some (Returned st') ->
  conversions (calls st0) <= conversions (calls st')
  /\ nextId st0 <= nextId st'
  /\ (idsBelow (nextId st0) (project st0) = true ->
      conversions (calls st') = conversions (calls st0) ->
      project st' = project st0).
Proof.
  unfold resolveModule.
  destruct (SymbolSet.size (discoverMissingExportsOf st0 currentModule) =? 0).
  { intros E. injection E as <-. auto. }
  destruct (resolveLoop _ _ _ _ _ _ _ _ _) as [[rs1 | st1] |] eqn:Hloop;
    [| discriminate | discriminate].
  apply UnconvertedTree_loop in Hloop.
  2: { unfold UnconvertedTree. simpl. auto. }
  apply UnconvertedTree_create in Hloop.
  pose proof (@createInternalContext_memo internalNamespace currentModule rs1) as Hmemo.
  destruct (create rs1) as [[ns rs2] | st2]; [| discriminate].
  specialize (Hmemo rs2 ns eq_refl). simpl in Hloop.
  destruct Hloop as (Hconv & Hnext & Htree). rewrite Hmemo in Htree.
  intros E. injection E as <-.
  assert (Hc : conversions
                 (calls (setActiveProgram None
                           match childrenOf (state rs2) ns with
                           | [] => removeReflection ns (state rs2)
                           | _ :: _ => state rs2
                           end))
               = conversions (calls (state rs2))).
  { destruct (childrenOf (state rs2) ns); simpl; rewrite !conversions_app;
      repeat match goal with |- context [conversions [?c]] =>
               change (conversions [c]) with 0 end; lia. }
  rewrite Hc.
  split; [exact Hconv |].
  split; [destruct (childrenOf (state rs2) ns); simpl; exact Hnext |].
  intros Hids E. destruct (Htree E) as (-> & Hproj).
  assert (Hempty : childrenOf (state rs2) (nextId st0) = []).
  { unfold childrenOf. rewrite Hproj.
    destruct (getReflectionById _ _) as [x |] eqn:Hx; [| reflexivity].
    apply getReflectionById_addChildren_fresh in Hx; [| assumption].
    rewrite Hx. reflexivity. }
  rewrite Hempty. simpl. rewrite Hproj.
  apply removeFromTree_addChildren. exact Hids.
Qed.

End Unconverted.

Lemma unconverted_resolveModules (fuel : nat) (modules : list nat) (todo : list nat) :
  forall st st',
    runModules fuel modules todo st = Some (Returned st') ->
    conversions (calls st) <= conversions (calls st')
    /\ nextId st <= nextId st'
    /\ (idsBelow (nextId st) (project st) = true ->
        conversions (calls st') = conversions (calls st) ->
        project st' = project st).
Proof.
  induction todo as [| m todo IH]; intros st st'; simpl.
  - intros E. injection E as <-. auto.
  - destruct (runModule modules m fuel st) as [[st1 | st1] |] eqn:Hm;
      [| discriminate | discriminate].
    intros Hrest.
    apply unconverted_resolveModule in Hm. destruct Hm as (Hc1 & Hn1 & Ht1).
    apply IH in Hrest. destruct Hrest as (Hc2 & Hn2 & Ht2).
    split; [lia |]. split; [lia |].
    intros Hids E.
    assert (E1 : conversions (calls st1) = conversions (calls st)) by lia.
    specialize (Ht1 Hids E1). rewrite <- Ht1. apply Ht2; [| lia].
    rewrite Ht1. eapply idsBelow_mono; [exact Hn1 | exact Hids].
Qed.

(** X13.  A phase that returns and has converted no symbol leaves the
    tree as it found it, whatever it registers and whether synthesis is
    enabled or not: each namespace it created is removed again.  The ids of
    the tree are below the counter. *)
Theorem phase_without_conversion_keeps_tree (fuel : nat) (st st' : State) :
  idsBelow (nextId st) (project st) = true ->
  run fuel st = Some (Returned st') ->
  conversions (calls st') = conversions (calls st) ->
  project st' = project st.
Proof.
  intros Hids. unfold onResolveBegin.
  destruct (runModules fuel (projectModules st) (projectModules st) st)
    as [[st1 | st1] |] eqn:Hrun; [| discriminate | discriminate].
  intros E. injection E as <-. simpl.
  apply unconverted_resolveModules in Hrun. destruct Hrun as (_ & _ & H). auto.
Qed.

End PhaseCalls.

(** Module [M] names the undocumented [U]: both conversions go into the
    namespace the phase created under [M]. *)
Lemma calls_confined_to_modules_witness :
  let st := Examples.stateM (Examples.unresolved Examples.symU) in
  exists st',
    onResolveBegin findChildByName Examples.declarations "internal" false 3 st
    = Some (Returned st')
    /\ exists new,
        calls st' = calls st ++ new
        /\ (forall scope m,
              In (ConvertSymbol scope m) new ->
              exists owner,
                In owner (projectModules st)
                /\ In (CreateDeclarationReflection owner ReflectionKind.Namespace
                         "internal" scope) new)
        /\ (forall scope r m,
              In (RegisterReflection scope r m) new -> In scope (projectModules st)).
Proof.
  intros st. eexists. split; [vm_compute; reflexivity |].
  exact (@calls_confined_to_modules findChildByName Examples.declarations "internal"
           false 3 st _ ltac:(vm_compute; reflexivity)).
Defined.

(** The two-module project: one namespace is created, for module [A]. *)
Lemma at_most_one_namespace_per_module_witness :
  exists st',
    onResolveBegin findChildByName Examples.declarations "internal" false 2
      Examples.stateAB = Some (Returned st')
    /\ creations (calls st') = 1
    /\ creations (calls st')
       <= creations (calls Examples.stateAB) + List.length (projectModules Examples.stateAB).
Proof.
  eexists. split; [vm_compute; reflexivity |]. split; [reflexivity |].
  exact (@at_most_one_namespace_per_module findChildByName Examples.declarations
           "internal" false 2 Examples.stateAB _ ltac:(vm_compute; reflexivity)).
Defined.

(** The project of one package with synthesis enabled: [T] is registered,
    the namespace is created and removed, and the tree is as before. *)
Lemma phase_without_conversion_keeps_tree_witness :
  exists st',
    onResolveBegin findChildByName Examples.declarations "internal" false 2
      Examples.stateS = Some (Returned st')
    /\ creations (calls st') = 1
    /\ project st' = Examples.projectS.
Proof.
  eexists. split; [vm_compute; reflexivity |]. split; [reflexivity |].
  exact (@phase_without_conversion_keeps_tree findChildByName Examples.declarations
           "internal" false 2 Examples.stateS _ eq_refl
           ltac:(vm_compute; reflexivity) eq_refl).
Defined.

(** ** A project whose missing symbols can all be aliased *)

Lemma idsBelow_getReflectionById (n i : nat) (t r : Reflection) :
  idsBelow n t = true -> getReflectionById i t = Some r -> idsBelow n r = true.
Proof.
  revert r. induction t as [t IH] using Reflection_children_ind. intros r Hids.
  rewrite getReflectionById_unfold. destruct (id t =? i).
  - intros E. injection E as <-. exact Hids.
  - intros Hfind. apply firstSome_Some in Hfind. destruct Hfind as (c & Hc & Hfind).
    rewrite Forall_forall in IH. apply (IH c Hc r); [| exact Hfind].
    eapply idsBelow_children; eassumption.
Qed.

Lemma getModule_project (modules : list nat) (st st' : State) (ref : Reflection) :
  project st' = project st -> getModule modules st' ref = getModule modules st ref.
Proof. intros H. unfold getModule. rewrite H. reflexivity. Qed.

Lemma bindingsBelow_mono (n n' : nat) (b : list (Symbol * nat)) :
  n <= n' -> bindingsBelow n b = true -> bindingsBelow n' b = true.
Proof.
  unfold bindingsBelow. intros Hle H. rewrite forallb_forall in *.
  intros p Hp. specialize (H p Hp). apply Nat.ltb_lt in H. apply Nat.ltb_lt. lia.
Qed.

Lemma bindingsBelow_bindSymbol (n i : nat) (b : list (Symbol * nat)) (m : Symbol) :
  bindingsBelow n b = true -> i < n -> bindingsBelow n (bindSymbol b m i) = true.
Proof.
  unfold bindingsBelow, bindSymbol. intros H Hi.
  destruct (getReflectionFromSymbol b m); [exact H |].
  rewrite forallb_app, H. simpl. apply Nat.ltb_lt in Hi. rewrite Hi. reflexivity.
Qed.

Lemma bindingsBelow_filter (n : nat) (b : list (Symbol * nat)) :
  bindingsBelow n b = true -> filter (fun p => negb (snd p =? n)) b = b.
Proof.
  unfold bindingsBelow. intros H. apply filter_all. rewrite forallb_forall in H.
  intros p Hp. specialize (H p Hp). apply Nat.ltb_lt in H.
  apply negb_true_iff, Nat.eqb_neq. lia.
Qed.

Lemma deleteTried_nil (triedSet : SymbolSet.t) : deleteTried triedSet [] = [].
Proof. apply deleteTried_all. intros s []. Qed.

Lemma BindingsKept_refl (st : State) : BindingsKept st st.
Proof. intros s H. exact H. Qed.

Lemma OnlyBindings_refl (st : State) : OnlyBindings st st.
Proof. unfold OnlyBindings. auto using BindingsKept_refl. Qed.

Lemma OnlyBindings_trans (a b c : State) :
  OnlyBindings a b -> OnlyBindings b c -> OnlyBindings a c.
Proof.
  intros (H1 & H2 & H3 & H4) (H5 & H6 & H7 & H8). unfold OnlyBindings.
  split; [congruence |]. split; [lia |]. split; [| congruence].
  intros s Hs. auto.
Qed.

(** With more bindings and the same tree the collector reports less. *)
Lemma discoverMissingExportsOf_kept (st st' : State) (i : nat) (s : Symbol) :
  project st' = project st -> BindingsKept st st' ->
  In s (discoverMissingExportsOf st' i) -> In s (discoverMissingExportsOf st i).
Proof.
  unfold discoverMissingExportsOf. intros -> Hkept.
  destruct (getReflectionById i (project st)) as [r |]; [| tauto].
  rewrite !discoverMissingExports_spec, !MissingReference_Referenced.
  intros (Href & Hnone). split; [exact Href |].
  destruct (getReflectionFromSymbol (symbolToReflectionIdMap st) s) eqn:E;
    [| reflexivity].
  exfalso. apply (Hkept s); [congruence | exact Hnone].
Qed.

Section AliasOnly.

Variable findReflectionByName : Reflection -> string -> option Reflection.
Variable symbolDeclarations : Symbol -> nat -> list Reflection.
Variable internalNamespace : string.
Variable noMissingExports : bool.
Variable modules : list nat.
Variable st0 : State.

Hypothesis all_aliasable : forall i m,
    In i modules -> In m (discoverMissingExportsOf st0 i) ->
    aliasable findReflectionByName modules st0 m = true.

Section OneModule.

Variable currentModule : nat.
Variable st : State.

Hypothesis module_listed : In currentModule modules.
Hypothesis numbered : Numbered st.
Hypothesis so_far : OnlyBindings st0 st.
Hypothesis recorded : knownPrograms_get (knownPrograms st) currentModule <> None.

#[local] Abbreviation create :=
  (createInternalContext internalNamespace currentModule).
#[local] Abbreviation resolve :=
  (resolveSymbol findReflectionByName symbolDeclarations internalNamespace
     noMissingExports modules currentModule).
#[local] Abbreviation resolveAll :=
  (resolveSymbols findReflectionByName symbolDeclarations internalNamespace
     noMissingExports modules currentModule).
#[local] Abbreviation Round rs :=
  (project (state rs) = project st
   /\ nextId (state rs) = nextId st
   /\ internalContext rs = None
   /\ bindingsBelow (nextId st) (symbolToReflectionIdMap (state rs)) = true
   /\ conversions (calls (state rs)) = conversions (calls st)
   /\ knownPrograms (state rs) = knownPrograms st).

Lemma alias_step (rs : Resolution) (m : Symbol) :
  aliasable findReflectionByName modules st0 m = true ->
  Round rs ->
  exists rs',
    resolve rs m = Returned rs'
    /\ Round rs'
    /\ BindingsKept (state rs) (state rs')
    /\ getReflectionFromSymbol (symbolToReflectionIdMap (state rs')) m <> None.
Proof.
  intros Hali (Hproj & Hnext & Hmemo & Hbelow & Hconv & Hknown).
  destruct so_far as (Hproj0 & _). destruct numbered as (Hids & _).
  unfold aliasable in Hali. apply andb_true_iff in Hali.
  destruct Hali as (Hname & Hali). apply negb_true_iff in Hname.
  unfold resolveSymbol. simpl. rewrite Hname, Hproj, Hproj0.
  destruct (findReflectionByName (project st0) (symbol_name m)) as [ref |];
    [| discriminate].
  rewrite (@getModule_project modules st0 (state rs) ref) by congruence.
  destruct (getModule modules st0 ref) as [modCtx |] eqn:Hmod; [| discriminate].
  eexists. split; [reflexivity |]. simpl.
  split; [| split].
  - rewrite conversions_app. change (conversions [_]) with 0.
    split; [congruence |]. split; [exact Hnext |]. split; [exact Hmemo |].
    split; [| split; [lia | exact Hknown]].
    apply bindingsBelow_bindSymbol; [exact Hbelow |].
    apply getModule_owner in Hmod. destruct Hmod as (_ & r & d & Hr & Hd & <-).
    rewrite <- Hproj0 in Hr.
    apply (@idsBelow_getReflectionById _ _ _ _ Hids) in Hr.
    apply filter_In in Hd. destruct Hd as (Hd & _).
    apply idsBelow_root.
    destruct (@idsBelow_children (nextId st) r d Hr Hd) as (Hd' & _). exact Hd'.
  - intros s Hs. simpl. apply getReflectionFromSymbol_bindSymbol_kept. exact Hs.
  - apply getReflectionFromSymbol_bindSymbol_same.
Qed.

Lemma alias_round (missing : SymbolSet.t) :
  forall rs,
    (forall m, In m missing ->
               aliasable findReflectionByName modules st0 m = true) ->
    Round rs ->
    exists rs',
      resolveAll missing rs = Returned rs'
      /\ Round rs'
      /\ BindingsKept (state rs) (state rs')
      /\ forall m,
          In m missing ->
          getReflectionFromSymbol (symbolToReflectionIdMap (state rs')) m <> None.
Proof.
  induction missing as [| m missing IH]; intros rs Hali H; simpl.
  - exists rs. split; [reflexivity |]. split; [exact H |].
    split; [apply BindingsKept_refl | intros m []].
  - destruct (@alias_step rs m) as (rs1 & -> & H1 & Hk1 & Hb1);
      [apply Hali; left; reflexivity | exact H |].
    destruct (IH rs1) as (rs2 & E & H2 & Hk2 & Hb2);
      [intros x Hx; apply Hali; right; exact Hx | exact H1 |].
    exists rs2. split; [exact E |]. split; [exact H2 |]. split.
    + intros s Hs. auto.
    + intros x [<- | Hx]; auto.
Qed.

(** The module is repaired in one round by bindings alone. *)
Lemma alias_only_resolveModule (fuel : nat) :
  exists st',
    resolveModule findReflectionByName symbolDeclarations internalNamespace
      noMissingExports modules currentModule (S fuel) st = Some (Returned st')
    /\ Numbered st'
    /\ OnlyBindings st st'
    /\ discoverMissingExportsOf st' currentModule = [].
Proof.
  destruct so_far as (Hproj0 & _ & Hkept0 & _).
  destruct numbered as (Hids & Hbelow).
  unfold resolveModule.
  destruct (SymbolSet.size (discoverMissingExportsOf st currentModule) =? 0) eqn:Hsize.
  { exists st. split; [reflexivity |]. split; [exact numbered |].
    split; [apply OnlyBindings_refl |].
    apply Nat.eqb_eq in Hsize.
    destruct (discoverMissingExportsOf st currentModule); [reflexivity | discriminate]. }
  set (missing := discoverMissingExportsOf st currentModule).
  destruct (@alias_round missing (mkResolution st None SymbolSet.empty))
    as (rs1 & Hround & (Hproj & Hnext & Hmemo & Hb & Hconv & Hknown) & Hkept & Hbound).
  { intros m Hm. apply (all_aliasable currentModule m module_listed).
    eapply discoverMissingExportsOf_kept; eauto. }
  { simpl. tauto. }
  assert (Htried : incl missing (tried rs1)).
  { intros s Hs. rewrite (@tried_resolveSymbols _ _ _ _ _ _ _ _ _ Hround).
    apply addAll_In. tauto. }
  destruct (createInternalContext_first internalNamespace currentModule rs1 Hmemo)
    as (st1 & Hcalls & Hproj2 & Hnext2 & Hb2 & _ & _
        & [(known & Hc & _) | (_ & Hnone & _)]);
    [| rewrite Hknown in Hnone; contradiction].
  rewrite Hproj, Hnext in Hproj2. rewrite Hnext in Hc, Hnext2, Hcalls.
  set (rs3 := mkResolution (setKnownPrograms known st1) (Some (nextId st))
                (tried rs1)) in *.
  assert (Hlater : create rs3 = Returned (nextId st, rs3))
    by (apply createInternalContext_later; reflexivity).
  assert (Hnone : forall b,
             match getReflectionById (nextId st)
                     (addChildren currentModule
                        [newDeclarationReflection (nextId st) internalNamespace
                           ReflectionKind.Namespace] (project st)) with
             | Some r => discoverMissingExports b r = [] /\ children r = []
             | None => True
             end).
  { intros b. destruct (getReflectionById _ _) as [x |] eqn:Hx; [| exact I].
    apply getReflectionById_addChildren_fresh in Hx; [| exact Hids].
    rewrite Hx. split; reflexivity. }
  assert (Hloop : exists rs2,
             resolveLoop findReflectionByName symbolDeclarations internalNamespace
               noMissingExports modules currentModule (S fuel)
               (mkResolution st None SymbolSet.empty) missing = Some (Returned rs2)
             /\ create rs2 = Returned (nextId st, rs3)).
  { simpl. unfold resolveRound. rewrite Hround. destruct noMissingExports.
    - rewrite deleteTried_all by exact Htried. simpl. eauto.
    - rewrite Hc. unfold discoverMissingExportsOf.
      change (project (state rs3)) with (project st1). rewrite Hproj2.
      specialize (Hnone (symbolToReflectionIdMap (state rs3))).
      destruct (getReflectionById _ _) as [x |].
      + destruct Hnone as (-> & _). rewrite deleteTried_nil. simpl. eauto.
      + rewrite deleteTried_nil. simpl. eauto. }
  destruct Hloop as (rs2 & -> & ->).
  assert (Hempty : childrenOf (state rs3) (nextId st) = []).
  { unfold childrenOf. change (project (state rs3)) with (project st1).
    rewrite Hproj2. specialize (Hnone []).
    destruct (getReflectionById _ _); tauto. }
  rewrite Hempty. eexists. split; [reflexivity |].
  assert (Htree : removeFromTree (nextId st) (project st1) = project st).
  { rewrite Hproj2. apply removeFromTree_addChildren. exact Hids. }
  assert (Hfilter : filter (fun b => negb (snd b =? nextId st))
                      (symbolToReflectionIdMap st1)
                    = symbolToReflectionIdMap (state rs1)).
  { rewrite Hb2. apply bindingsBelow_filter. exact Hb. }
  split; [| split].
  - unfold Numbered. simpl. rewrite Htree, Hnext2, Hfilter.
    split; [eapply idsBelow_mono; [| exact Hids]; lia |].
    eapply bindingsBelow_mono; [| exact Hb]. lia.
  - unfold OnlyBindings. simpl. rewrite Htree, Hnext2, Hcalls.
    split; [reflexivity |]. split; [lia |]. split.
    + intros s Hs. simpl. rewrite Hfilter. apply Hkept. exact Hs.
    + rewrite !conversions_app.
      repeat match goal with
             | |- context [conversions [?a; ?b; ?c]] =>
                 change (conversions [a; b; c]) with 0
             | |- context [conversions [?c]] => change (conversions [c]) with 0
             end.
      lia.
  - unfold discoverMissingExportsOf. simpl. rewrite Htree, Hfilter.
    destruct (getReflectionById currentModule (project st)) as [r |] eqn:Hr;
      [| reflexivity].
    destruct (discoverMissingExports (symbolToReflectionIdMap (state rs1)) r)
      as [| s l] eqn:Hd; [reflexivity |].
    exfalso.
    assert (Hs : In s (discoverMissingExports (symbolToReflectionIdMap (state rs1)) r))
      by (rewrite Hd; left; reflexivity).
    apply (@bound_not_reported _ r s) in Hs; [exact Hs |].
    destruct (in_dec Symbol_eq_dec s missing) as [Hin | Hout].
    + apply Hbound. exact Hin.
    + apply Hkept. simpl. intros Hnone'. apply Hout.
      unfold missing, discoverMissingExportsOf. rewrite Hr.
      rewrite Hd in Hs.
      apply discoverMissingExports_spec, MissingReference_Referenced.
      split; [| exact Hnone'].
      assert (Hs' : In s (discoverMissingExports
                            (symbolToReflectionIdMap (state rs1)) r))
        by (rewrite Hd; left; reflexivity).
      apply discoverMissingExports_spec, MissingReference_Referenced in Hs'.
      tauto.
Qed.

End OneModule.

Lemma alias_only_resolveModules (fuel : nat) (todo : list nat) :
  incl todo modules ->
  forall st,
    Numbered st -> OnlyBindings st0 st -> ProgramsRecorded st todo ->
    exists st',
      resolveModules findReflectionByName symbolDeclarations internalNamespace
        noMissingExports (S fuel) modules todo st = Some (Returned st')
      /\ Numbered st'
      /\ OnlyBindings st st'
      /\ forall i, In i todo -> discoverMissingExportsOf st' i = [].
Proof.
  induction todo as [| m todo IH]; intros Hincl st Hnum Hso Hrec.
  - exists st. split; [reflexivity |]. split; [exact Hnum |].
    split; [apply OnlyBindings_refl | intros i []].
  - destruct (@alias_only_resolveModule m st) with (fuel := fuel)
      as (st1 & Hrun1 & Hnum1 & Hso1 & Hdone1);
      [apply Hincl; left; reflexivity | exact Hnum | exact Hso
       | apply Hrec; left; reflexivity |].
    destruct (IH (fun x Hx => Hincl x (or_intror Hx)) st1 Hnum1
                (OnlyBindings_trans Hso Hso1))
      as (st' & Hrun & Hnum' & Hso' & Hdone).
    { apply (@ProgramsRecorded_kept st st1 todo).
      - intros i Hi. apply Hrec. right. exact Hi.
      - apply (@SamePrograms_resolveModule _ _ _ _ _ _ _ _ _ Hrun1). }
    exists st'. cbn [resolveModules]. rewrite Hrun1.
    split; [exact Hrun |]. split; [exact Hnum' |].
    split; [eapply OnlyBindings_trans; eassumption |].
    intros i [<- | Hi]; [| auto].
    destruct Hso' as (Hproj & _ & Hkept & _).
    destruct (discoverMissingExportsOf st' m) as [| s l] eqn:Hd; [reflexivity |].
    assert (Hs : In s (discoverMissingExportsOf st' m)) by (rewrite Hd; left; reflexivity).
    apply (@discoverMissingExportsOf_kept st1 st' m s Hproj Hkept) in Hs.
    rewrite Hdone1 in Hs. destruct Hs.
Qed.

End AliasOnly.

(** X14.  A project in which every symbol the collector reports can be
    aliased, in a state numbered below the counter in which a program was
    recorded for each module: the phase returns after one round per module
    without converting anything, the tree is the one it started with, every
    symbol reference reachable from the modules has a reflection afterwards,
    and a second phase changes nothing. *)
Theorem alias_only_phase_resolves
  (findReflectionByName : Reflection -> string -> option Reflection)
  (symbolDeclarations : Symbol -> nat -> list Reflection) (internalNamespace : string)
  (noMissingExports : bool) (fuel : nat) (st : State) :
  Numbered st ->
  ProgramsRecorded st (projectModules st) ->
  (forall i m,
      In i (projectModules st) -> In m (discoverMissingExportsOf st i) ->
      aliasable findReflectionByName (projectModules st) st m = true) ->
  exists st',
    onResolveBegin findReflectionByName symbolDeclarations internalNamespace
      noMissingExports (S fuel) st = Some (Returned st')
    /\ project st' = project st
    /\ conversions (calls st') = conversions (calls st)
    /\ FullyResolved st' (projectModules st')
    /\ forall fuel',
        onResolveBegin findReflectionByName symbolDeclarations internalNamespace
          noMissingExports fuel' st' = Some (Returned st').
Proof.
  intros Hnum Hrec Hali.
  destruct (@alias_only_resolveModules findReflectionByName symbolDeclarations
              internalNamespace noMissingExports (projectModules st) st Hali fuel
              (projectModules st) (incl_refl _) st Hnum (OnlyBindings_refl st) Hrec)
    as (st1 & Hrun & _ & (Hproj & _ & _ & Hconv) & Hdone).
  exists (setKnownPrograms [] st1).
  assert (Hmods : projectModules (setKnownPrograms [] st1) = projectModules st).
  { unfold projectModules. simpl. rewrite Hproj. reflexivity. }
  assert (Hfull : FullyResolved (setKnownPrograms [] st1) (projectModules st)).
  { intros i r s Hi Hr Hmiss. simpl in Hr, Hmiss.
    apply discoverMissingExports_spec in Hmiss.
    specialize (Hdone i Hi). unfold discoverMissingExportsOf in Hdone.
    rewrite Hr in Hdone. rewrite Hdone in Hmiss. destruct Hmiss. }
  split; [unfold onResolveBegin; rewrite Hrun; reflexivity |].
  split; [exact Hproj |]. split; [exact Hconv |].
  rewrite Hmods. split; [exact Hfull |].
  intros fuel'. unfold onResolveBegin. rewrite Hmods.
  rewrite resolveModules_resolved; [reflexivity | exact Hfull | apply incl_refl].
Qed.

(** The project of one package: the only missing symbol, [T], is declared
    by the project itself. *)
Lemma alias_only_phase_resolves_witness :
  exists st',
    onResolveBegin findChildByName Examples.declarations "internal" false 1
      Examples.stateS = Some (Returned st')
    /\ project st' = project Examples.stateS
    /\ conversions (calls st') = conversions (calls Examples.stateS)
    /\ FullyResolved st' (projectModules st')
    /\ forall fuel',
        onResolveBegin findChildByName Examples.declarations "internal" false fuel' st'
        = Some (Returned st').
Proof.
  apply (@alias_only_phase_resolves findChildByName Examples.declarations "internal"
           false 0 Examples.stateS).
  - split; reflexivity.
  - intros i Hi. vm_compute in Hi. destruct Hi as [<- | []]. discriminate.
  - intros i m Hi Hm. vm_compute in Hi.
    destruct Hi as [<- | []]; vm_compute in Hm.
    destruct Hm as [<- | []]. reflexivity.
Defined.

(** ** The programs remembered for the modules *)

(** X15.  The creation listener is entered again when the driver
    finalizes an internal namespace, with the project as scope: from one
    module to the next only the program remembered for the project can
    change, so each module still finds the program that was recorded for it
    during conversion; this holds however the loop over the modules ends. *)
Theorem module_programs_undisturbed
  (findReflectionByName : Reflection -> string -> option Reflection)
  (symbolDeclarations : Symbol -> nat -> list Reflection) (internalNamespace : string)
  (noMissingExports : bool) (modules : list nat) (fuel : nat) (todo : list nat) :
  forall st out,
    resolveModules findReflectionByName symbolDeclarations internalNamespace
      noMissingExports fuel modules todo st = Some out ->
    forall j,
      j <> id (project st) ->
      knownPrograms_get (knownPrograms (outcomeState out)) j
      = knownPrograms_get (knownPrograms st) j.
Proof.
  intros st out Hrun j Hj. apply SamePrograms_resolveModules in Hrun.
  destruct Hrun as (_ & _ & Hsame). apply Hsame. exact Hj.
Qed.

(** The two-module project: after both modules the program of module [B]
    is still the one recorded for it, while the entry of the project now
    holds the program of module [A], whose namespace was finalized. *)
Lemma module_programs_undisturbed_witness :
  exists st',
    resolveModules findChildByName Examples.declarations "internal" false 2 [1; 2] [1; 2]
      Examples.stateAB = Some (Returned st')
    /\ knownPrograms_get (knownPrograms st') 0 = Some 7
    /\ knownPrograms_get (knownPrograms st') 2
       = knownPrograms_get (knownPrograms Examples.stateAB) 2.
Proof.
  eexists. split; [vm_compute; reflexivity |]. split; [reflexivity |].
  exact (@module_programs_undisturbed findChildByName Examples.declarations "internal"
           false [1; 2] 2 [1; 2] Examples.stateAB _ ltac:(vm_compute; reflexivity) 2
           ltac:(vm_compute; discriminate)).
Defined.

(** ** A module for which no program was recorded *)

Lemma kind_withChildren (r : Reflection) (cs : list Reflection) :
  kind (withChildren r cs) = kind r.
Proof. destruct r; reflexivity. Qed.

Lemma kind_addChildren (scope : nat) (items : list Reflection) (r : Reflection) :
  kind (addChildren scope items r) = kind r.
Proof.
  unfold addChildren. rewrite updateReflection_unfold.
  destruct (id r =? scope); [destruct (isContainerReflection r) |];
    try apply kind_withChildren; reflexivity.
Qed.

(** The listener throws when it reads the program of a context that has
    none, on a scope that is a project or a module. *)
Lemma onCreateDeclaration_throws (st : State) :
  program st = None ->
  kindOf (project st) (N.lor ReflectionKind.Project ReflectionKind.Module) = true ->
  onCreateDeclaration st = Thrown st.
Proof. intros Hp Hk. unfold onCreateDeclaration. rewrite Hk, Hp. reflexivity. Qed.

Section Unrecorded.

Variable findReflectionByName : Reflection -> string -> option Reflection.
Variable symbolDeclarations : Symbol -> nat -> list Reflection.
Variable internalNamespace : string.
Variable noMissingExports : bool.
Variable modules : list nat.
Variable currentModule : nat.
Variable st : State.

Hypothesis project_kind :
  kindOf (project st) (N.lor ReflectionKind.Project ReflectionKind.Module) = true.
Hypothesis unrecorded : knownPrograms_get (knownPrograms st) currentModule = None.

#[local] Abbreviation create := (createInternalContext internalNamespace currentModule).
#[local] Abbreviation resolveAll :=
  (resolveSymbols findReflectionByName symbolDeclarations internalNamespace
     noMissingExports modules currentModule).

(** Before the first call of [createInternalContext]. *)
#[local] Abbreviation Before rs :=
  (project (state rs) = project st
   /\ nextId (state rs) = nextId st
   /\ internalContext rs = None
   /\ knownPrograms (state rs) = knownPrograms st
   /\ conversions (calls (state rs)) = conversions (calls st)).

(** The state the exception leaves: the tree of [st] with the empty
    namespace under the module, and no symbol converted. *)
#[local] Abbreviation Aborted st' :=
  (project st'
   = addChildren currentModule
       [newDeclarationReflection (nextId st) internalNamespace ReflectionKind.Namespace]
       (project st)
   /\ conversions (calls st') = conversions (calls st)
   /\ In (CreateDeclarationReflection currentModule ReflectionKind.Namespace
            internalNamespace (nextId st)) (calls st')
   /\ program st' = None).

Lemma createInternalContext_unrecorded (rs : Resolution) :
  Before rs -> exists st', create rs = Thrown st' /\ Aborted st'.
Proof.
  intros (Hproj & Hnext & Hmemo & Hknown & Hconv).
  unfold createInternalContext. rewrite Hmemo.
  unfold createDeclarationReflection, finalizeDeclarationReflection.
  cbv beta iota zeta. rewrite onCreateDeclaration_throws.
  - eexists. split; [reflexivity |]. simpl. rewrite Hproj, Hnext, Hknown.
    split; [reflexivity |]. split; [| split; [| exact unrecorded]].
    + rewrite !conversions_app.
      repeat match goal with
             | |- context [conversions [?c]] => change (conversions [c]) with 0
             end.
      lia.
    + apply in_or_app. left. apply in_or_app. right. left. reflexivity.
  - simpl. rewrite Hknown. exact unrecorded.
  - simpl. unfold kindOf. rewrite kind_addChildren, Hproj. exact project_kind.
Qed.

Lemma resolveSymbols_unrecorded (missing : SymbolSet.t) (rs : Resolution) :
  Before rs ->
  Ends (fun rs' => Before rs') (fun st' => Aborted st') (resolveAll missing rs).
Proof.
  apply (@resolveSymbols_invariant findReflectionByName symbolDeclarations
           internalNamespace noMissingExports modules currentModule
           (fun rs' => Before rs') (fun st' => Aborted st')).
  - intros rs' m H. exact H.
  - intros rs' m ref modCtx (H1 & H2 & H3 & H4 & H5) _ _ _. simpl.
    rewrite conversions_app. change (conversions [_]) with 0.
    rewrite Nat.add_0_r. tauto.
  - intros _ rs' H. destruct (@createInternalContext_unrecorded rs' H) as (st' & -> & H').
    exact H'.
  - intros _ rs' ns m (_ & _ & Hmemo & _) Hns. congruence.
Qed.

(** X16.  A module in which the collector finds a missing symbol and
    for which the conversion recorded no program: the first call of
    [createInternalContext] activates no program, creates the internal
    namespace and throws when the creation listener reads the program of
    the context.  The processing of the module ends with that exception in
    its first round, whether synthesis is enabled or not; the tree it
    leaves is the tree it started on with the empty namespace under the
    module, and no symbol has been converted. *)
Theorem module_without_program_aborts (fuel : nat) :
  discoverMissingExportsOf st currentModule <> [] ->
  exists st',
    resolveModule findReflectionByName symbolDeclarations internalNamespace
      noMissingExports modules currentModule (S fuel) st = Some (Thrown st')
    /\ project st'
       = addChildren currentModule
           [newDeclarationReflection (nextId st) internalNamespace
              ReflectionKind.Namespace]
           (project st)
    /\ conversions (calls st') = conversions (calls st)
    /\ In (CreateDeclarationReflection currentModule ReflectionKind.Namespace
             internalNamespace (nextId st)) (calls st')
    /\ program st' = None.
Proof.
  intros Hne. unfold resolveModule.
  destruct (discoverMissingExportsOf st currentModule) as [| s l] eqn:Hd;
    [congruence |].
  change (SymbolSet.size (s :: l) =? 0) with false. cbv iota.
  cbn [resolveLoop]. unfold resolveRound.
  pose proof (@resolveSymbols_unrecorded (s :: l)
                (mkResolution st None SymbolSet.empty)) as Hall.
  destruct (resolveAll (s :: l) (mkResolution st None SymbolSet.empty))
    as [rs1 | st1] eqn:E; simpl in Hall.
  - specialize (Hall ltac:(tauto)).
    destruct (@createInternalContext_unrecorded rs1 Hall) as (st' & Hc & H').
    destruct noMissingExports.
    + rewrite deleteTried_all.
      * simpl. rewrite Hc. eauto.
      * intros x Hx. rewrite (@tried_resolveSymbols _ _ _ _ _ _ _ _ _ E).
        apply addAll_In. tauto.
    + rewrite Hc. eauto.
  - specialize (Hall ltac:(tauto)). eauto.
Qed.

End Unrecorded.

(** Module [M] names the undocumented [U] and no program was recorded for
    it: the phase ends with an exception and leaves the empty namespace, id
    3, under [M]. *)
Lemma module_without_program_aborts_witness :
  let st := Examples.stateM0 (Examples.unresolved Examples.symU) in
  exists st',
    resolveModule findChildByName Examples.declarations "internal" false [1] 1 1 st
    = Some (Thrown st')
    /\ getReflectionById 3 (project st')
       = Some (Examples.container DeclarationClass 3 "internal"
                 ReflectionKind.Namespace [])
    /\ onResolveBegin findChildByName Examples.declarations "internal" false 1 st
       = Some (Thrown st').
Proof.
  intros st.
  destruct (@module_without_program_aborts findChildByName Examples.declarations
              "internal" false [1] 1 st eq_refl eq_refl 0
              ltac:(vm_compute; discriminate)) as (st' & Hrun & Hproj & _).
  exists st'. split; [exact Hrun |]. split.
  - rewrite Hproj. reflexivity.
  - unfold onResolveBegin.
    change (projectModules st) with [1]. cbn [resolveModules].
    rewrite Hrun. reflexivity.
Defined.

(** ** A project with modules *)

(** X17.  In a project that has modules, when the lookup by name returns
    a child of the scope it is asked in and every reflection of the tree has
    an id of its own, no module owns the reflection a name finds: the
    reflection is a child of the project and the modules hold other
    reflections.  A missing symbol whose name finds a reflection is then
    marked tried and dropped; it is neither registered nor converted. *)
Theorem project_with_modules_registers_nothing
  (findReflectionByName : Reflection -> string -> option Reflection)
  (symbolDeclarations : Symbol -> nat -> list Reflection) (internalNamespace : string)
  (noMissingExports : bool) (currentModule : nat) (rs : Resolution) (m : Symbol)
  (ref : Reflection) :
  (forall scope n x, findReflectionByName scope n = Some x -> In x (children scope)) ->
  UniqueIds (project (state rs)) ->
  getChildrenByKind (project (state rs)) ReflectionKind.Module <> [] ->
  findReflectionByName (project (state rs)) (symbol_name m) = Some ref ->
  getModule (projectModules (state rs)) (state rs) ref = None
  /\ resolveSymbol findReflectionByName symbolDeclarations internalNamespace
       noMissingExports (projectModules (state rs)) currentModule rs m
     = Returned (mkResolution (state rs) (internalContext rs)
                   (SymbolSet.add m (tried rs))).
Proof.
  intros Hlookup Huniq Hmods Hfind.
  assert (Hnone : getModule (projectModules (state rs)) (state rs) ref = None).
  { destruct (getModule (projectModules (state rs)) (state rs) ref) as [modCtx |] eqn:E;
      [| reflexivity].
    exfalso.
    destruct (@getModule_of_child (state rs) ref modCtx Huniq (Hlookup _ _ _ Hfind) E)
      as (Hone & _).
    unfold projectModules in Hone.
    destruct (getChildrenByKind (project (state rs)) ReflectionKind.Module)
      as [| c cs] eqn:Hc; [congruence |].
    simpl in Hone. injection Hone as Hid Hcs.
    assert (Hin : In c (children (project (state rs)))).
    { apply (@In_getChildrenByKind _ c ReflectionKind.Module). rewrite Hc. left.
      reflexivity. }
    unfold UniqueIds in Huniq. rewrite treeIds_unfold in Huniq.
    apply NoDup_cons_iff in Huniq. destruct Huniq as (Hroot & _).
    apply Hroot. rewrite <- Hid.
    eapply treeIds_child; [exact Hin | apply treeIds_root]. }
  split; [exact Hnone |].
  unfold resolveSymbol. cbn [state internalContext tried].
  destruct (String.eqb (symbol_name m) "default"); [reflexivity |].
  rewrite Hfind, Hnone. reflexivity.
Qed.

(** In the project with module [N] the name [N] finds the module itself,
    which no module owns. *)
Lemma project_with_modules_registers_nothing_witness :
  getModule [1] Examples.stateN Examples.moduleN = None
  /\ resolveSymbol findChildByName Examples.declarations "internal" false [1] 1
       (mkResolution Examples.stateN None []) Examples.symN
     = Returned (mkResolution Examples.stateN None [Examples.symN]).
Proof.
  apply (@project_with_modules_registers_nothing findChildByName Examples.declarations
           "internal" false 1 (mkResolution Examples.stateN None []) Examples.symN
           Examples.moduleN).
  - intros scope n x H. apply find_some in H. tauto.
  - unfold UniqueIds. vm_compute. repeat constructor; simpl; intuition discriminate.
  - vm_compute. discriminate.
  - reflexivity.
Defined.

(** ** The scope of a registration *)

(** X18.  Whatever the lookup by name returns and whichever module is
    being processed, a missing symbol whose name finds a reflection with an
    owning module is marked tried and registered against that reflection
    under the scope of the owner, the module [getModule] returns: one of the
    modules, with a direct child of the kind and the id of the reflection.
    The step returns and does nothing else. *)
Theorem alias_registered_under_owning_module
  (findReflectionByName : Reflection -> string -> option Reflection)
  (symbolDeclarations : Symbol -> nat -> list Reflection) (internalNamespace : string)
  (noMissingExports : bool) (modules : list nat) (currentModule : nat)
  (rs : Resolution) (m : Symbol) (ref : Reflection) (modCtx : nat) :
  String.eqb (symbol_name m) "default" = false ->
  findReflectionByName (project (state rs)) (symbol_name m) = Some ref ->
  getModule modules (state rs) ref = Some modCtx ->
  resolveSymbol findReflectionByName symbolDeclarations internalNamespace
    noMissingExports modules currentModule rs m
  = Returned (mkResolution (registerReflection modCtx ref m (state rs))
                (internalContext rs) (SymbolSet.add m (tried rs)))
  /\ calls (registerReflection modCtx ref m (state rs))
     = calls (state rs) ++ [RegisterReflection modCtx (id ref) m]
  /\ In modCtx modules
  /\ exists r d,
      getReflectionById modCtx (project (state rs)) = Some r
      /\ In d (getChildrenByKind r (kind ref))
      /\ id d = id ref.
Proof.
  intros Hname Hfind Hmod. split; [| split].
  - unfold resolveSymbol. simpl. rewrite Hname, Hfind, Hmod. reflexivity.
  - reflexivity.
  - apply getModule_owner. exact Hmod.
Qed.

(** In the project of one package the owner of the type alias [T] is the
    project, and [T] is registered under its scope. *)
Lemma alias_registered_under_owning_module_witness :
  resolveSymbol findChildByName Examples.declarations "internal" false [0] 0
    (mkResolution Examples.stateS None []) Examples.symT
  = Returned (mkResolution
                (registerReflection 0 Examples.aliasT Examples.symT Examples.stateS)
                None [Examples.symT])
  /\ calls (registerReflection 0 Examples.aliasT Examples.symT Examples.stateS)
     = [RegisterReflection 0 1 Examples.symT].
Proof.
  destruct (@alias_registered_under_owning_module findChildByName Examples.declarations
              "internal" false [0] 0 (mkResolution Examples.stateS None [])
              Examples.symT Examples.aliasT 0 eq_refl eq_refl eq_refl)
    as (E & Hcalls & _).
  split; [exact E | exact Hcalls].
Defined.
